(** * Wine market analysis scripts: a shallow embedding

    The repository holds three Python scripts built on pandas, numpy and
    scikit-learn:

    - [data_processor.py]       (class [DataProcessor]),
    - [wine_trends_analysis.py] (class [WineTrendsAnalyzer]),
    - [wine_export_analysis.py] (class [WineExportAnalyzer]).

    Numeric cells are modelled by exact rationals [Q] (the values a float
    cell denotes), a missing cell (NaN) by [None].  The library calls the
    scripts make ([pd.cut], [Series.quantile], [Series.corr], [groupby],
    [nlargest], [LinearRegression]) are modelled by their documented
    behaviour on the arguments the scripts pass.

    The outlier fence of [clean_data] is computed in binary64 arithmetic
    (section "Binary64 arithmetic"): each operation is the exact result
    rounded to the nearest float.  The descriptive statistics (means,
    deviations, sums, correlations) are given by their exact values,
    which the float results approximate; the properties stated about
    them are about counts, order and structure only. *)

From Stdlib Require Import String.
From Stdlib Require Import ZArith QArith Qpower Qabs Qround Qreals Reals Psatz Lia List Bool Arith.
From Stdlib Require Import Permutation Sorted.
Import ListNotations.

Local Open Scope Q_scope.

(** ** Numbers *)

Definition Qlt_bool (x y : Q) : bool := negb (Qle_bool y x).

(** A bin edge of [pd.cut]: a finite float or [float('inf')]. *)
Inductive edge : Type :=
| Fin (q : Q)
| Inf.

(** [e < x] and [x <= e] for a finite value [x]. *)
Definition edge_ltb (e : edge) (x : Q) : bool :=
  match e with
  | Fin q => Qlt_bool q x
  | Inf => false
  end.

Definition edge_lt (e : edge) (x : Q) : Prop :=
  match e with
  | Fin q => q < x
  | Inf => False
  end.

Definition le_edge (x : Q) (e : edge) : Prop :=
  match e with
  | Fin q => x <= q
  | Inf => True
  end.

(** Strict order on edges, used to say that the bins increase. *)
Definition edge_lt_edge (a b : edge) : Prop :=
  match a, b with
  | Fin p, Fin q => p < q
  | Fin _, Inf => True
  | Inf, _ => False
  end.

(** ** [pd.cut(x, bins, labels=labels)]

    With a sequence of bins and the default [right=True],
    [include_lowest=False], pandas computes
    [ids = bins.searchsorted(x, side='left')], masks the positions where
    [ids == 0] or [ids == len(bins)] (and the NaN cells) and takes the
    label at [ids - 1]. *)

Fixpoint searchsorted_left (bins : list edge) (x : Q) : nat :=
  match bins with
  | [] => 0%nat
  | b :: bs => if edge_ltb b x then S (searchsorted_left bs x) else 0%nat
  end.

Definition cut (bins : list edge) (labels : list string) (x : Q)
  : option string :=
  let ids := searchsorted_left bins x in
  if (ids =? 0)%nat || (ids =? length bins)%nat then None
  else nth_error labels (ids - 1).

(** A NaN cell stays NaN. *)
Definition cut_cell (bins : list edge) (labels : list string)
  (x : option Q) : option string :=
  match x with
  | Some v => cut bins labels v
  | None => None
  end.

(** The constants of [WineTrendsAnalyzer.clean_data]. *)
Definition price_bins : list edge :=
  [Fin 0; Fin 15; Fin 30; Fin 50; Fin 100; Inf].

Definition price_labels : list string :=
  ["Econômico (<$15)"; "Médio ($15-30)"; "Premium ($30-50)";
   "Super Premium ($50-100)"; "Ultra Premium (>$100)"]%string.

Definition rating_bins : list edge :=
  [Fin 0; Fin 82; Fin 87; Fin 90; Fin 95; Fin 100].

Definition rating_labels : list string :=
  ["Aceitável (80-82)"; "Bom (83-87)"; "Muito Bom (88-90)";
   "Excelente (91-95)"; "Excepcional (96-100)"]%string.

Definition price_category_of (x : Q) : option string :=
  cut price_bins price_labels x.

Definition rating_category_of (x : Q) : option string :=
  cut rating_bins rating_labels x.

(** Bins increase strictly, as [pd.cut] requires. *)
Fixpoint increasing (bins : list edge) : Prop :=
  match bins with
  | [] => True
  | a :: bs =>
      match bs with
      | [] => True
      | b :: _ => edge_lt_edge a b /\ increasing bs
      end
  end.


(** ** The tabular record set

    One row of the wine review file, with the two columns [clean_data]
    adds.  [None] is a missing cell. *)

Record wine_row : Type := mk_wine {
  country : option string;
  points : option Q;
  price : option Q;
  variety : option string;
  title : option string;
  price_category : option string;
  rating_category : option string
}.

Definition DataFrame : Type := list wine_row.

(** A row as [pd.read_csv] yields it: no derived column yet. *)
Definition review (c : string) (pts pr : Q) (v t : string) : wine_row :=
  mk_wine (Some c) (Some pts) (Some pr) (Some v) (Some t) None None.

Definition is_some {A : Type} (o : option A) : bool :=
  match o with
  | Some _ => true
  | None => false
  end.

(** The non-missing cells of a column, in row order. *)
Fixpoint dropna_cells {A : Type} (col : list (option A)) : list A :=
  match col with
  | [] => []
  | Some a :: t => a :: dropna_cells t
  | None :: t => dropna_cells t
  end.

(** A comparison of a cell with a constant is false on a missing cell. *)
Definition cell_test (f : Q -> bool) (c : option Q) : bool :=
  match c with
  | Some v => f v
  | None => false
  end.

Definition str_cell_eqb (c : option string) (s : string) : bool :=
  match c with
  | Some v => String.eqb v s
  | None => false
  end.

(** ** Series reductions (all skip missing cells) *)

Definition Qsum (l : list Q) : Q := fold_right Qplus 0 l.

Definition Qof_nat (n : nat) : Q := inject_Z (Z.of_nat n).

(** [Series.mean()]: NaN on a column without values. *)
Definition mean_values (l : list Q) : Q := Qsum l / Qof_nat (length l).

Definition mean (col : list (option Q)) : option Q :=
  match dropna_cells col with
  | [] => None
  | v :: vs => Some (mean_values (v :: vs))
  end.

Definition Qmin_list (x : Q) (l : list Q) : Q :=
  fold_left (fun m y => if Qlt_bool y m then y else m) l x.

Definition Qmax_list (x : Q) (l : list Q) : Q :=
  fold_left (fun m y => if Qlt_bool m y then y else m) l x.

Definition series_min (col : list (option Q)) : option Q :=
  match dropna_cells col with
  | [] => None
  | v :: vs => Some (Qmin_list v vs)
  end.

Definition series_max (col : list (option Q)) : option Q :=
  match dropna_cells col with
  | [] => None
  | v :: vs => Some (Qmax_list v vs)
  end.

(** Whether a cell holds one of the given labels. *)
Definition labelled (labels : list string) (c : option string) : bool :=
  match c with
  | Some l => existsb (String.eqb l) labels
  | None => false
  end.

(** ** Stable sorting *)

Section Sorting.
Context {A : Type} (leb : A -> A -> bool).

Fixpoint insert_by (x : A) (l : list A) : list A :=
  match l with
  | [] => [x]
  | y :: t => if leb x y then x :: y :: t else y :: insert_by x t
  end.

(** Insertion from the right: of two rows that compare equal the one
    that comes first in the input stays first. *)
Definition sort_by (l : list A) : list A := fold_right insert_by [] l.
End Sorting.

Definition sort_values (l : list Q) : list Q := sort_by Qle_bool l.

(** ** [Series.value_counts()]

    Missing cells are dropped, the distinct values are taken in order of
    first appearance and sorted by decreasing count (stable). *)

Fixpoint unique (l : list string) : list string :=
  match l with
  | [] => []
  | x :: t => x :: filter (fun y => negb (String.eqb x y)) (unique t)
  end.

Definition count_str (s : string) (l : list string) : nat :=
  length (filter (String.eqb s) l).

Definition value_counts (col : list (option string)) : list (string * nat) :=
  let vals := dropna_cells col in
  sort_by (fun a b => (snd b <=? snd a)%nat)
          (map (fun k => (k, count_str k vals)) (unique vals)).

Definition head {A : Type} (n : nat) (l : list A) : list A := firstn n l.

(** ** Quantiles by linear interpolation, exact

    On [n] values the virtual index is [h = (n - 1) * q]; the result
    interpolates between the sorted values at [floor h] and [ceil h].
    An empty column gives NaN.  This is the exact value, used for the
    medians of the grouped tables; the quartiles of the outlier fence
    are computed in float arithmetic ([float_quantile] below). *)

(** The value at virtual index [h] of the sorted values [s]. *)
Definition interpolate (s : list Q) (h : Q) : Q :=
  let lo := Qfloor h in
  let hi := Qceiling h in
  let a := nth (Z.to_nat lo) s 0 in
  let b := nth (Z.to_nat hi) s 0 in
  a + (h - inject_Z lo) * (b - a).

Definition quantile_values (vals : list Q) (q : Q) : Q :=
  interpolate (sort_values vals) (Qof_nat (length vals - 1) * q).

Definition quantile (col : list (option Q)) (q : Q) : option Q :=
  match dropna_cells col with
  | [] => None
  | v :: vs => Some (quantile_values (v :: vs) q)
  end.

(** [Series.median()] is the 0.5 quantile. *)
Definition median (col : list (option Q)) : option Q := quantile col (1 # 2).

(** ** Effects: exceptions, console output, object fields

    A method is a function from the object's fields to an outcome, the
    fields after the call and the lines it printed.  [Raised] carries an
    exception that derives from Python's [Exception]. *)

Inductive exn : Type :=
| FileNotFoundError (path : string)
| ParserError (path : string)
| AttributeError
| TypeError
| ZeroDivisionError
| ValueError.

Inductive outcome (A : Type) : Type :=
| Returned (a : A)
| Raised (e : exn).

Arguments Returned {A} a.
Arguments Raised {A} e.

(** What the loaders print; the numbers are the [len(...)] of the
    format strings. *)
Inductive message : Type :=
| ReviewsLoaded (n : nat)
| ReviewsError (e : exn)
| EmbrapaLoaded (n : nat)
| EmbrapaError (e : exn)
| DatasetLoaded (n : nat)
| BrazilianFound (n : nat)
| DataCleaned (n : nat)
| LoadError (e : exn).

Definition Py (S A : Type) : Type := S -> outcome A * S * list message.

Definition ret {S A : Type} (a : A) : Py S A := fun s => (Returned a, s, []).

Definition raise {S A : Type} (e : exn) : Py S A := fun s => (Raised e, s, []).

Definition bind {S A B : Type} (m : Py S A) (k : A -> Py S B) : Py S B :=
  fun s =>
    match m s with
    | (Returned a, s1, out1) =>
        match k a s1 with
        | (r, s2, out2) => (r, s2, out1 ++ out2)
        end
    | (Raised e, s1, out1) => (Raised e, s1, out1)
    end.

Definition print {S : Type} (m : message) : Py S unit :=
  fun s => (Returned tt, s, [m]).

Definition get {S : Type} : Py S S := fun s => (Returned s, s, []).

Definition put {S : Type} (s : S) : Py S unit := fun _ => (Returned tt, s, []).

(** A library call: its outcome is given by the environment. *)
Definition call {S A : Type} (r : outcome A) : Py S A := fun s => (r, s, []).

(** [try: body except Exception as e: handler e].  The fields written
    and the lines printed before the exception stay. *)
Definition try_except {S A : Type} (body : Py S A) (handler : exn -> Py S A)
  : Py S A :=
  fun s =>
    match body s with
    | (Returned a, s1, out1) => (Returned a, s1, out1)
    | (Raised e, s1, out1) =>
        match handler e s1 with
        | (r, s2, out2) => (r, s2, out1 ++ out2)
        end
    end.

Notation "x <- m ;; k" := (bind m (fun x => k))
  (at level 61, m at next level, right associativity).
Notation "m ;;; k" := (bind m (fun _ => k))
  (at level 61, right associativity).

(** A spreadsheet of unspecified schema. *)
Definition Sheet : Type := list (list string).

(** The files the process can see. *)
Class FileSystem : Type := {
  read_csv : string -> outcome DataFrame;
  read_excel : string -> outcome Sheet
}.

(** ** [data_processor.py] *)

Module DataProcessor.

Record t : Type := mk {
  data_path : string;
  wine_reviews : option DataFrame;
  embrapa_data : option Sheet
}.

(** [DataProcessor(data_path="raw-data")] *)
Definition init : t := mk "raw-data" None None.

Definition join (dir name : string) : string :=
  (dir ++ "/" ++ name)%string.

Definition reviews_file : string := "winemag-data-130k-v2.csv".
Definition embrapa_file : string :=
  "embrapa e OIV(Definitiva 2.0).CSV (2).xlsx".

Definition load_wine_reviews `{FileSystem} : Py t (option DataFrame) :=
  try_except
    (self <- get ;;
     let file_path := join (data_path self) reviews_file in
     df <- call (read_csv file_path) ;;
     put (mk (data_path self) (Some df) (embrapa_data self)) ;;;
     print (ReviewsLoaded (length df)) ;;;
     ret (Some df))
    (fun e => print (ReviewsError e) ;;; ret None).

Definition load_embrapa_data `{FileSystem} : Py t (option Sheet) :=
  try_except
    (self <- get ;;
     let file_path := join (data_path self) embrapa_file in
     df <- call (read_excel file_path) ;;
     put (mk (data_path self) (wine_reviews self) (Some df)) ;;;
     print (EmbrapaLoaded (length df)) ;;;
     ret (Some df))
    (fun e => print (EmbrapaError e) ;;; ret None).

Record analysis : Type := mk_analysis {
  total_reviews : nat;
  avg_points : option Q;
  avg_price : option Q;
  price_range : option Q * option Q;
  top_varieties : list (string * nat)
}.

Definition brazilian_wines (df : DataFrame) : DataFrame :=
  filter (fun r => str_cell_eqb (country r) "Brazil") df.

Definition analyze (df : DataFrame) : analysis :=
  let brazilian := brazilian_wines df in
  mk_analysis
    (length brazilian)
    (mean (map points brazilian))
    (mean (map price brazilian))
    (series_min (map price brazilian), series_max (map price brazilian))
    (head 10 (value_counts (map variety brazilian))).

Definition analyze_wine_reviews `{FileSystem} : Py t (option analysis) :=
  self <- get ;;
  (match wine_reviews self with
   | None => load_wine_reviews ;;; ret tt
   | Some _ => ret tt
   end) ;;;
  self <- get ;;
  match wine_reviews self with
  | Some df => ret (Some (analyze df))
  | None => ret None
  end.

End DataProcessor.

(** ** Float cells that may be infinite

    numpy divides by zero without raising: a positive numerator gives
    [inf], a negative one [-inf], zero over zero NaN. *)

Inductive float_val : Type :=
| Finite (q : Q)
| PosInf
| NegInf
| NaN.

Definition float_div (a b : option Q) : float_val :=
  match a, b with
  | Some x, Some y =>
      if Qeq_bool y 0 then
        if Qlt_bool 0 x then PosInf
        else if Qlt_bool x 0 then NegInf
        else NaN
      else Finite (x / y)
  | _, _ => NaN
  end.

Definition is_nan (v : float_val) : bool :=
  match v with
  | NaN => true
  | _ => false
  end.

Definition is_inf (v : float_val) : bool :=
  match v with
  | PosInf | NegInf => true
  | _ => false
  end.

(** [a >= b] on floats; false as soon as one side is NaN. *)
Definition float_geb (a b : float_val) : bool :=
  match a, b with
  | NaN, _ | _, NaN => false
  | PosInf, _ => true
  | _, NegInf => true
  | NegInf, _ => false
  | _, PosInf => false
  | Finite x, Finite y => Qle_bool y x
  end.

Definition float_leb (a b : float_val) : bool := float_geb b a.

(** [a == b] on floats; false as soon as one side is NaN. *)
Definition float_eqb (a b : float_val) : bool :=
  float_geb a b && float_geb b a.

(** ** Binary64 arithmetic

    A finite float is a number [m * 2^e] with [|m| < 2^53] and
    [-1074 <= e <= 971].  An IEEE 754 operation returns the exact result
    rounded to the nearest float, ties to the even significand, and an
    infinity when the rounded magnitude reaches [2^1024].  The sign of a
    zero is not represented: it shows only in a division by zero. *)

Definition pow2 (e : Z) : Q := 2 ^ e.

(** For [0 < x], the exponent [e] with [2^e <= x < 2^(e+1)]. *)
Definition ilog2 (x : Q) : Z :=
  let e := (Z.log2 (Qnum x) - Z.log2 (Zpos (Qden x)))%Z in
  if Qle_bool (pow2 e) x then e else (e - 1)%Z.

(** The nearest integer, ties to even. *)
Definition rne (y : Q) : Z :=
  let f := Qfloor y in
  let d := y - inject_Z f in
  if Qlt_bool d (1 # 2) then f
  else if Qlt_bool (1 # 2) d then (f + 1)%Z
  else if Z.even f then f else (f + 1)%Z.

(** The exponent of the unit in the last place of [x]: 53 significant
    bits, and no exponent under that of the subnormal numbers. *)
Definition ulp_exp (x : Q) : Z := Z.max (ilog2 x - 52) (-1074).

Definition round_val (x : Q) : Q :=
  inject_Z (rne (x / pow2 (ulp_exp x))) * pow2 (ulp_exp x).

(** Rounding of a positive number. *)
Definition round_pos (x : Q) : float_val :=
  let v := round_val x in
  if Qle_bool (pow2 1024) v then PosInf else Finite v.

Definition fneg (v : float_val) : float_val :=
  match v with
  | Finite q => Finite (- q)
  | PosInf => NegInf
  | NegInf => PosInf
  | NaN => NaN
  end.

Definition round64 (x : Q) : float_val :=
  if Qlt_bool 0 x then round_pos x
  else if Qlt_bool x 0 then fneg (round_pos (- x))
  else Finite 0.

(** [a + b], [a - b] and [a * b] on floats. *)
Definition fadd (a b : float_val) : float_val :=
  match a, b with
  | NaN, _ | _, NaN => NaN
  | PosInf, NegInf | NegInf, PosInf => NaN
  | PosInf, _ | _, PosInf => PosInf
  | NegInf, _ | _, NegInf => NegInf
  | Finite x, Finite y => round64 (x + y)
  end.

Definition fsub (a b : float_val) : float_val := fadd a (fneg b).

(** The product of an infinity with a finite factor. *)
Definition scale_inf (inf : float_val) (x : Q) : float_val :=
  if Qlt_bool 0 x then inf
  else if Qlt_bool x 0 then fneg inf
  else NaN.

Definition fmul (a b : float_val) : float_val :=
  match a, b with
  | NaN, _ | _, NaN => NaN
  | Finite x, Finite y => round64 (x * y)
  | Finite x, inf | inf, Finite x => scale_inf inf x
  | PosInf, PosInf | NegInf, NegInf => PosInf
  | PosInf, NegInf | NegInf, PosInf => NegInf
  end.

(** [v] is the value of a finite float: rounding returns it. *)
Definition binary64 (v : Q) : Prop := float_eqb (round64 v) (Finite v) = true.

(** ** [Series.quantile(q)] in float arithmetic

    pandas hands the non-missing values to [np.percentile] (method
    [linear]).  On [n] values numpy takes the virtual index
    [h = (n - 1) * q], the sorted values [a] at [floor h] and [b] at the
    next index (the last one at most), the weight [t = h - floor h], and
    interpolates with [_lerp]:
    [a + (b - a) * t], or [b - (b - a) * (1 - t)] when [t >= 0.5].
    The index arithmetic is exact for the [q] used here (0.25 and 0.75)
    on fewer than [2^51] rows.  An empty column gives NaN. *)

Definition lerp (a b t : float_val) : float_val :=
  let diff_b_a := fsub b a in
  if float_geb t (Finite (1 # 2))
  then fsub b (fmul diff_b_a (fsub (Finite 1) t))
  else fadd a (fmul diff_b_a t).

Definition percentile (vals : list Q) (q : Q) : float_val :=
  match vals with
  | [] => NaN
  | _ :: _ =>
      let s := sort_values vals in
      let n := length vals in
      let h := Qof_nat (n - 1) * q in
      let previous := Z.to_nat (Qfloor h) in
      let next := Nat.min (S previous) (n - 1) in
      let gamma := h - inject_Z (Qfloor h) in
      lerp (Finite (nth previous s 0)) (Finite (nth next s 0)) (Finite gamma)
  end.

Definition float_quantile (col : list (option Q)) (q : Q) : float_val :=
  percentile (dropna_cells col) q.

(** [DataFrame.nlargest(n, column)] with the default [keep='first']: the
    rows by decreasing value, ties in row order, NaN rows last. *)
Definition nlargest {A : Type} (n : nat) (key : A -> float_val) (l : list A)
  : list A :=
  let valid := filter (fun r => negb (is_nan (key r))) l in
  let nans := filter (fun r => is_nan (key r)) l in
  head n (sort_by (fun a b => float_geb (key a) (key b)) valid ++ nans).

(** ** Arithmetic on cells: NaN propagates *)

Definition cell_map2 (f : Q -> Q -> Q) (a b : option Q) : option Q :=
  match a, b with
  | Some x, Some y => Some (f x y)
  | _, _ => None
  end.

Definition cell_map (f : Q -> Q) (a : option Q) : option Q :=
  match a with
  | Some x => Some (f x)
  | None => None
  end.

(** [round(2)]: to two decimals, halves to the even neighbour. *)
Definition round2 (x : Q) : Q :=
  let y := x * 100 in
  let f := Qfloor y in
  let d := y - inject_Z f in
  let r :=
    if Qlt_bool d (1 # 2) then f
    else if Qlt_bool (1 # 2) d then (f + 1)%Z
    else if Z.even f then f else (f + 1)%Z in
  inject_Z r / 100.

(** ** Sample moments (ddof = 1)

    Sums run over the rows of a frame; [f] and [g] read a numeric cell
    of a row. *)

Definition sum_over {A : Type} (f : A -> Q) (l : list A) : Q :=
  Qsum (map f l).

Definition mean_over {A : Type} (f : A -> Q) (l : list A) : Q :=
  sum_over f l / Qof_nat (length l).

(** Sum of the products of the centred cells. *)
Definition cross {A : Type} (f g : A -> Q) (l : list A) : Q :=
  sum_over (fun a => (f a - mean_over f l) * (g a - mean_over g l)) l.

Definition covariance {A : Type} (f g : A -> Q) (l : list A) : Q :=
  cross f g l / Qof_nat (length l - 1).

Definition variance {A : Type} (f : A -> Q) (l : list A) : Q :=
  covariance f f l.

(** The square of [Series.std()]: NaN under two values. *)
Definition sample_variance (col : list (option Q)) : option Q :=
  let vals := dropna_cells col in
  if (length vals <? 2)%nat then None
  else Some (variance (fun v => v) vals).

(** ** [Series.corr(other)], Pearson

    Rows where either cell is missing are dropped; fewer than one row
    left gives NaN.  Then [np.corrcoef]: the covariance matrix with
    [ddof = 1] (a single row divides zero by zero), divided by the two
    standard deviations in turn (NaN when one of them is zero) and
    clipped to [-1, 1].  The standard deviations are square roots, so the
    value is a real number; whether it is NaN is decided on the exact
    moments. *)

Fixpoint valid_pairs (a b : list (option Q)) : list (Q * Q) :=
  match a, b with
  | Some x :: a', Some y :: b' => (x, y) :: valid_pairs a' b'
  | _ :: a', _ :: b' => valid_pairs a' b'
  | _, _ => []
  end.

Definition clip (r : R) : R := Rmax (-1) (Rmin 1 r).

Definition pearson (ps : list (Q * Q)) : R :=
  (Q2R (covariance fst snd ps) / sqrt (Q2R (variance fst ps))
   / sqrt (Q2R (variance snd ps)))%R.

Definition corrcoef (ps : list (Q * Q)) : option R :=
  if (length ps <=? 1)%nat then None
  else if Qeq_bool (variance fst ps) 0 || Qeq_bool (variance snd ps) 0
       then None
  else Some (clip (pearson ps)).

Definition series_corr (a b : list (option Q)) : option R :=
  corrcoef (valid_pairs a b).

(** ** [wine_trends_analysis.py] *)

Module WineTrendsAnalyzer.

Record t : Type := mk {
  wine_data : option DataFrame;
  brazilian_wines : option DataFrame
}.

Definition init : t := mk None None.

(** *** [clean_data] *)

(** [dropna(subset=['points', 'price'])] *)
Definition dropna_points_price (df : DataFrame) : DataFrame :=
  filter (fun r => is_some (points r) && is_some (price r)) df.

Definition Q1 (df : DataFrame) : float_val :=
  float_quantile (map price df) (1 # 4).
Definition Q3 (df : DataFrame) : float_val :=
  float_quantile (map price df) (3 # 4).
Definition IQR (df : DataFrame) : float_val := fsub (Q3 df) (Q1 df).
Definition lower_bound (df : DataFrame) : float_val :=
  fsub (Q1 df) (fmul (Finite (3 # 2)) (IQR df)).
Definition upper_bound (df : DataFrame) : float_val :=
  fadd (Q3 df) (fmul (Finite (3 # 2)) (IQR df)).

(** [(price >= lower_bound) & (price <= upper_bound)]; a comparison
    with NaN is false. *)
Definition within_bounds (lo hi : float_val) (r : wine_row) : bool :=
  match price r with
  | Some p => float_leb lo (Finite p) && float_leb (Finite p) hi
  | None => false
  end.

Definition remove_outliers (df : DataFrame) : DataFrame :=
  filter (within_bounds (lower_bound df) (upper_bound df)) df.

Definition add_categories (df : DataFrame) : DataFrame :=
  map (fun r =>
         mk_wine (country r) (points r) (price r) (variety r) (title r)
                 (cut_cell price_bins price_labels (price r))
                 (cut_cell rating_bins rating_labels (points r)))
      df.

Definition clean (df : DataFrame) : DataFrame :=
  add_categories (remove_outliers (dropna_points_price df)).

Definition clean_data : Py t unit :=
  self <- get ;;
  match wine_data self with
  | None => raise AttributeError
  | Some df =>
      let cleaned := clean df in
      put (mk (Some cleaned) (brazilian_wines self)) ;;;
      print (DataCleaned (length cleaned))
  end.

(** *** [load_data] *)

Definition reviews_file : string := "raw-data/winemag-data-130k-v2.csv".

Definition load_data `{FileSystem} : Py t bool :=
  try_except
    (df <- call (read_csv reviews_file) ;;
     self <- get ;;
     put (mk (Some df) (brazilian_wines self)) ;;;
     print (DatasetLoaded (length df)) ;;;
     let brazil := filter (fun r => str_cell_eqb (country r) "Brazil") df in
     put (mk (Some df) (Some brazil)) ;;;
     print (BrazilianFound (length brazil)) ;;;
     clean_data ;;;
     ret true)
    (fun e => print (LoadError e) ;;; ret false).

(** *** [analyze_price_quality_relationship]

    The methods below read [self.wine_data]; they are given here as
    functions of that frame. *)

Definition correlation (df : DataFrame) : option R :=
  series_corr (map price df) (map points df).

Record group_stats : Type := mk_group {
  group_key : string;
  points_mean : option Q;
  points_var : option Q;   (* the 'std' column is its square root *)
  points_count : nat;
  price_mean : option Q;
  price_median : option Q
}.

Definition group_rows (by_col : wine_row -> option string) (key : string)
  (df : DataFrame) : DataFrame :=
  filter (fun r => str_cell_eqb (by_col r) key) df.

(** [groupby('price_category').agg({'points': ['mean', 'std', 'count'],
    'price': ['mean', 'median']}).round(2)].  The column is categorical:
    one group per category, in category order, rows without a category
    in none; [count] counts the non-missing cells. *)
Definition price_analysis (df : DataFrame) : list group_stats :=
  map (fun key =>
         let g := group_rows price_category key df in
         mk_group key
                  (cell_map round2 (mean (map points g)))
                  (sample_variance (map points g))
                  (length (dropna_cells (map points g)))
                  (cell_map round2 (mean (map price g)))
                  (cell_map round2 (median (map price g))))
      price_labels.

Definition analyze_price_quality_relationship (df : DataFrame)
  : option R * list group_stats :=
  (correlation df, price_analysis df).

(** *** [identify_purchase_trends] *)

Definition sweet_spot (df : DataFrame) : DataFrame :=
  filter (fun r => cell_test (Qle_bool 88) (points r)
                   && cell_test (fun p => Qle_bool p 30) (price r)) df.

Definition premium_wines (df : DataFrame) : DataFrame :=
  filter (fun r => cell_test (Qle_bool 90) (points r)) df.

Definition value_score (r : wine_row) : float_val :=
  float_div (points r) (price r).

Definition best_premium (df : DataFrame) : DataFrame :=
  nlargest 10 value_score (premium_wines df).

(** [value_counts()] of the categorical column lists every category. *)
Definition price_distribution (df : DataFrame) : list (string * nat) :=
  sort_by (fun a b => (snd b <=? snd a)%nat)
          (map (fun key => (key, length (group_rows price_category key df)))
               price_labels).

Definition top_countries (df : DataFrame) : list string :=
  map fst (head 10 (value_counts (map country df))).

Definition country_data (c : string) (df : DataFrame) : DataFrame :=
  filter (fun r => str_cell_eqb (country r) c) df.

(** The loop that fills [correlations]. *)
Fixpoint correlations_loop (cs : list string) (df : DataFrame)
  : list (string * option R * nat) :=
  match cs with
  | [] => []
  | c :: rest =>
      let cd := country_data c df in
      if (50 <? length cd)%nat then
        (c, series_corr (map price cd) (map points cd), length cd)
          :: correlations_loop rest df
      else correlations_loop rest df
  end.

(** Key order of [correlations.sort(key=..., reverse=True)]; nothing
    compares with NaN. *)
Definition corr_geb (a b : option R) : bool :=
  match a, b with
  | Some x, Some y => if Rle_dec y x then true else false
  | _, _ => false
  end.

Definition country_correlations (df : DataFrame)
  : list (string * option R * nat) :=
  sort_by (fun a b => corr_geb (snd (fst a)) (snd (fst b)))
          (correlations_loop (top_countries df) df).

Record trends : Type := mk_trends {
  trends_sweet_spot : DataFrame;
  trends_best_premium : DataFrame;
  trends_price_distribution : list (string * nat);
  trends_country_correlations : list (string * option R * nat)
}.

(** The report divides by [len(self.wine_data)] and slices the title of
    each ranked row. *)
Definition identify_purchase_trends (df : DataFrame) : outcome trends :=
  match df with
  | [] => Raised ZeroDivisionError
  | _ :: _ =>
      if forallb (fun r => is_some (title r)) (best_premium df) then
        Returned (mk_trends (sweet_spot df) (best_premium df)
                            (price_distribution df)
                            (country_correlations df))
      else Raised TypeError
  end.

(** *** [analyze_variety_trends] and [analyze_regional_preferences] *)

(** [round(3)], as [round2]. *)
Definition round3 (x : Q) : Q :=
  let y := x * 1000 in
  let f := Qfloor y in
  let d := y - inject_Z f in
  let r :=
    if Qlt_bool d (1 # 2) then f
    else if Qlt_bool (1 # 2) d then (f + 1)%Z
    else if Z.even f then f else (f + 1)%Z in
  inject_Z r / 1000.

Definition float_round3 (v : float_val) : float_val :=
  match v with
  | Finite q => Finite (round3 q)
  | other => other
  end.

Definition cell_float (c : option Q) : float_val :=
  match c with
  | Some q => Finite q
  | None => NaN
  end.

(** [sort_values(column)]: ascending, NaN rows last. *)
Definition sort_values_asc {A : Type} (key : A -> float_val) (l : list A)
  : list A :=
  sort_by (fun a b => float_geb (key b) (key a))
          (filter (fun r => negb (is_nan (key r))) l)
  ++ filter (fun r => is_nan (key r)) l.

(** [sort_values(column, ascending=False)]: descending, NaN rows last. *)
Definition sort_values_desc {A : Type} (key : A -> float_val) (l : list A)
  : list A :=
  sort_by (fun a b => float_geb (key a) (key b))
          (filter (fun r => negb (is_nan (key r))) l)
  ++ filter (fun r => is_nan (key r)) l.

(** One row of the renamed aggregate table; the index is the group key. *)
Record summary_row : Type := mk_summary {
  summary_key : string;
  Pontuação_Média : option Q;
  Pontuação_Desvio_quadrado : option Q;  (* 'Pontuação_Desvio' squared *)
  Preço_Médio : option Q;
  Preço_Mediano : option Q;
  Quantidade : nat
}.

(** [df[df[col].isin(keys)].groupby(col).agg({'points': ['mean', 'std'],
    'price': ['mean', 'median'], col: 'count'}).round(2)]: one group per
    distinct key present, in increasing key order; the count is that of
    the non-missing cells of the grouping column. *)
Definition groupby_agg (by_col : wine_row -> option string)
  (keys : list string) (df : DataFrame) : list summary_row :=
  let selected := filter (fun r => labelled keys (by_col r)) df in
  map (fun key =>
         let g := group_rows by_col key selected in
         mk_summary key
                    (cell_map round2 (mean (map points g)))
                    (sample_variance (map points g))
                    (cell_map round2 (mean (map price g)))
                    (cell_map round2 (median (map price g)))
                    (length (dropna_cells (map by_col g))))
      (sort_by String.leb (unique (dropna_cells (map by_col selected)))).

Definition top_varieties (df : DataFrame) : list (string * nat) :=
  head 15 (value_counts (map variety df)).

(** [Custo_Benefício]: rounded mean price over rounded mean points. *)
Definition Custo_Benefício (s : summary_row) : float_val :=
  float_round3 (float_div (Preço_Médio s) (Pontuação_Média s)).

Definition analyze_variety_trends (df : DataFrame) : list summary_row :=
  sort_values_asc Custo_Benefício
    (groupby_agg variety (map fst (top_varieties df)) df).

Definition top_countries_15 (df : DataFrame) : list (string * nat) :=
  head 15 (value_counts (map country df)).

Definition analyze_regional_preferences (df : DataFrame) : list summary_row :=
  sort_values_desc (fun s => cell_float (Pontuação_Média s))
    (groupby_agg country (map fst (top_countries_15 df)) df).

(** [list(index).index(x)], when [x in index]. *)
Fixpoint index_of (x : string) (l : list string) : option nat :=
  match l with
  | [] => None
  | y :: t => if String.eqb y x then Some 0%nat
              else option_map S (index_of x t)
  end.

(** [brazil_rank], computed when ['Brazil' in country_analysis.index]. *)
Definition brazil_rank (df : DataFrame) : option nat :=
  option_map S
    (index_of "Brazil" (map summary_key (analyze_regional_preferences df))).

End WineTrendsAnalyzer.

(** ** [wine_export_analysis.py] *)

(** The random source [np.random]: every draw reads and advances a
    generator state.  No law is assumed of the draws. *)
Class RandomState : Type := {
  rng : Type;
  normal : Q -> Q -> rng -> Q * rng;
  uniform : Q -> Q -> rng -> Q * rng;
  randint : Z -> Z -> rng -> Z * rng
}.

Module WineExportAnalyzer.

Section Mock.
Context `{RandomState}.

Definition Rand (A : Type) : Type := rng -> A * rng.

Definition rret {A : Type} (a : A) : Rand A := fun s => (a, s).

Definition rbind {A B : Type} (m : Rand A) (k : A -> Rand B) : Rand B :=
  fun s => let (a, s1) := m s in k a s1.

(** [for x in xs: out.append(body(x))] *)
Fixpoint for_each {A B : Type} (xs : list A) (body : A -> Rand B)
  : Rand (list B) :=
  match xs with
  | [] => rret []
  | x :: rest =>
      rbind (body x) (fun b =>
      rbind (for_each rest body) (fun bs =>
      rret (b :: bs)))
  end.
End Mock.

Notation "x <~ m ;; k" := (rbind m (fun x => k))
  (at level 61, m at next level, right associativity).

Record export_row : Type := mk_export {
  ano : Z;
  pais_destino : string;
  volume_litros : Q;
  valor_usd : Q
}.

Record climate_row : Type := mk_climate {
  climate_ano : Z;
  temperatura_media : Q;
  precipitacao_mm : Q;
  dias_sol : Q
}.

Record demographic_row : Type := mk_demographic {
  demographic_ano : Z;
  populacao_brasil : Z;
  renda_per_capita : Q
}.

Record economic_row : Type := mk_economic {
  economic_ano : Z;
  pib_brasil : Z;
  taxa_cambio_usd_brl : Q;
  inflacao : Q
}.

Record rating_row : Type := mk_rating {
  rating_ano : Z;
  pontuacao_media : Q;
  num_avaliacoes : Z;
  preco_medio_garrafa : Q
}.

Record t : Type := mk {
  export_data : option (list export_row);
  climate_data : option (list climate_row);
  demographic_data : option (list demographic_row);
  economic_data : option (list economic_row);
  wine_ratings : option (list rating_row)
}.

Definition init : t := mk None None None None None.

Definition countries : list string :=
  ["Estados Unidos"; "Reino Unido"; "Alemanha"; "Canadá"; "França";
   "Japão"; "China"; "Argentina"; "Paraguai"; "Uruguai"]%string.

(** [list(range(2009, 2024))] *)
Definition years : list Z := map Z.of_nat (seq 2009 15).

(** [max(0, x)] *)
Definition max0 (x : Q) : Q := if Qlt_bool 0 x then x else 0.

(** Years since 2009, as a float. *)
Definition elapsed (year : Z) : Q := inject_Z (year - 2009).

(** [price_per_liter] of the loop body, from the sampled [base_price]. *)
Definition price_per_liter (year : Z) (base_price : Q) : Q :=
  let price_factor := 1 + elapsed year * (3 # 100) in
  base_price * price_factor.

Section Generate.
Context `{RandomState}.

(** The body of the inner loop of [generate_mock_data]. *)
Definition export_entry (year : Z) (country : string) : Rand export_row :=
  base_volume <~ normal 1000000 200000 ;;
  noise <~ normal 0 (1 # 10) ;;
  let growth_factor := 1 + elapsed year * (5 # 100) + noise in
  let volume := max0 (base_volume * growth_factor) in
  base_price <~ uniform (5 # 2) 8 ;;
  rret (mk_export year country volume
                  (volume * price_per_liter year base_price)).

Definition climate_entry (year : Z) : Rand climate_row :=
  temp <~ normal 25 2 ;;
  rain <~ normal 1200 200 ;;
  sun <~ normal 250 30 ;;
  rret (mk_climate year temp rain sun).

Definition demographic_entry (year : Z) : Rand demographic_row :=
  noise <~ normal 0 500 ;;
  rret (mk_demographic year (200000000 + (year - 2009) * 2000000)%Z
                       (8000 + elapsed year * 200 + noise)).

Definition economic_entry (year : Z) : Rand economic_row :=
  fx <~ uniform (18 # 10) (55 # 10) ;;
  infl <~ uniform 2 12 ;;
  rret (mk_economic year
                    (2000000000000 + (year - 2009) * 50000000000)%Z
                    fx infl).

Definition rating_entry (year : Z) : Rand rating_row :=
  score <~ uniform 82 92 ;;
  n <~ randint 500 2000 ;;
  bottle <~ uniform 15 45 ;;
  rret (mk_rating year score n bottle).

Definition generate_export_data : Rand (list export_row) :=
  per_year <~ for_each years (fun year =>
                for_each countries (export_entry year)) ;;
  rret (concat per_year).

Definition generate_mock_data : Rand t :=
  exports <~ generate_export_data ;;
  climate <~ for_each years climate_entry ;;
  demographic <~ for_each years demographic_entry ;;
  economic <~ for_each years economic_entry ;;
  ratings <~ for_each years rating_entry ;;
  rret (mk (Some exports) (Some climate) (Some demographic)
           (Some economic) (Some ratings)).

Definition key_of (r : export_row) : Z * string :=
  (ano r, pais_destino r).

(** What one pass of the loop body appends for [(year, country)]: the
    state [s0] is the generator before the three draws. *)
Definition drawn_at (year : Z) (country : string) (r : export_row) : Prop :=
  exists s0 : rng,
    let s1 := snd (normal 1000000 200000 s0) in
    let s2 := snd (normal 0 (1 # 10) s1) in
    let base_volume := fst (normal 1000000 200000 s0) in
    let noise := fst (normal 0 (1 # 10) s1) in
    let base_price := fst (uniform (5 # 2) 8 s2) in
    ano r = year /\ pais_destino r = country
    /\ 0 <= volume_litros r
    /\ volume_litros r
       = max0 (base_volume * (1 + elapsed year * (5 # 100) + noise))
    /\ valor_usd r = volume_litros r * price_per_liter year base_price.
End Generate.

(** *** [create_future_projections]

    [analysis_data] as the method reads it: the columns [ano],
    [volume_litros] and [valor_usd] of the yearly frame. *)

Record analysis_row : Type := mk_analysis_row {
  analysis_ano : Z;
  analysis_volume_litros : Q;
  analysis_valor_usd : Q
}.

(** [PolynomialFeatures(degree=2)] on one feature: the row
    [[1, x, x^2]]. *)
Definition PolynomialFeatures (x : Q) : list Q := [1; x; x * x].

(** scikit-learn's [LinearRegression]: [fit] returns the fitted
    estimator, [predict] one prediction per row of its argument.  The
    numerical fit (a least-squares solver in float arithmetic) is the
    library's and is left unspecified. *)
Class LinearRegression : Type := {
  model : Type;
  fit : list (list Q) -> list Q -> model;
  predict : model -> list (list Q) -> list Q;
  predict_length : forall m X, length (predict m X) = length X
}.

(** [range(2024, 2029)] *)
Definition future_years : list Z := map Z.of_nat (seq 2024 5).

(** scikit-learn refuses an array without samples. *)
Definition create_future_projections `{LinearRegression}
  (analysis_data : list analysis_row) : outcome (list Q * list Q) :=
  match analysis_data with
  | [] => Raised ValueError
  | _ :: _ =>
      let X := map (fun r => inject_Z (analysis_ano r)) analysis_data in
      let y_volume := map analysis_volume_litros analysis_data in
      let y_value := map analysis_valor_usd analysis_data in
      let X_poly := map PolynomialFeatures X in
      let model_volume := fit X_poly y_volume in
      let model_value := fit X_poly y_value in
      let future_years_poly :=
        map (fun year => PolynomialFeatures (inject_Z year)) future_years in
      Returned (predict model_volume future_years_poly,
                predict model_value future_years_poly)
  end.


(** *** [create_correlation_analysis] *)

Fixpoint unique_years (l : list Z) : list Z :=
  match l with
  | [] => []
  | x :: t => x :: filter (fun y => negb (Z.eqb x y)) (unique_years t)
  end.

Definition year_rows (year : Z) (rows : list export_row) : list export_row :=
  filter (fun r => Z.eqb (ano r) year) rows.

(** [groupby('ano').agg({'volume_litros': 'sum', 'valor_usd': 'sum'})
    .reset_index()]: one row per year present, years increasing. *)
Definition yearly_export (rows : list export_row) : list analysis_row :=
  map (fun year =>
         mk_analysis_row year
                         (sum_over volume_litros (year_rows year rows))
                         (sum_over valor_usd (year_rows year rows)))
      (sort_by Z.leb (unique_years (map ano rows))).

(** [left.merge(right, on='ano')]: inner join, left order kept. *)
Definition merge {A B : Type} (left_key : A -> Z) (right_key : B -> Z)
  (left : list A) (right : list B) : list (A * B) :=
  flat_map (fun a =>
              map (pair a) (filter (fun b => Z.eqb (right_key b) (left_key a))
                                   right))
           left.

(** A row of [analysis_data]: the yearly export columns with the climate,
    economic and rating columns of the same year. *)
Definition merged_row : Type :=
  analysis_row * climate_row * economic_row * rating_row.

Definition yearly_part (m : merged_row) : analysis_row := fst (fst (fst m)).

(** The frame [create_correlation_analysis] returns (the heat map it
    draws on the way is not modelled).  A frame that was never generated
    is [None]: [None.groupby] is an [AttributeError], merging with [None]
    a [TypeError]. *)
Definition create_correlation_analysis (self : t) : outcome (list merged_row) :=
  match export_data self with
  | None => Raised AttributeError
  | Some exports =>
      match climate_data self, economic_data self, wine_ratings self with
      | Some climate, Some economic, Some ratings =>
          let analysis_data :=
            merge analysis_ano climate_ano (yearly_export exports) climate in
          let analysis_data :=
            merge (fun m => analysis_ano (fst m)) economic_ano
                  analysis_data economic in
          let analysis_data :=
            merge (fun m => analysis_ano (fst (fst m))) rating_ano
                  analysis_data ratings in
          Returned analysis_data
      | _, _, _ => Raised TypeError
      end
  end.

(** *** [generate_executive_summary]

    The market ranking it prints. *)

Definition country_rows (c : string) (rows : list export_row)
  : list export_row :=
  filter (fun r => String.eqb (pais_destino r) c) rows.

(** [groupby('pais_destino')['valor_usd'].sum()
    .sort_values(ascending=False).head(5)] *)
Definition top_markets (rows : list export_row) : list (string * Q) :=
  head 5
    (sort_by (fun a b => Qle_bool (snd b) (snd a))
       (map (fun c => (c, sum_over valor_usd (country_rows c rows)))
            (sort_by String.leb (unique (map pais_destino rows))))).

End WineExportAnalyzer.

(** * Properties *)

(** ** Comparisons *)

Lemma Qlt_bool_iff (x y : Q) : Qlt_bool x y = true <-> x < y.
Proof.
  unfold Qlt_bool. rewrite negb_true_iff.
  split; intro H.
  - apply Qnot_le_lt. intro Hle. apply Qle_bool_iff in Hle. congruence.
  - destruct (Qle_bool y x) eqn:E; [|reflexivity].
    apply Qle_bool_iff in E. exfalso. apply (Qlt_not_le _ _ H E).
Qed.

Lemma Qlt_bool_false (x y : Q) : Qlt_bool x y = false <-> y <= x.
Proof.
  unfold Qlt_bool. rewrite negb_false_iff. apply Qle_bool_iff.
Qed.

Lemma Qle_bool_false (x y : Q) : Qle_bool x y = false <-> y < x.
Proof.
  rewrite <- Qlt_bool_iff. unfold Qlt_bool.
  destruct (Qle_bool x y); simpl; intuition congruence.
Qed.

Lemma Qeq_bool_false (x y : Q) : Qeq_bool x y = false <-> ~ x == y.
Proof.
  split.
  - intros E H. apply Qeq_bool_iff in H. congruence.
  - intro H. destruct (Qeq_bool x y) eqn:E; [|reflexivity].
    apply Qeq_bool_iff in E. contradiction.
Qed.

(** Turns the boolean comparisons in the context into propositions. *)
Ltac reflect_cmp :=
  repeat match goal with
    | H : Qlt_bool _ _ = true |- _ => apply Qlt_bool_iff in H
    | H : Qlt_bool _ _ = false |- _ => apply Qlt_bool_false in H
    | H : Qle_bool _ _ = true |- _ => apply Qle_bool_iff in H
    | H : Qle_bool _ _ = false |- _ => apply Qle_bool_false in H
    | H : Qeq_bool _ _ = true |- _ => apply Qeq_bool_iff in H
    | H : Qeq_bool _ _ = false |- _ => apply Qeq_bool_false in H
    end.

(** ** Bucketing *)

Example price_bins_increasing : increasing price_bins.
Proof. simpl. repeat split; reflexivity. Qed.

Example rating_bins_increasing : increasing rating_bins.
Proof. simpl. repeat split; reflexivity. Qed.

Lemma edge_ltb_iff (e : edge) (x : Q) : edge_ltb e x = true <-> edge_lt e x.
Proof.
  destruct e; cbn.
  - apply Qlt_bool_iff.
  - split; [discriminate | tauto].
Qed.

Lemma not_edge_lt (e : edge) (x : Q) : ~ edge_lt e x <-> le_edge x e.
Proof.
  destruct e; cbn; [|tauto]. split; intro H; lra.
Qed.

Lemma edge_above (x : Q) (a b : edge) :
  le_edge x a -> edge_lt_edge a b -> le_edge x b.
Proof.
  destruct a, b; cbn; try tauto. intros. lra.
Qed.

Lemma edge_lt_edge_trans (a b c : edge) :
  edge_lt_edge a b -> edge_lt_edge b c -> edge_lt_edge a c.
Proof.
  destruct a, b, c; cbn; try tauto. intros. lra.
Qed.

Lemma increasing_tail (a : edge) (bs : list edge) :
  increasing (a :: bs) -> increasing bs /\ Forall (edge_lt_edge a) bs.
Proof.
  revert a. induction bs as [|b bs IH]; intros a Hinc.
  - split; constructor.
  - destruct Hinc as [Hab Hbs]. split; [exact Hbs|].
    constructor; [exact Hab|].
    destruct (IH b Hbs) as [_ Hall].
    eapply Forall_impl; [|exact Hall].
    intros c Hc. eapply edge_lt_edge_trans; eassumption.
Qed.

Lemma searchsorted_left_le (bins : list edge) (x : Q) :
  (searchsorted_left bins x <= length bins)%nat.
Proof.
  induction bins as [|b bs IH]; cbn; [lia|].
  destruct (edge_ltb b x); lia.
Qed.

(** On increasing bins [searchsorted_left] is the number of edges below
    the value. *)
Lemma searchsorted_left_spec (bins : list edge) (x : Q) :
  increasing bins ->
  forall i, (i < length bins)%nat ->
    (edge_lt (nth i bins Inf) x <-> (i < searchsorted_left bins x)%nat).
Proof.
  induction bins as [|b bs IH]; intros Hinc i Hi; [cbn in Hi; lia|].
  destruct (increasing_tail _ _ Hinc) as [Hbs Hall].
  cbn [searchsorted_left]. destruct (edge_ltb b x) eqn:E.
  - apply edge_ltb_iff in E. destruct i as [|j]; cbn [nth].
    + split; [lia | tauto].
    + cbn in Hi. rewrite (IH Hbs j) by lia. lia.
  - assert (Hle : le_edge x b).
    { apply not_edge_lt. intro H. apply edge_ltb_iff in H. congruence. }
    split; [|lia]. intro Hlt. exfalso.
    destruct i as [|j]; cbn [nth] in Hlt.
    + now apply not_edge_lt in Hle.
    + rewrite Forall_forall in Hall. cbn in Hi.
      assert (Hin : In (nth j bs Inf) bs) by (apply nth_In; lia).
      pose proof (edge_above _ _ _ Hle (Hall _ Hin)) as Hx.
      now apply not_edge_lt in Hx.
Qed.

(** The bucketizer in general: on increasing bins a value gets the label
    of index [i] exactly when it lies in the interval
    (bins[i], bins[i+1]], open on the left and closed on the right. *)
Lemma cut_interval (bins : list edge) (labels : list string) (x : Q)
  (l : string) :
  increasing bins ->
  (cut bins labels x = Some l
   <-> exists i, nth_error labels i = Some l
                 /\ (S i < length bins)%nat
                 /\ edge_lt (nth i bins Inf) x
                 /\ le_edge x (nth (S i) bins Inf)).
Proof.
  intro Hinc. unfold cut.
  pose proof (searchsorted_left_le bins x) as Hle.
  pose proof (searchsorted_left_spec bins x Hinc) as Hspec.
  set (ids := searchsorted_left bins x) in *.
  destruct (ids =? 0)%nat eqn:E0; cbn [orb].
  - apply Nat.eqb_eq in E0. split; [discriminate|].
    intros (i & _ & Hi & Hlt & _). apply Hspec in Hlt; lia.
  - apply Nat.eqb_neq in E0.
    destruct (ids =? length bins)%nat eqn:En.
    + apply Nat.eqb_eq in En. split; [discriminate|].
      intros (i & _ & Hi & _ & Hge). apply not_edge_lt in Hge.
      rewrite Hspec in Hge by lia. lia.
    + apply Nat.eqb_neq in En. split.
      * intro Hl. exists (ids - 1)%nat.
        replace (S (ids - 1)) with ids by lia.
        repeat split; [exact Hl | lia | apply Hspec; lia |].
        apply not_edge_lt. rewrite Hspec by lia. lia.
      * intros (i & Hl & Hi & Hlt & Hge).
        apply Hspec in Hlt; [|lia]. apply not_edge_lt in Hge.
        rewrite Hspec in Hge by lia.
        replace (ids - 1)%nat with i by lia. exact Hl.
Qed.

(** C1, as stated, fails: [pd.cut] closes its intervals on the right, so
    the boundary value 15 falls in the interval that ends at 15.  With
    bins [0, 15, 30] and labels low, mid the value 15 gets "low", not
    "mid"; with the price bins it gets the first label, not the second. *)
Lemma cut_boundary_counterexample :
  cut [Fin 0; Fin 15; Fin 30] ["low"; "mid"]%string 15 <> Some "mid"%string
  /\ cut [Fin 0; Fin 15; Fin 30] ["low"; "mid"]%string 15 = Some "low"%string
  /\ price_category_of 15 <> Some "Médio ($15-30)"%string.
Proof.
  repeat split; try reflexivity; vm_compute; discriminate.
Qed.

(** C1 (amended): the price bucketizer sends every value above 0 to
    exactly one label, that of the interval (lo, hi] containing it: it is
    open on the left and closed on the right, so an interior boundary
    belongs to the interval it ends, and 0 and anything below get no
    label.  For bins [0, 15, 30] and labels low, mid both 15 and 14.999
    map to "low". *)
Theorem price_category_right_closed (x : Q) :
  (price_category_of x = None <-> x <= 0)
  /\ (price_category_of x = Some "Econômico (<$15)"%string
      <-> 0 < x /\ x <= 15)
  /\ (price_category_of x = Some "Médio ($15-30)"%string
      <-> 15 < x /\ x <= 30)
  /\ (price_category_of x = Some "Premium ($30-50)"%string
      <-> 30 < x /\ x <= 50)
  /\ (price_category_of x = Some "Super Premium ($50-100)"%string
      <-> 50 < x /\ x <= 100)
  /\ (price_category_of x = Some "Ultra Premium (>$100)"%string
      <-> 100 < x)
  /\ cut [Fin 0; Fin 15; Fin 30] ["low"; "mid"]%string 15
     = Some "low"%string
  /\ cut [Fin 0; Fin 15; Fin 30] ["low"; "mid"]%string (14999 # 1000)
     = Some "low"%string.
Proof.
  unfold price_category_of, cut, price_bins, price_labels.
  cbn [searchsorted_left edge_ltb length].
  destruct (Qlt_bool 0 x) eqn:E0;
    [destruct (Qlt_bool 15 x) eqn:E1;
     [destruct (Qlt_bool 30 x) eqn:E2;
      [destruct (Qlt_bool 50 x) eqn:E3;
       [destruct (Qlt_bool 100 x) eqn:E4|]|]|]|];
    reflect_cmp; cbn;
    repeat split; intros; try discriminate; try reflexivity;
    repeat match goal with H : _ /\ _ |- _ => destruct H end;
    try lra.
Qed.

(** ** Loading *)

(** C7: whatever the file system answers for the path, the loader
    returns without raising: either the whole frame [pd.read_csv]
    produced, stored in the object and reported with its row count, or,
    when reading raised, [None] after printing the diagnostic, the object
    untouched.  The spreadsheet loader behaves the same way. *)
Theorem load_returns_frame_or_none (FS : FileSystem) (self : DataProcessor.t) :
  match read_csv (DataProcessor.join (DataProcessor.data_path self)
                                     DataProcessor.reviews_file) with
  | Returned df =>
      DataProcessor.load_wine_reviews self
      = (Returned (Some df),
         DataProcessor.mk (DataProcessor.data_path self) (Some df)
                          (DataProcessor.embrapa_data self),
         [ReviewsLoaded (length df)])
  | Raised e =>
      DataProcessor.load_wine_reviews self
      = (Returned None, self, [ReviewsError e])
  end
  /\
  match read_excel (DataProcessor.join (DataProcessor.data_path self)
                                       DataProcessor.embrapa_file) with
  | Returned sheet =>
      DataProcessor.load_embrapa_data self
      = (Returned (Some sheet),
         DataProcessor.mk (DataProcessor.data_path self)
                          (DataProcessor.wine_reviews self) (Some sheet),
         [EmbrapaLoaded (length sheet)])
  | Raised e =>
      DataProcessor.load_embrapa_data self
      = (Returned None, self, [EmbrapaError e])
  end.
Proof.
  unfold DataProcessor.load_wine_reviews, DataProcessor.load_embrapa_data,
    try_except, bind, call, get, put, print, ret.
  split.
  - destruct (read_csv _); reflexivity.
  - destruct (read_excel _); reflexivity.
Qed.

(** The trends analyzer's loader follows the same discipline with a
    boolean: [True] after storing and cleaning the frame, [False] after
    printing the diagnostic. *)
Lemma load_data_returns_flag (FS : FileSystem) (self : WineTrendsAnalyzer.t) :
  match read_csv WineTrendsAnalyzer.reviews_file with
  | Returned df =>
      exists self' out,
        WineTrendsAnalyzer.load_data self = (Returned true, self', out)
        /\ WineTrendsAnalyzer.wine_data self'
           = Some (WineTrendsAnalyzer.clean df)
  | Raised e =>
      WineTrendsAnalyzer.load_data self = (Returned false, self, [LoadError e])
  end.
Proof.
  unfold WineTrendsAnalyzer.load_data, WineTrendsAnalyzer.clean_data,
    try_except, bind, call, get, put, print, ret.
  destruct (read_csv _); [|reflexivity].
  do 2 eexists. split; reflexivity.
Qed.

(** ** The Brazil summary *)

(** C8: on a frame holding exactly the rows (Brazil, 88 points, price 20)
    and (Brazil, 92 points, price 45), whatever their variety and title,
    the analysis returns 2 reviews, mean points 90 and mean price 32.5. *)
Theorem brazil_two_rows_summary (FS : FileSystem) (dir v1 t1 v2 t2 : string)
  (sheet : option Sheet) :
  let frame := [review "Brazil" 88 20 v1 t1; review "Brazil" 92 45 v2 t2] in
  let self := DataProcessor.mk dir (Some frame) sheet in
  exists a p q,
    DataProcessor.analyze_wine_reviews self = (Returned (Some a), self, [])
    /\ DataProcessor.total_reviews a = 2%nat
    /\ DataProcessor.avg_points a = Some p /\ p == 90
    /\ DataProcessor.avg_price a = Some q /\ q == 65 # 2.
Proof.
  intros frame self.
  exists (DataProcessor.analyze frame).
  exists (mean_values [88; 92]), (mean_values [20; 45]).
  repeat split.
Qed.

(** ** The mock export panel *)

Section MockProperties.
Context `{RandomState}.
Import WineExportAnalyzer.

Lemma max0_nonneg (x : Q) : 0 <= max0 x.
Proof.
  unfold max0. destruct (Qlt_bool 0 x) eqn:E; reflect_cmp; lra.
Qed.

Lemma export_entry_drawn (year : Z) (country : string) (s : rng) :
  drawn_at year country (fst (export_entry year country s)).
Proof.
  exists s. unfold export_entry, rbind, rret.
  destruct (normal 1000000 200000 s) as [bv s1]; cbn [fst snd].
  destruct (normal 0 (1 # 10) s1) as [g s2]; cbn [fst snd].
  destruct (uniform (5 # 2) 8 s2) as [bp s3]; cbn [fst snd].
  cbn. repeat (split; [reflexivity|]). split; [apply max0_nonneg|].
  split; reflexivity.
Qed.

Lemma for_each_Forall2 {A B : Type} (P : A -> B -> Prop)
  (body : A -> Rand B) :
  (forall x s, P x (fst (body x s))) ->
  forall xs s, Forall2 P xs (fst (for_each xs body s)).
Proof.
  intros HP xs. induction xs as [|x rest IH]; intro s; cbn.
  - constructor.
  - unfold rbind, rret. specialize (HP x s).
    destruct (body x s) as [b s1]. specialize (IH s1).
    destruct (for_each rest body s1) as [bs s2].
    cbn in *. constructor; assumption.
Qed.

Lemma year_block (year : Z) (cs : list string) (rows : list export_row) :
  Forall2 (drawn_at year) cs rows ->
  map key_of rows = map (pair year) cs
  /\ Forall (fun r => drawn_at (ano r) (pais_destino r) r) rows.
Proof.
  induction 1 as [|c r cs rows Hd _ [IHk IHd]]; cbn.
  - split; constructor.
  - pose proof Hd as [s0 (Ha & Hp & _)]. split.
    + unfold key_of at 1. rewrite Ha, Hp, IHk. reflexivity.
    + constructor; [|exact IHd]. rewrite Ha, Hp. exact Hd.
Qed.

Lemma export_blocks (ys : list Z) (blocks : list (list export_row)) :
  Forall2 (fun year rows => Forall2 (drawn_at year) countries rows)
          ys blocks ->
  map key_of (concat blocks) = list_prod ys countries
  /\ Forall (fun r => drawn_at (ano r) (pais_destino r) r) (concat blocks).
Proof.
  induction 1 as [|year rows ys blocks Hrow _ IH]; cbn.
  - split; constructor.
  - destruct (year_block _ _ _ Hrow) as [Hk Hd].
    destruct IH as [IHk IHd]. split.
    + rewrite map_app, Hk, IHk. reflexivity.
    + apply Forall_app. split; assumption.
Qed.

Lemma generate_export_data_spec (s : rng) :
  let rows := fst (generate_export_data s) in
  map key_of rows = list_prod years countries
  /\ Forall (fun r => drawn_at (ano r) (pais_destino r) r) rows.
Proof.
  unfold generate_export_data, rbind, rret.
  pose proof (for_each_Forall2
                (fun year rows => Forall2 (drawn_at year) countries rows)
                (fun year => for_each countries (export_entry year))) as HF.
  specialize (HF (fun year s' =>
                    for_each_Forall2 (drawn_at year) (export_entry year)
                      (export_entry_drawn year) countries s') years s).
  destruct (for_each years _ s) as [blocks s1]. cbn [fst] in *.
  exact (export_blocks years blocks HF).
Qed.

Lemma generate_mock_data_exports (s : rng) :
  export_data (fst (generate_mock_data s))
  = Some (fst (generate_export_data s)).
Proof.
  unfold generate_mock_data, rbind, rret.
  destruct (generate_export_data s) as [rows s1].
  destruct (for_each years climate_entry s1) as [c s2].
  destruct (for_each years demographic_entry s2) as [d s3].
  destruct (for_each years economic_entry s3) as [e s4].
  destruct (for_each years rating_entry s4) as [r s5].
  reflexivity.
Qed.
End MockProperties.

Lemma NoDup_list_prod {A B : Type} (l : list A) (l' : list B) :
  NoDup l -> NoDup l' -> NoDup (list_prod l l').
Proof.
  intros Hl Hl'. induction Hl as [|a l Ha _ IH]; cbn.
  - constructor.
  - apply NoDup_app. repeat split.
    + clear -Hl'. induction Hl' as [|b l' Hb _ IH']; cbn; constructor; auto.
      rewrite in_map_iff. intros [b' [E Hin]]. congruence.
    + exact IH.
    + intros [a' b'] Hin1 Hin2. apply in_map_iff in Hin1 as [b0 [E _]].
      apply in_prod_iff in Hin2 as [Hin2 _]. congruence.
Qed.

Lemma countries_NoDup : NoDup WineExportAnalyzer.countries.
Proof.
  unfold WineExportAnalyzer.countries.
  repeat (constructor; [cbn; intuition discriminate|]). constructor.
Qed.

Lemma years_NoDup : NoDup WineExportAnalyzer.years.
Proof.
  unfold WineExportAnalyzer.years.
  apply Finite.Injective_map_NoDup; [|apply seq_NoDup].
  intros a b. apply Nat2Z.inj.
Qed.

(** C10: whatever the random source draws, the export frame of the
    generated mock data has its rows keyed, in order, by the pairs of the
    years 2009..2023 with the ten destination countries, each pair once
    (150 rows); every row has a volume that is not negative, being
    [max(0, .)] of the sampled volume, and a value equal to that volume
    times the price per litre computed from the price the uniform draw of
    that row returned. *)
Theorem mock_export_panel (RS : RandomState) (s : rng) :
  exists rows,
    WineExportAnalyzer.export_data (fst (WineExportAnalyzer.generate_mock_data s))
    = Some rows
    /\ map WineExportAnalyzer.key_of rows
       = list_prod WineExportAnalyzer.years WineExportAnalyzer.countries
    /\ NoDup (map WineExportAnalyzer.key_of rows)
    /\ length rows = 150%nat
    /\ WineExportAnalyzer.years
       = [2009; 2010; 2011; 2012; 2013; 2014; 2015; 2016; 2017; 2018; 2019;
          2020; 2021; 2022; 2023]%Z
    /\ length WineExportAnalyzer.countries = 10%nat
    /\ Forall (fun r => 0 <= WineExportAnalyzer.volume_litros r) rows
    /\ Forall (fun r => WineExportAnalyzer.drawn_at
                          (WineExportAnalyzer.ano r)
                          (WineExportAnalyzer.pais_destino r) r) rows.
Proof.
  exists (fst (WineExportAnalyzer.generate_export_data s)).
  destruct (generate_export_data_spec s) as [Hk Hd].
  split; [apply generate_mock_data_exports|].
  split; [exact Hk|].
  split; [rewrite Hk; apply NoDup_list_prod;
          [apply years_NoDup | apply countries_NoDup]|].
  split; [rewrite <- (length_map WineExportAnalyzer.key_of), Hk; reflexivity|].
  split; [reflexivity|]. split; [reflexivity|].
  split; [|exact Hd].
  eapply Forall_impl; [|exact Hd].
  intros r [s0 (_ & _ & Hv & _)]. exact Hv.
Qed.

(** ** Sorting *)

Section SortingFacts.
Context {A : Type} (leb : A -> A -> bool).

Lemma insert_by_perm (x : A) (l : list A) :
  Permutation (insert_by leb x l) (x :: l).
Proof.
  induction l as [|y t IH]; cbn.
  - reflexivity.
  - destruct (leb x y).
    + reflexivity.
    + rewrite IH. apply perm_swap.
Qed.

Lemma sort_by_perm (l : list A) : Permutation (sort_by leb l) l.
Proof.
  induction l as [|x t IH]; cbn.
  - reflexivity.
  - rewrite insert_by_perm. now constructor.
Qed.

Lemma sort_by_In (x : A) (l : list A) : In x (sort_by leb l) <-> In x l.
Proof.
  split; apply Permutation_in;
    [apply sort_by_perm | symmetry; apply sort_by_perm].
Qed.

Lemma sort_by_length (l : list A) : length (sort_by leb l) = length l.
Proof. apply Permutation_length, sort_by_perm. Qed.
End SortingFacts.

(** ** The premium ranking *)

Lemma head_In {A : Type} (n : nat) (l : list A) (x : A) :
  In x (head n l) -> In x l.
Proof.
  unfold head. intro Hin. rewrite <- (firstn_skipn n l).
  apply in_or_app. now left.
Qed.

Lemma nlargest_In {A : Type} (n : nat) (key : A -> float_val) (l : list A)
  (x : A) : In x (nlargest n key l) -> In x l.
Proof.
  unfold nlargest. intro Hin. apply head_In in Hin.
  apply in_app_or in Hin as [Hin|Hin].
  - apply sort_by_In in Hin. now apply filter_In in Hin.
  - now apply filter_In in Hin.
Qed.

Lemma value_score_zero_price (r : wine_row) (p : Q) :
  cell_test (Qle_bool 90) (points r) = true ->
  price r = Some p -> p == 0 ->
  WineTrendsAnalyzer.value_score r = PosInf.
Proof.
  unfold WineTrendsAnalyzer.value_score, float_div, cell_test.
  destruct (points r) as [x|]; [|discriminate].
  intros Hx -> Hp. apply Qeq_bool_iff in Hp. rewrite Hp.
  reflect_cmp. destruct (Qlt_bool 0 x) eqn:E; [reflexivity|].
  reflect_cmp. lra.
Qed.

(** C2, as stated, fails: the ranking has no guard on the denominator.
    A frame with the single review (90 points, price 0) survives
    cleaning, and the method returns it ranked with the ratio [inf]. *)
Lemma zero_price_is_ranked :
  let df := WineTrendsAnalyzer.clean
              [review "Brazil" 90 0 "Merlot" "Reserva"] in
  exists t r,
    WineTrendsAnalyzer.identify_purchase_trends df = Returned t
    /\ In r (WineTrendsAnalyzer.trends_best_premium t)
    /\ price r = Some 0
    /\ WineTrendsAnalyzer.value_score r = PosInf.
Proof.
  cbv zeta.
  eexists _, _. split; [reflexivity|].
  split; [left; reflexivity|]. split; reflexivity.
Qed.

Lemma filter_lengths {A : Type} (f : A -> bool) (l : list A) :
  (length (filter (fun x => negb (f x)) l) + length (filter f l))%nat
  = length l.
Proof.
  induction l as [|a l IH]; cbn [filter]; [reflexivity|].
  destruct (f a); cbn [negb length]; lia.
Qed.

(** With no more than [n] rows, [nlargest(n, ...)] returns them all. *)
Lemma nlargest_keeps_all {A : Type} (n : nat) (key : A -> float_val)
  (l : list A) (x : A) :
  (length l <= n)%nat -> In x l -> In x (nlargest n key l).
Proof.
  intros Hlen Hin. unfold nlargest, head. rewrite firstn_all2.
  - apply in_or_app. destruct (is_nan (key x)) eqn:E.
    + right. apply filter_In. now split.
    + left. apply sort_by_In. apply filter_In. split; [exact Hin|].
      now rewrite E.
  - rewrite length_app, sort_by_length.
    rewrite (filter_lengths (fun r => is_nan (key r)) l). exact Hlen.
Qed.

(** C2 (amended): the ranking excludes no row for its price.  On the
    cleaned frame every row rated 90 or more is a candidate, whatever
    its price; a candidate with price zero is scored an infinite ratio;
    the ranked rows are candidates, and with ten candidates or fewer
    every candidate, the zero-priced ones included, is ranked. *)
Theorem zero_price_rows_are_candidates (raw : DataFrame) :
  let df := WineTrendsAnalyzer.clean raw in
  let premium := WineTrendsAnalyzer.premium_wines df in
  let best := WineTrendsAnalyzer.best_premium df in
  (forall r, In r premium
             <-> In r df /\ cell_test (Qle_bool 90) (points r) = true)
  /\ (forall r p, In r premium -> price r = Some p -> p == 0 ->
        is_inf (WineTrendsAnalyzer.value_score r) = true)
  /\ (forall r, In r best -> In r premium)
  /\ ((length premium <= 10)%nat -> forall r, In r premium -> In r best).
Proof.
  intros df premium best.
  split.
  { intro r. unfold premium, WineTrendsAnalyzer.premium_wines.
    apply filter_In. }
  split.
  { intros r p Hr Hp Hz.
    unfold premium, WineTrendsAnalyzer.premium_wines in Hr.
    apply filter_In in Hr as [_ Hpts].
    now rewrite (value_score_zero_price r p Hpts Hp Hz). }
  split.
  { intros r Hr. unfold best, WineTrendsAnalyzer.best_premium in Hr.
    now apply nlargest_In in Hr. }
  intros Hlen r Hr. unfold best, WineTrendsAnalyzer.best_premium.
  now apply nlargest_keeps_all.
Qed.

(** ** Correlations per country *)

Lemma correlations_loop_countries (cs : list string) (df : DataFrame)
  (c : string) :
  In c (map (fun e => fst (fst e))
            (WineTrendsAnalyzer.correlations_loop cs df))
  <-> In c cs
      /\ (50 < length (WineTrendsAnalyzer.country_data c df))%nat.
Proof.
  induction cs as [|c0 rest IH]; cbn [WineTrendsAnalyzer.correlations_loop].
  - cbn. tauto.
  - destruct (50 <? length (WineTrendsAnalyzer.country_data c0 df))%nat eqn:E.
    + apply Nat.ltb_lt in E. cbn [map In fst]. rewrite IH. split.
      * intros [->|[Hin Hlt]]; auto.
      * intros [[->|Hin] Hlt]; auto.
    + apply Nat.ltb_ge in E. cbn [In]. rewrite IH. split.
      * intros [Hin Hlt]. auto.
      * intros [[->|Hin] Hlt]; [lia | auto].
Qed.

Lemma correlations_loop_entry (cs : list string) (df : DataFrame)
  (e : string * option R * nat) :
  In e (WineTrendsAnalyzer.correlations_loop cs df) ->
  let cd := WineTrendsAnalyzer.country_data (fst (fst e)) df in
  snd (fst e) = series_corr (map price cd) (map points cd)
  /\ snd e = length cd.
Proof.
  induction cs as [|c0 rest IH]; cbn [WineTrendsAnalyzer.correlations_loop].
  - intros [].
  - destruct (50 <? length (WineTrendsAnalyzer.country_data c0 df))%nat.
    + intros [<-|Hin]; [cbn [fst snd]; auto | now apply IH].
    + exact IH.
Qed.

Lemma country_correlations_countries (df : DataFrame) (c : string) :
  In c (map (fun e => fst (fst e))
            (WineTrendsAnalyzer.country_correlations df))
  <-> In c (WineTrendsAnalyzer.top_countries df)
      /\ (50 < length (WineTrendsAnalyzer.country_data c df))%nat.
Proof.
  rewrite <- correlations_loop_countries.
  unfold WineTrendsAnalyzer.country_correlations.
  split; intro Hin; apply in_map_iff in Hin as [e [Ee Hin]];
    apply in_map_iff; exists e; (split; [exact Ee|]).
  - now apply sort_by_In in Hin.
  - now apply sort_by_In.
Qed.

(** A frame for the second half of the counterexample below: ten
    countries with 52 reviews each and an eleventh with 51. *)
Definition eleven_countries : DataFrame :=
  flat_map (fun c => repeat (review c 90 20 "Merlot" "Reserva") 52)
           ["US"; "France"; "Italy"; "Spain"; "Portugal"; "Chile";
            "Argentina"; "Austria"; "Australia"; "Germany"]%string
  ++ repeat (review "Uruguay" 90 20 "Tannat" "Reserva") 51.

Lemma eleventh_country_skipped :
  ~ In "Uruguay"%string
       (map (fun e => fst (fst e))
            (WineTrendsAnalyzer.country_correlations
               (WineTrendsAnalyzer.clean eleven_countries))).
Proof.
  intro Hin.
  pose proof (proj1 (country_correlations_countries
                       (WineTrendsAnalyzer.clean eleven_countries)
                       "Uruguay"%string)) as Htop.
  apply Htop in Hin. destruct Hin as [Hin _].
  vm_compute in Hin.
  repeat (destruct Hin as [Hin|Hin]; [discriminate|]).
  exact Hin.
Qed.

(** C3, as stated, fails: the guard is [len(country_data) > 50], and the
    loop only visits the ten most frequent countries.  A cleaned frame of
    50 reviews of one country has a subgroup of 50 rows, which is at
    least 50, and no correlation is computed for it; and in a frame with
    eleven countries the eleventh, with 51 rows, gets none either. *)
Lemma correlation_guard_counterexample :
  (let df := WineTrendsAnalyzer.clean
               (repeat (review "Brazil" 90 20 "Merlot" "Reserva") 50) in
   length (WineTrendsAnalyzer.country_data "Brazil" df) = 50%nat
   /\ WineTrendsAnalyzer.top_countries df = ["Brazil"%string]
   /\ WineTrendsAnalyzer.country_correlations df = []
   /\ exists t,
        WineTrendsAnalyzer.identify_purchase_trends df = Returned t
        /\ WineTrendsAnalyzer.trends_country_correlations t = [])
  /\ (let df := WineTrendsAnalyzer.clean eleven_countries in
      length (WineTrendsAnalyzer.country_data "Uruguay" df) = 51%nat
      /\ ~ In "Uruguay"%string
             (map (fun e => fst (fst e))
                  (WineTrendsAnalyzer.country_correlations df))).
Proof.
  split; cbv zeta.
  - assert (E : WineTrendsAnalyzer.clean
                  (repeat (review "Brazil" 90 20 "Merlot" "Reserva") 50)
                = repeat (mk_wine (Some "Brazil"%string) (Some 90) (Some 20)
                                  (Some "Merlot"%string)
                                  (Some "Reserva"%string)
                                  (Some "Médio ($15-30)"%string)
                                  (Some "Muito Bom (88-90)"%string)) 50).
    { vm_compute. reflexivity. }
    rewrite E.
    repeat split; try reflexivity.
    eexists. split; reflexivity.
  - split; [vm_compute; reflexivity | exact eleventh_country_skipped].
Qed.

(** C3 (amended): a price/points correlation is computed for exactly the
    countries that are among the ten most frequent of the frame and have
    more than 50 rows; each entry carries the Pearson correlation and
    the row count of that country's rows.  Countries with 50 rows or
    fewer, or outside the ten most frequent, are skipped. *)
Theorem correlations_for_top_countries_over_50 (df : DataFrame) (c : string) :
  (In c (map (fun e => fst (fst e))
             (WineTrendsAnalyzer.country_correlations df))
   <-> In c (WineTrendsAnalyzer.top_countries df)
       /\ (50 < length (WineTrendsAnalyzer.country_data c df))%nat)
  /\ (length (WineTrendsAnalyzer.top_countries df) <= 10)%nat
  /\ forall e, In e (WineTrendsAnalyzer.country_correlations df) ->
       let cd := WineTrendsAnalyzer.country_data (fst (fst e)) df in
       snd (fst e) = series_corr (map price cd) (map points cd)
       /\ snd e = length cd.
Proof.
  split; [apply country_correlations_countries|split].
  - unfold WineTrendsAnalyzer.top_countries, head.
    rewrite length_map. apply firstn_le_length.
  - intros e He. unfold WineTrendsAnalyzer.country_correlations in He.
    apply sort_by_In in He. now apply correlations_loop_entry in He.
Qed.

(** ** Group-by counts *)

Lemma list_sum_cons (a : nat) (l : list nat) :
  list_sum (a :: l) = (a + list_sum l)%nat.
Proof. reflexivity. Qed.

Lemma list_sum_map_add {A : Type} (f g : A -> nat) (l : list A) :
  list_sum (map (fun a => f a + g a)%nat l)
  = (list_sum (map f l) + list_sum (map g l))%nat.
Proof.
  unfold list_sum. induction l as [|a l IH]; cbn [map fold_right].
  - reflexivity.
  - rewrite IH. lia.
Qed.

Lemma existsb_eqb_In (l : string) (labels : list string) :
  existsb (String.eqb l) labels = true <-> In l labels.
Proof.
  rewrite existsb_exists. split.
  - intros [k [Hin E]]. apply String.eqb_eq in E. now subst.
  - intro Hin. exists l. split; [exact Hin | apply String.eqb_refl].
Qed.

(** A cell is counted by exactly one of pairwise distinct keys. *)
Lemma indicator_sum (labels : list string) (c : option string) :
  NoDup labels ->
  list_sum (map (fun k => if str_cell_eqb c k then 1 else 0)%nat labels)
  = if labelled labels c then 1%nat else 0%nat.
Proof.
  destruct c as [l|]; cbn [str_cell_eqb labelled].
  - induction 1 as [|k labels Hk _ IH]; cbn [map existsb];
      [reflexivity|].
    rewrite list_sum_cons, IH. destruct (String.eqb l k) eqn:E; cbn [orb].
    + apply String.eqb_eq in E. subst k.
      destruct (existsb (String.eqb l) labels) eqn:Ex; [|reflexivity].
      apply existsb_eqb_In in Ex. contradiction.
    + reflexivity.
  - intros _. induction labels as [|k labels IH]; cbn [map];
      [reflexivity|].
    now rewrite list_sum_cons, IH.
Qed.

Lemma group_sizes_sum (by_col : wine_row -> option string)
  (labels : list string) (df : DataFrame) :
  NoDup labels ->
  list_sum (map (fun k => length (WineTrendsAnalyzer.group_rows by_col k df))
                labels)
  = length (filter (fun r => labelled labels (by_col r)) df).
Proof.
  intro Hnd. induction df as [|r t IH].
  - cbn [filter length]. clear Hnd.
    induction labels as [|k labels IH]; cbn [map]; [reflexivity|].
    now rewrite list_sum_cons, IH.
  - transitivity
      (list_sum
         (map (fun k =>
                 (if str_cell_eqb (by_col r) k then 1 else 0)
                 + length (WineTrendsAnalyzer.group_rows by_col k t))%nat
              labels)).
    + f_equal. apply map_ext. intro k.
      unfold WineTrendsAnalyzer.group_rows. cbn [filter].
      destruct (str_cell_eqb (by_col r) k); reflexivity.
    + rewrite list_sum_map_add, IH, (indicator_sum _ _ Hnd). cbn [filter].
      destruct (labelled labels (by_col r)); reflexivity.
Qed.

Lemma filter_all {A : Type} (f : A -> bool) (l : list A) :
  (forall x, In x l -> f x = true) -> filter f l = l.
Proof.
  induction l as [|a l IH]; intro H; cbn; [reflexivity|].
  rewrite (H a (or_introl eq_refl)), IH; [reflexivity|].
  intros x Hx. apply H. now right.
Qed.

Lemma dropna_cells_all {A : Type} (col : list (option A)) :
  Forall (fun c => is_some c = true) col ->
  length (dropna_cells col) = length col.
Proof.
  induction 1 as [|c col Hc _ IH]; cbn; [reflexivity|].
  destruct c; [cbn; now rewrite IH | discriminate].
Qed.

Lemma price_labels_NoDup : NoDup price_labels.
Proof.
  unfold price_labels.
  repeat (constructor; [cbn; intuition discriminate|]). constructor.
Qed.

Lemma cut_label (bins : list edge) (labels : list string) (x : Q)
  (l : string) : cut bins labels x = Some l -> In l labels.
Proof.
  unfold cut. destruct (_ || _); [discriminate|]. apply nth_error_In.
Qed.

(** What cleaning establishes of every row it keeps. *)
Lemma clean_row (raw : DataFrame) (r : wine_row) :
  In r (WineTrendsAnalyzer.clean raw) ->
  is_some (points r) = true /\ is_some (price r) = true
  /\ price_category r = cut_cell price_bins price_labels (price r)
  /\ rating_category r = cut_cell rating_bins rating_labels (points r).
Proof.
  unfold WineTrendsAnalyzer.clean, WineTrendsAnalyzer.add_categories,
    WineTrendsAnalyzer.remove_outliers,
    WineTrendsAnalyzer.dropna_points_price.
  intro Hin. apply in_map_iff in Hin as [r0 [<- Hin]]. cbn.
  apply filter_In in Hin as [Hin _].
  apply filter_In in Hin as [_ Hs].
  apply andb_true_iff in Hs. tauto.
Qed.

(** Without the hypothesis on the grouping column the counts add up to
    the rows that have a category. *)
Lemma group_counts_sum (raw : DataFrame) :
  let df := WineTrendsAnalyzer.clean raw in
  list_sum (map WineTrendsAnalyzer.points_count
                (WineTrendsAnalyzer.price_analysis df))
  = length (filter (fun r => is_some (price_category r)) df).
Proof.
  intro df. unfold WineTrendsAnalyzer.price_analysis.
  rewrite map_map. cbn [WineTrendsAnalyzer.points_count].
  transitivity
    (list_sum
       (map (fun k =>
               length (WineTrendsAnalyzer.group_rows price_category k df))
            price_labels)).
  - f_equal. apply map_ext. intro k.
    rewrite dropna_cells_all; [apply length_map|].
    apply Forall_forall. intros c Hc.
    apply in_map_iff in Hc as [r [<- Hr]].
    apply filter_In in Hr as [Hr _].
    now apply clean_row in Hr.
  - rewrite (group_sizes_sum _ _ _ price_labels_NoDup).
    f_equal. apply filter_ext_in. intros r Hr.
    apply clean_row in Hr as (_ & _ & Hc & _). rewrite Hc.
    destruct (price r) as [p|]; cbn [cut_cell]; [|reflexivity].
    destruct (cut price_bins price_labels p) as [l|] eqn:E;
      cbn [labelled is_some]; [|reflexivity].
    apply existsb_eqb_In. eapply cut_label. exact E.
Qed.

(** C5: when no row of the cleaned frame lacks a price category, the
    counts of the groups of the price analysis add up to the number of
    rows of the frame. *)
Theorem group_counts_cover_frame (raw : DataFrame) :
  let df := WineTrendsAnalyzer.clean raw in
  (forall r, In r df -> price_category r <> None) ->
  list_sum (map WineTrendsAnalyzer.points_count
                (WineTrendsAnalyzer.price_analysis df))
  = length df.
Proof.
  intros df Hcat. unfold df. rewrite group_counts_sum. fold df.
  rewrite filter_all; [reflexivity|].
  intros r Hr. specialize (Hcat r Hr).
  destruct (price_category r); [reflexivity | contradiction].
Qed.

Lemma group_counts_cover_frame_witness :
  let df := WineTrendsAnalyzer.clean
              [review "Brazil" 88 20 "Merlot" "Reserva";
               review "Chile" 92 45 "Carmenere" "Gran Reserva"] in
  list_sum (map WineTrendsAnalyzer.points_count
                (WineTrendsAnalyzer.price_analysis df))
  = length df.
Proof.
  apply (group_counts_cover_frame
           [review "Brazil" 88 20 "Merlot" "Reserva";
            review "Chile" 92 45 "Carmenere" "Gran Reserva"]).
  intros r Hin. vm_compute in Hin.
  destruct Hin as [<-|[<-|[]]]; discriminate.
Defined.

(** ** Quantiles and the outlier fence *)

Lemma insert_sorted (x : Q) (l : list Q) :
  StronglySorted Qle l -> StronglySorted Qle (insert_by Qle_bool x l).
Proof.
  induction 1 as [|y t Ht IH Hy]; cbn.
  - repeat constructor.
  - destruct (Qle_bool x y) eqn:E; reflect_cmp.
    + constructor; [now constructor|].
      constructor; [exact E|].
      eapply Forall_impl; [|exact Hy]. intros z Hz. lra.
    + constructor; [exact IH|].
      eapply Permutation_Forall.
      * symmetry. apply insert_by_perm.
      * constructor; [lra | exact Hy].
Qed.

Lemma sort_values_sorted (l : list Q) : StronglySorted Qle (sort_values l).
Proof.
  unfold sort_values. induction l as [|x t IH]; cbn.
  - constructor.
  - now apply insert_sorted.
Qed.

Lemma sorted_nth_le (s : list Q) :
  StronglySorted Qle s ->
  forall i j, (i <= j < length s)%nat -> nth i s 0 <= nth j s 0.
Proof.
  induction 1 as [|y t Ht IH Hy]; intros i j Hij; cbn in Hij.
  - lia.
  - destruct i as [|i], j as [|j]; cbn [nth]; try lia.
    + lra.
    + rewrite Forall_forall in Hy. apply Hy. apply nth_In. lia.
    + apply IH. lia.
Qed.

(** *** Rounding to the nearest float *)

Lemma pow2_pos (e : Z) : 0 < pow2 e.
Proof. apply Qpower_0_lt. reflexivity. Qed.

Lemma pow2_add (a b : Z) : pow2 (a + b) == pow2 a * pow2 b.
Proof. apply Qpower_plus. discriminate. Qed.

Lemma pow2_le (a b : Z) : (a <= b)%Z -> pow2 a <= pow2 b.
Proof. intro H. apply Qpower_le_compat_l; [exact H | discriminate]. Qed.

Lemma pow2_lt (a b : Z) : (a < b)%Z -> pow2 a < pow2 b.
Proof. intro H. apply Qpower_lt_compat_l; [exact H | reflexivity]. Qed.

Lemma pow2_lt_inv (a b : Z) : pow2 a < pow2 b -> (a < b)%Z.
Proof. intro H. apply (Qpower_lt_compat_l_inv 2); [exact H | reflexivity]. Qed.

Lemma pow2_Z (n : Z) : (0 <= n)%Z -> pow2 n == inject_Z (2 ^ n).
Proof. intro H. unfold pow2. now rewrite Zpower_Qpower. Qed.

Lemma pow2_succ (a : Z) : pow2 (a + 1) == 2 * pow2 a.
Proof. rewrite pow2_add. change (pow2 1) with 2. ring. Qed.

Lemma pow2_div (x : Q) (a : Z) : x / pow2 a * pow2 a == x.
Proof. field. pose proof (pow2_pos a). lra. Qed.

Lemma Q_num_den (x : Q) :
  x * inject_Z (Zpos (Qden x)) == inject_Z (Qnum x).
Proof. destruct x as [a b]. unfold Qeq. cbn. lia. Qed.

(** Exponent bounds *)
Lemma log2_bounds (n : Z) :
  (0 < n)%Z -> pow2 (Z.log2 n) <= inject_Z n /\ inject_Z n < pow2 (Z.log2 n + 1).
Proof.
  intro Hn. destruct (Z.log2_spec n Hn) as [H1 H2].
  pose proof (Z.log2_nonneg n) as H0.
  rewrite !pow2_Z by lia. rewrite <- Zle_Qle, <- Zlt_Qlt.
  replace (Z.log2 n + 1)%Z with (Z.succ (Z.log2 n)) by lia. now split.
Qed.

Lemma ilog2_spec (x : Q) :
  0 < x -> pow2 (ilog2 x) <= x /\ x < pow2 (ilog2 x + 1).
Proof.
  intro Hx. unfold ilog2.
  set (n := Qnum x). set (d := Zpos (Qden x)).
  assert (Hn : (0 < n)%Z).
  { unfold Qlt in Hx. cbn in Hx. unfold n. lia. }
  assert (Hd : (0 < d)%Z) by reflexivity.
  destruct (log2_bounds n Hn) as [N1 N2].
  destruct (log2_bounds d Hd) as [D1 D2].
  set (ln := Z.log2 n) in *. set (ld := Z.log2 d) in *.
  assert (Ex : x * inject_Z d == inject_Z n) by apply Q_num_den.
  assert (Dp : 0 < inject_Z d)
    by (change 0 with (inject_Z 0); now rewrite <- Zlt_Qlt).
  assert (Hup : x < pow2 (ln - ld + 1)).
  { assert (E : pow2 (ln + 1) == pow2 (ln - ld + 1) * pow2 ld).
    { rewrite <- pow2_add. now replace (ln - ld + 1 + ld)%Z with (ln + 1)%Z by lia. }
    pose proof (pow2_pos (ln - ld + 1)). nra. }
  assert (Hlo : pow2 (ln - ld - 1) < x).
  { assert (E : pow2 ln == pow2 (ln - ld - 1) * pow2 (ld + 1)).
    { rewrite <- pow2_add. now replace (ln - ld - 1 + (ld + 1))%Z with ln by lia. }
    pose proof (pow2_pos (ln - ld - 1)). nra. }
  destruct (Qle_bool (pow2 (ln - ld)) x) eqn:E.
  - apply Qle_bool_iff in E. split; [exact E | exact Hup].
  - assert (x < pow2 (ln - ld)).
    { apply Qnot_le_lt. intro H. apply Qle_bool_iff in H. congruence. }
    split; [lra|]. now replace (ln - ld - 1 + 1)%Z with (ln - ld)%Z by lia.
Qed.

Lemma ilog2_unique (x : Q) (e : Z) :
  pow2 e <= x -> x < pow2 (e + 1) -> ilog2 x = e.
Proof.
  intros H1 H2.
  assert (Hx : 0 < x) by (pose proof (pow2_pos e); lra).
  destruct (ilog2_spec x Hx) as [S1 S2].
  assert (ilog2 x < e + 1)%Z by (apply pow2_lt_inv; lra).
  assert (e < ilog2 x + 1)%Z by (apply pow2_lt_inv; lra).
  lia.
Qed.

Lemma ilog2_mono (x y : Q) : 0 < x -> x <= y -> (ilog2 x <= ilog2 y)%Z.
Proof.
  intros Hx Hxy.
  destruct (ilog2_spec x Hx) as [S1 _].
  destruct (ilog2_spec y) as [_ T2]; [lra|].
  assert (ilog2 x < ilog2 y + 1)%Z by (apply pow2_lt_inv; lra). lia.
Qed.

(** Nearest integer *)
Lemma rne_mono (y z : Q) : y <= z -> (rne y <= rne z)%Z.
Proof.
  intro H. unfold rne.
  pose proof (Qfloor_resp_le y z H) as Hf.
  pose proof (Qfloor_le y) as Y1. pose proof (Qlt_floor y) as Y2.
  pose proof (Qfloor_le z) as Z1. pose proof (Qlt_floor z) as Z2.
  set (fy := Qfloor y) in *. set (fz := Qfloor z) in *.
  rewrite inject_Z_plus in Y2, Z2.
  assert (Hcase : (fy = fz \/ fy + 1 <= fz)%Z) by lia.
  destruct (Qlt_bool (y - inject_Z fy) (1 # 2)) eqn:A1;
    destruct (Qlt_bool (z - inject_Z fz) (1 # 2)) eqn:B1;
    try (destruct (Qlt_bool (1 # 2) (y - inject_Z fy)) eqn:A2);
    try (destruct (Qlt_bool (1 # 2) (z - inject_Z fz)) eqn:B2);
    try (destruct (Z.even fy) eqn:A3);
    try (destruct (Z.even fz) eqn:B3);
    try lia;
    destruct Hcase as [Hc|Hc]; try lia;
    repeat match goal with
      | H : Qlt_bool _ _ = true |- _ => apply Qlt_bool_iff in H
      | H : Qlt_bool ?a ?b = false |- _ =>
          assert (b <= a)
            by (apply Qnot_lt_le; intro Hlt; apply Qlt_bool_iff in Hlt; congruence);
          clear H
      end;
    try (rewrite Hc in *; exfalso; lra);
    try (rewrite Hc in *; congruence).
Qed.

Lemma rne_Z (k : Z) : rne (inject_Z k) = k.
Proof.
  unfold rne. rewrite Qfloor_Z.
  replace (Qlt_bool (inject_Z k - inject_Z k) (1 # 2)) with true; [reflexivity|].
  symmetry. apply Qlt_bool_iff. ring_simplify. reflexivity.
Qed.

Lemma rne_eq (y : Q) (k : Z) : y == inject_Z k -> rne y = k.
Proof.
  intro E. apply Z.le_antisymm.
  - rewrite <- (rne_Z k). apply rne_mono. lra.
  - rewrite <- (rne_Z k) at 1. apply rne_mono. lra.
Qed.

(** Rounding a positive number *)

Lemma ulp_exp_mono (x y : Q) : 0 < x -> x <= y -> (ulp_exp x <= ulp_exp y)%Z.
Proof.
  intros Hx Hxy. unfold ulp_exp. pose proof (ilog2_mono x y Hx Hxy). lia.
Qed.

Lemma scaled_lt (x : Q) :
  0 < x -> x / pow2 (ulp_exp x) < pow2 53.
Proof.
  intro Hx. destruct (ilog2_spec x Hx) as [_ H].
  pose proof (pow2_pos (ulp_exp x)) as Hp.
  apply Qlt_shift_div_r; [exact Hp|].
  rewrite <- pow2_add.
  apply (Qlt_le_trans _ _ _ H). apply pow2_le. unfold ulp_exp. lia.
Qed.

(** In the normal range the scaled value has 53 bits. *)
Lemma scaled_ge (x : Q) :
  0 < x -> (-1074 < ulp_exp x)%Z -> pow2 52 <= x / pow2 (ulp_exp x).
Proof.
  intros Hx Hu. destruct (ilog2_spec x Hx) as [H _].
  pose proof (pow2_pos (ulp_exp x)) as Hp.
  apply Qle_shift_div_l; [exact Hp|].
  rewrite <- pow2_add.
  replace (52 + ulp_exp x)%Z with (ilog2 x) by (unfold ulp_exp in *; lia).
  exact H.
Qed.

Lemma rne_pow2_le (y : Q) (k : Z) :
  (0 <= k)%Z -> y <= pow2 k -> inject_Z (rne y) <= pow2 k.
Proof.
  intros Hk H. rewrite pow2_Z in * by exact Hk.
  rewrite <- Zle_Qle. rewrite <- (rne_Z (2 ^ k)). now apply rne_mono.
Qed.

Lemma rne_pow2_ge (y : Q) (k : Z) :
  (0 <= k)%Z -> pow2 k <= y -> pow2 k <= inject_Z (rne y).
Proof.
  intros Hk H. rewrite pow2_Z in * by exact Hk.
  rewrite <- Zle_Qle. rewrite <- (rne_Z (2 ^ k)) at 1. now apply rne_mono.
Qed.

Lemma rne_nonneg (y : Q) : 0 <= y -> (0 <= rne y)%Z.
Proof. intro H. rewrite <- (rne_Z 0). now apply rne_mono. Qed.

Lemma round_val_nonneg (x : Q) : 0 < x -> 0 <= round_val x.
Proof.
  intro Hx. unfold round_val.
  pose proof (pow2_pos (ulp_exp x)) as Hp.
  assert (0 <= x / pow2 (ulp_exp x)).
  { apply Qle_shift_div_l; [exact Hp|]. rewrite Qmult_0_l. lra. }
  pose proof (rne_nonneg _ H) as Hr.
  assert (0 <= inject_Z (rne (x / pow2 (ulp_exp x))))
    by (change 0 with (inject_Z 0); now rewrite <- Zle_Qle).
  nra.
Qed.

Lemma round_val_le_pow2 (x : Q) :
  0 < x -> round_val x <= pow2 (ulp_exp x + 53).
Proof.
  intro Hx. unfold round_val.
  pose proof (scaled_lt x Hx) as H.
  assert (Hm : inject_Z (rne (x / pow2 (ulp_exp x))) <= pow2 53)
    by (apply rne_pow2_le; [lia | lra]).
  pose proof (pow2_pos (ulp_exp x)).
  rewrite pow2_add. nra.
Qed.

Lemma round_val_ge_pow2 (x : Q) :
  0 < x -> (-1074 < ulp_exp x)%Z -> pow2 (ulp_exp x + 52) <= round_val x.
Proof.
  intros Hx Hu. unfold round_val.
  pose proof (scaled_ge x Hx Hu) as H.
  assert (Hm : pow2 52 <= inject_Z (rne (x / pow2 (ulp_exp x))))
    by (apply rne_pow2_ge; [lia | exact H]).
  pose proof (pow2_pos (ulp_exp x)).
  rewrite pow2_add. nra.
Qed.

Lemma round_val_mono (x y : Q) :
  0 < x -> x <= y -> round_val x <= round_val y.
Proof.
  intros Hx Hxy.
  assert (Hy : 0 < y) by lra.
  pose proof (ulp_exp_mono x y Hx Hxy) as Hu.
  destruct (Z.eq_dec (ulp_exp x) (ulp_exp y)) as [E|E].
  - unfold round_val. rewrite E.
    pose proof (pow2_pos (ulp_exp y)) as Hp.
    assert (x / pow2 (ulp_exp y) <= y / pow2 (ulp_exp y)).
    { unfold Qdiv. apply Qmult_le_compat_r; [exact Hxy|].
      apply Qinv_le_0_compat. lra. }
    pose proof (rne_mono _ _ H) as Hr. rewrite Zle_Qle in Hr. nra.
  - assert (Hlt : (ulp_exp x + 1 <= ulp_exp y)%Z) by lia.
    apply (Qle_trans _ (pow2 (ulp_exp x + 53))).
    + now apply round_val_le_pow2.
    + apply (Qle_trans _ (pow2 (ulp_exp y + 52))).
      * apply pow2_le. lia.
      * apply round_val_ge_pow2; [exact Hy|].
        unfold ulp_exp in *. lia.
Qed.

Lemma round_pos_mono (x y : Q) :
  0 < x -> x <= y -> float_leb (round_pos x) (round_pos y) = true.
Proof.
  intros Hx Hxy. pose proof (round_val_mono x y Hx Hxy) as H.
  unfold round_pos, float_leb.
  destruct (Qle_bool (pow2 1024) (round_val x)) eqn:Ex.
  - apply Qle_bool_iff in Ex.
    replace (Qle_bool (pow2 1024) (round_val y)) with true; [reflexivity|].
    symmetry. apply Qle_bool_iff. lra.
  - destruct (Qle_bool (pow2 1024) (round_val y)); cbn; [reflexivity|].
    now apply Qle_bool_iff.
Qed.

Lemma round_pos_nonneg (x : Q) :
  0 < x -> float_leb (Finite 0) (round_pos x) = true.
Proof.
  intro Hx. pose proof (round_val_nonneg x Hx).
  unfold round_pos, float_leb.
  destruct (Qle_bool (pow2 1024) (round_val x)); cbn; [reflexivity|].
  now apply Qle_bool_iff.
Qed.

Lemma round_pos_not_nan (x : Q) : round_pos x <> NaN /\ round_pos x <> NegInf.
Proof.
  unfold round_pos. destruct (Qle_bool _ _); split; discriminate.
Qed.

Lemma float_leb_fneg (a b : float_val) :
  float_leb (fneg a) (fneg b) = float_leb b a.
Proof.
  unfold float_leb.
  destruct a as [x| | |], b as [y| | |]; cbn [fneg float_geb];
    try reflexivity.
  apply Bool.eq_iff_eq_true. rewrite !Qle_bool_iff. split; lra.
Qed.

Lemma float_leb_trans (a b c : float_val) :
  float_leb a b = true -> float_leb b c = true -> float_leb a c = true.
Proof.
  unfold float_leb.
  destruct a as [x| | |], b as [y| | |], c as [z| | |]; cbn [float_geb];
    try reflexivity; try discriminate.
  rewrite !Qle_bool_iff. lra.
Qed.

Theorem round64_mono (x y : Q) :
  x <= y -> float_leb (round64 x) (round64 y) = true.
Proof.
  intro Hxy. unfold round64.
  destruct (Qlt_bool 0 x) eqn:X1.
  - apply Qlt_bool_iff in X1.
    replace (Qlt_bool 0 y) with true by (symmetry; apply Qlt_bool_iff; lra).
    now apply round_pos_mono.
  - apply Qlt_bool_false in X1.
    destruct (Qlt_bool x 0) eqn:X2.
    + apply Qlt_bool_iff in X2.
      assert (Hneg : float_leb (fneg (round_pos (- x))) (Finite 0) = true).
      { change (Finite 0) with (fneg (Finite (- 0))).
        rewrite float_leb_fneg.
        assert (E : float_leb (Finite (- 0)) (round_pos (- x))
                    = float_leb (Finite 0) (round_pos (- x))).
        { unfold float_leb. destruct (round_pos (- x)); reflexivity. }
        rewrite E. apply round_pos_nonneg. lra. }
      destruct (Qlt_bool 0 y) eqn:Y1.
      * apply Qlt_bool_iff in Y1.
        apply (float_leb_trans _ (Finite 0)); [exact Hneg|].
        now apply round_pos_nonneg.
      * apply Qlt_bool_false in Y1.
        destruct (Qlt_bool y 0) eqn:Y2.
        -- apply Qlt_bool_iff in Y2. rewrite float_leb_fneg.
           apply round_pos_mono; lra.
        -- exact Hneg.
    + apply Qlt_bool_false in X2.
      destruct (Qlt_bool 0 y) eqn:Y1.
      * apply Qlt_bool_iff in Y1. now apply round_pos_nonneg.
      * apply Qlt_bool_false in Y1.
        replace (Qlt_bool y 0) with false
          by (symmetry; apply Qlt_bool_false; lra).
        reflexivity.
Qed.

(** Representable numbers *)

(** Significand and exponent. *)
Definition dyadic64 (v : Q) : Prop :=
  exists m e : Z,
    v == inject_Z m * pow2 e /\ (Z.abs m < 2 ^ 53)%Z /\ (-1074 <= e <= 971)%Z.

Lemma float_eqb_Finite (a : float_val) (v : Q) :
  float_eqb a (Finite v) = true <-> exists w, a = Finite w /\ w == v.
Proof.
  unfold float_eqb. destruct a as [w| | |]; cbn [float_geb].
  - rewrite andb_true_iff, !Qle_bool_iff. split.
    + intros [H1 H2]. exists w. split; [reflexivity | lra].
    + intros (w' & E & H). inversion E; subst. split; lra.
  - split; [discriminate | intros (w & E & _); discriminate].
  - split; [discriminate | intros (w & E & _); discriminate].
  - split; [discriminate | intros (w & E & _); discriminate].
Qed.

Lemma dyadic64_compat (v w : Q) : v == w -> dyadic64 v -> dyadic64 w.
Proof.
  intros E (m & e & H & Hm & He). exists m, e. split; [|split]; auto.
  now rewrite <- E.
Qed.

Lemma dyadic64_opp (v : Q) : dyadic64 v -> dyadic64 (- v).
Proof.
  intros (m & e & H & Hm & He). exists (- m)%Z, e. split; [|split].
  - rewrite inject_Z_opp, H. ring.
  - lia.
  - exact He.
Qed.

Lemma round_pos_dyadic (v : Q) (m e : Z) :
  v == inject_Z m * pow2 e -> (0 < m < 2 ^ 53)%Z -> (-1074 <= e <= 971)%Z ->
  exists w, round_pos v = Finite w /\ w == v.
Proof.
  intros Hv Hm He.
  pose proof (pow2_pos e) as Hpe.
  assert (Hm0 : 0 < inject_Z m)
    by (change 0 with (inject_Z 0); rewrite <- Zlt_Qlt; lia).
  assert (Hm1 : inject_Z m < pow2 53)
    by (rewrite pow2_Z by lia; rewrite <- Zlt_Qlt; lia).
  assert (Hpos : 0 < v) by nra.
  destruct (ilog2_spec v Hpos) as [L1 L2].
  assert (Hup : v < pow2 (e + 53)) by (rewrite pow2_add, (Qmult_comm (pow2 e)); nra).
  assert (Hlog : (ilog2 v < e + 53)%Z) by (apply pow2_lt_inv; lra).
  set (u := ulp_exp v).
  assert (Hu : (u <= e)%Z) by (unfold u, ulp_exp; lia).
  set (k := (m * 2 ^ (e - u))%Z).
  assert (Hk : v / pow2 u == inject_Z k).
  { unfold k. rewrite inject_Z_mult, <- pow2_Z by lia.
    rewrite Hv. replace e with ((e - u) + u)%Z at 1 by lia.
    rewrite pow2_add. field. pose proof (pow2_pos u). lra. }
  assert (Hval : round_val v == v).
  { unfold round_val. fold u. rewrite (rne_eq _ k Hk), <- Hk.
    exact (pow2_div v u). }
  exists (round_val v). split; [|exact Hval].
  unfold round_pos.
  replace (Qle_bool (pow2 1024) (round_val v)) with false; [reflexivity|].
  symmetry. destruct (Qle_bool (pow2 1024) (round_val v)) eqn:E;
    [|reflexivity].
  apply Qle_bool_iff in E. exfalso.
  assert (pow2 (e + 53) <= pow2 1024) by (apply pow2_le; lia). lra.
Qed.

(** A number with a 53-bit significand is its own rounding. *)
Theorem dyadic64_binary64 (v : Q) : dyadic64 v -> binary64 v.
Proof.
  intros (m & e & Hv & Hm & He). unfold binary64.
  apply float_eqb_Finite. unfold round64.
  pose proof (pow2_pos e) as Hpe.
  destruct (Z.lt_trichotomy m 0) as [Hneg|[Hz|Hpos]].
  - assert (Hm0 : inject_Z m < 0)
      by (change 0 with (inject_Z 0); rewrite <- Zlt_Qlt; lia).
    assert (Hv0 : v < 0) by nra.
    replace (Qlt_bool 0 v) with false by (symmetry; apply Qlt_bool_false; lra).
    replace (Qlt_bool v 0) with true by (symmetry; now apply Qlt_bool_iff).
    destruct (round_pos_dyadic (- v) (- m) e) as (w & E & Hw).
    + rewrite inject_Z_opp, Hv. ring.
    + lia.
    + exact He.
    + rewrite E. exists (- w). split; [reflexivity|]. lra.
  - subst m. assert (Hv0 : v == 0) by (rewrite Hv; ring).
    replace (Qlt_bool 0 v) with false by (symmetry; apply Qlt_bool_false; lra).
    replace (Qlt_bool v 0) with false by (symmetry; apply Qlt_bool_false; lra).
    exists 0. split; [reflexivity | lra].
  - assert (Hm0 : 0 < inject_Z m)
      by (change 0 with (inject_Z 0); rewrite <- Zlt_Qlt; lia).
    assert (Hv0 : 0 < v) by nra.
    replace (Qlt_bool 0 v) with true by (symmetry; now apply Qlt_bool_iff).
    apply (round_pos_dyadic v m e); [exact Hv | lia | exact He].
Qed.

Lemma round_pos_is_dyadic (x v : Q) :
  0 < x -> round_pos x = Finite v -> dyadic64 v.
Proof.
  intros Hx E. unfold round_pos in E.
  destruct (Qle_bool (pow2 1024) (round_val x)) eqn:Eo; [discriminate|].
  inversion E; subst v. clear E.
  assert (Hno : round_val x < pow2 1024).
  { apply Qnot_le_lt. intro H. apply Qle_bool_iff in H. congruence. }
  set (u := ulp_exp x) in *.
  set (m := rne (x / pow2 u)).
  assert (Hval : round_val x = inject_Z m * pow2 u) by reflexivity.
  assert (Hm0 : (0 <= m)%Z).
  { apply rne_nonneg. pose proof (pow2_pos u).
    apply Qle_shift_div_l; [assumption|]. rewrite Qmult_0_l. lra. }
  assert (Hm1 : (m <= 2 ^ 53)%Z).
  { rewrite Zle_Qle, <- pow2_Z by lia.
    apply rne_pow2_le; [lia|]. pose proof (scaled_lt x Hx). fold u in H. lra. }
  assert (Hu0 : (-1074 <= u)%Z) by (unfold u, ulp_exp; lia).
  destruct (Z.eq_dec m (2 ^ 53)) as [Em|Em].
  - assert (Ev : round_val x == pow2 (u + 53)).
    { rewrite Hval, Em, <- pow2_Z by lia. rewrite pow2_add. ring. }
    assert (Hu1 : (u + 53 < 1024)%Z) by (apply pow2_lt_inv; lra).
    exists (2 ^ 52)%Z, (u + 1)%Z. split; [|split].
    + rewrite Ev, <- pow2_Z by lia. rewrite <- pow2_add.
      now replace (52 + (u + 1))%Z with (u + 53)%Z by lia.
    + rewrite Z.abs_eq by lia. apply Z.pow_lt_mono_r; lia.
    + lia.
  - exists m, u. split; [rewrite Hval; reflexivity|]. split; [lia|].
    split; [exact Hu0|].
    destruct (Z_le_gt_dec u 971) as [H|H]; [exact H|]. exfalso.
    assert (Hge : pow2 (u + 52) <= round_val x)
      by (apply round_val_ge_pow2; [exact Hx | fold u; lia]).
    assert (pow2 1024 <= pow2 (u + 52)) by (apply pow2_le; lia). lra.
Qed.

(** What rounding returns is a float. *)
Theorem round64_dyadic (x v : Q) : round64 x = Finite v -> dyadic64 v.
Proof.
  unfold round64.
  destruct (Qlt_bool 0 x) eqn:X1.
  - apply Qlt_bool_iff in X1. now apply round_pos_is_dyadic.
  - destruct (Qlt_bool x 0) eqn:X2.
    + apply Qlt_bool_iff in X2. intro E.
      destruct (round_pos (- x)) as [w| | |] eqn:Ew; try discriminate.
      inversion E; subst v. apply dyadic64_opp.
      apply (round_pos_is_dyadic (- x)); [lra | exact Ew].
    + intro E. inversion E; subst v. exists 0%Z, 0%Z.
      split; [reflexivity|]. split; [reflexivity | lia].
Qed.

Theorem round64_binary64 (x v : Q) : round64 x = Finite v -> binary64 v.
Proof. intro E. apply dyadic64_binary64. now apply (round64_dyadic x). Qed.

Lemma binary64_dyadic (v : Q) : binary64 v -> dyadic64 v.
Proof.
  unfold binary64. intro H. apply float_eqb_Finite in H as (w & E & Hw).
  apply (dyadic64_compat w v Hw). now apply (round64_dyadic v).
Qed.

Lemma binary64_round (v : Q) :
  binary64 v -> exists w, round64 v = Finite w /\ w == v.
Proof. intro H. now apply float_eqb_Finite. Qed.

Lemma pow2_binary64 (e : Z) : (-1074 <= e <= 1023)%Z -> binary64 (pow2 e).
Proof.
  intro He. apply dyadic64_binary64.
  destruct (Z_le_gt_dec e 971) as [H|H].
  - exists 1%Z, e. split; [ring|]. split; [reflexivity | lia].
  - exists (2 ^ (e - 971))%Z, 971%Z. split; [|split].
    + rewrite <- pow2_Z by lia. rewrite <- pow2_add.
      now replace (e - 971 + 971)%Z with e by lia.
    + rewrite Z.abs_eq by (apply Z.pow_nonneg; lia).
      apply Z.pow_lt_mono_r; lia.
    + lia.
Qed.

(** Rounding against a float. *)
Lemma round64_le (x v : Q) :
  binary64 v -> x <= v -> float_leb (round64 x) (Finite v) = true.
Proof.
  intros Hv Hx. destruct (binary64_round v Hv) as (w & E & Hw).
  pose proof (round64_mono x v Hx) as H. rewrite E in H.
  apply (float_leb_trans _ (Finite w)); [exact H|].
  unfold float_leb. cbn [float_geb]. apply Qle_bool_iff. lra.
Qed.

Lemma round64_ge (x v : Q) :
  binary64 v -> v <= x -> float_leb (Finite v) (round64 x) = true.
Proof.
  intros Hv Hx. destruct (binary64_round v Hv) as (w & E & Hw).
  pose proof (round64_mono v x Hx) as H. rewrite E in H.
  apply (float_leb_trans _ (Finite w)); [|exact H].
  unfold float_leb. cbn [float_geb]. apply Qle_bool_iff. lra.
Qed.

Lemma binary64_0 : binary64 0.
Proof.
  apply dyadic64_binary64. exists 0%Z, 0%Z.
  split; [reflexivity|]. split; [reflexivity | lia].
Qed.

(** A float between two finite bounds is finite. *)
Lemma float_between (f : float_val) (lo hi : Q) :
  float_leb (Finite lo) f = true -> float_leb f (Finite hi) = true ->
  exists v, f = Finite v /\ lo <= v /\ v <= hi.
Proof.
  unfold float_leb. destruct f as [v| | |]; cbn [float_geb]; try discriminate.
  rewrite !Qle_bool_iff. intros H1 H2. exists v. auto.
Qed.

Lemma round64_between (x lo hi : Q) :
  binary64 lo -> binary64 hi -> lo <= x -> x <= hi ->
  exists v, round64 x = Finite v /\ lo <= v /\ v <= hi /\ binary64 v.
Proof.
  intros Hlo Hhi H1 H2.
  destruct (float_between (round64 x) lo hi) as (v & E & B1 & B2).
  - now apply round64_ge.
  - now apply round64_le.
  - exists v. repeat split; auto. now apply (round64_binary64 x).
Qed.

Lemma round64_exact (v : Q) (w : Q) :
  binary64 v -> round64 v = Finite w -> w == v.
Proof.
  intros Hv E. destruct (binary64_round v Hv) as (w' & E' & Hw).
  rewrite E in E'. inversion E'; subst. exact Hw.
Qed.

(** The difference of two floats, when tiny, is a float. *)
Lemma small_difference (a b : Q) :
  binary64 a -> binary64 b -> 0 <= b - a -> b - a < pow2 (-1022) ->
  binary64 (b - a).
Proof.
  intros Ha Hb H0 H1.
  destruct (binary64_dyadic a Ha) as (ma & ea & Ea & _ & Hea).
  destruct (binary64_dyadic b Hb) as (mb & eb & Eb & _ & Heb).
  apply dyadic64_binary64.
  set (k := (mb * 2 ^ (eb + 1074) - ma * 2 ^ (ea + 1074))%Z).
  assert (Ek : b - a == inject_Z k * pow2 (-1074)).
  { unfold k, Z.sub. rewrite inject_Z_plus, inject_Z_opp, !inject_Z_mult.
    rewrite <- !pow2_Z by lia. rewrite Ea, Eb.
    rewrite !pow2_add.
    assert (E1 : pow2 1074 * pow2 (-1074) == 1).
    { rewrite <- pow2_add. reflexivity. }
    set (P := pow2 1074) in *. set (N := pow2 (-1074)) in *.
    transitivity (inject_Z mb * pow2 eb * (P * N) - inject_Z ma * pow2 ea * (P * N));
      [rewrite E1; ring | ring]. }
  exists k, (-1074)%Z. split; [exact Ek|]. split; [|lia].
  assert (Hp : 0 < pow2 (-1074)) by apply pow2_pos.
  assert (Hk0 : 0 <= inject_Z k) by nra.
  assert (Hk1 : inject_Z k < pow2 52).
  { assert (E : pow2 (-1022) == pow2 52 * pow2 (-1074))
      by (rewrite <- pow2_add; reflexivity).
    nra. }
  rewrite pow2_Z in Hk1 by lia.
  change 0 with (inject_Z 0) in Hk0.
  rewrite <- Zle_Qle in Hk0. rewrite <- Zlt_Qlt in Hk1.
  rewrite Z.abs_eq by exact Hk0.
  assert (2 ^ 52 < 2 ^ 53)%Z by (apply Z.pow_lt_mono_r; lia). lia.
Qed.

(** The interpolation step: the rounded difference of two floats, scaled
    by a factor of at most a half and rounded, does not exceed the
    difference. *)
Lemma round_scaled (a b s : Q) :
  binary64 a -> binary64 b -> a <= b -> b - a <= pow2 1022 ->
  0 <= s -> s <= 1 # 2 ->
  exists d p,
    round64 (b + - a) = Finite d /\ round64 (d * s) = Finite p
    /\ 0 <= p /\ p <= b - a.
Proof.
  intros Ha Hb Hab Hmax Hs0 Hs1.
  assert (B1022 : binary64 (pow2 1022)) by (apply pow2_binary64; lia).
  destruct (round64_between (b + - a) 0 (pow2 1022))
    as (d & Ed & D0 & D1 & Bd); [apply binary64_0 | exact B1022 | lra | lra |].
  destruct (round64_between (d * s) 0 (pow2 1022))
    as (p & Ep & P0 & P1 & Bp); [apply binary64_0 | exact B1022 | nra | nra |].
  exists d, p. split; [exact Ed|]. split; [exact Ep|]. split; [exact P0|].
  destruct (Qlt_le_dec (b - a) (pow2 (-1022))) as [Hsmall|Hbig].
  - assert (Bx : binary64 (b - a)) by (apply small_difference; auto; lra).
    assert (Bx' : binary64 (b + - a)).
    { unfold binary64 in *. exact Bx. }
    pose proof (round64_exact _ _ Bx' Ed) as Edx.
    assert (Hle : d * s <= b - a) by nra.
    pose proof (round64_le _ _ Bx Hle) as H. rewrite Ep in H.
    unfold float_leb in H. cbn [float_geb] in H. now apply Qle_bool_iff in H.
  - assert (Hx : 0 < b - a) by (pose proof (pow2_pos (-1022)); lra).
    destruct (ilog2_spec (b - a) Hx) as [L1 L2].
    set (e := ilog2 (b - a)) in *.
    assert (He0 : (-1022 < e + 1)%Z) by (apply pow2_lt_inv; lra).
    assert (He1 : (e < 1023)%Z).
    { apply pow2_lt_inv. assert (pow2 1022 < pow2 1023) by (apply pow2_lt; lia).
      lra. }
    assert (Be1 : binary64 (pow2 (e + 1))) by (apply pow2_binary64; lia).
    assert (Be : binary64 (pow2 e)) by (apply pow2_binary64; lia).
    assert (Hd : d <= pow2 (e + 1)).
    { assert (Hle : b + - a <= pow2 (e + 1)) by lra.
      pose proof (round64_le _ _ Be1 Hle) as H. rewrite Ed in H.
      unfold float_leb in H. cbn [float_geb] in H. now apply Qle_bool_iff in H. }
    assert (Hds : d * s <= pow2 e).
    { rewrite pow2_succ in Hd. nra. }
    pose proof (round64_le _ _ Be Hds) as H. rewrite Ep in H.
    unfold float_leb in H. cbn [float_geb] in H. apply Qle_bool_iff in H. lra.
Qed.

(** *** Rounding error *)

Lemma rne_near (y : Q) :
  - (1 # 2) <= inject_Z (rne y) - y /\ inject_Z (rne y) - y <= 1 # 2.
Proof.
  unfold rne.
  pose proof (Qfloor_le y) as Y1. pose proof (Qlt_floor y) as Y2.
  rewrite inject_Z_plus in Y2. change (inject_Z 1) with 1 in Y2.
  set (f := Qfloor y) in *.
  destruct (Qlt_bool (y - inject_Z f) (1 # 2)) eqn:A1.
  - apply Qlt_bool_iff in A1. split; lra.
  - apply Qlt_bool_false in A1.
    destruct (Qlt_bool (1 # 2) (y - inject_Z f)) eqn:A2.
    + rewrite inject_Z_plus. change (inject_Z 1) with 1. split; lra.
    + apply Qlt_bool_false in A2.
      destruct (Z.even f).
      * split; lra.
      * rewrite inject_Z_plus. change (inject_Z 1) with 1. split; lra.
Qed.

(** The relative error [2^-53] and the absolute error [2^-1075] of one
    rounding. *)
Definition rel_err : Q := pow2 (-53).
Definition abs_err : Q := pow2 (-1075).

Lemma round_val_err (x : Q) :
  0 < x ->
  - (rel_err * x + abs_err) <= round_val x - x
  /\ round_val x - x <= rel_err * x + abs_err.
Proof.
  intro Hx. unfold round_val.
  set (u := ulp_exp x).
  pose proof (pow2_pos u) as Hu.
  destruct (rne_near (x / pow2 u)) as [N1 N2].
  set (m := inject_Z (rne (x / pow2 u))) in *.
  assert (Ex : x == x / pow2 u * pow2 u) by (symmetry; apply pow2_div).
  set (y := x / pow2 u) in *.
  assert (Hhalf : pow2 u * (1 # 2) <= rel_err * x + abs_err).
  { assert (E2 : pow2 u * (1 # 2) == pow2 (u - 1)).
    { replace u with ((u - 1) + 1)%Z at 1 by lia. rewrite pow2_succ. field. }
    rewrite E2. destruct (ilog2_spec x Hx) as [L1 _].
    pose proof (pow2_pos (-1075)) as Ha. fold abs_err in Ha.
    assert (Hr : 0 < rel_err) by apply pow2_pos.
    destruct (Z.max_spec (ilog2 x - 52) (-1074)) as [[_ E]|[_ E]];
      fold (ulp_exp x) in E; fold u in E; rewrite E.
    - replace (-1074 - 1)%Z with (-1075)%Z by lia. fold abs_err. nra.
    - replace (ilog2 x - 52 - 1)%Z with (-53 + ilog2 x)%Z by lia.
      rewrite pow2_add. fold rel_err. nra. }
  split; nra.
Qed.

Lemma round64_err (x v : Q) :
  round64 x = Finite v ->
  Qabs (v - x) <= rel_err * Qabs x + abs_err.
Proof.
  unfold round64.
  assert (Ha : 0 < abs_err) by apply pow2_pos.
  destruct (Qlt_bool 0 x) eqn:X1.
  - apply Qlt_bool_iff in X1. unfold round_pos.
    destruct (Qle_bool _ _); [discriminate|]. intro E. inversion E; subst v.
    destruct (round_val_err x X1) as [H1 H2].
    rewrite (Qabs_pos x) by lra. apply Qabs_Qle_condition. split; lra.
  - apply Qlt_bool_false in X1.
    destruct (Qlt_bool x 0) eqn:X2.
    + apply Qlt_bool_iff in X2. unfold round_pos.
      destruct (Qle_bool _ _); [discriminate|]. cbn [fneg].
      intro E. inversion E; subst v.
      destruct (round_val_err (- x)) as [H1 H2]; [lra|].
      rewrite (Qabs_neg x) by lra. apply Qabs_Qle_condition. split; lra.
    + apply Qlt_bool_false in X2. intro E. inversion E; subst v.
      assert (Ex : x == 0) by lra.
      assert (E0 : 0 - x == 0) by lra. rewrite E0.
      assert (Hr : 0 < rel_err) by apply pow2_pos.
      pose proof (Qabs_nonneg x). change (Qabs 0) with 0. nra.
Qed.

(** numpy's interpolation is the exact one up to three roundings. *)
Lemma lerp_accurate (a b t : Q) :
  binary64 a -> binary64 b -> a <= b -> b - a <= pow2 1022 ->
  0 <= t -> t < 1 -> binary64 (1 + - t) ->
  exists r, lerp (Finite a) (Finite b) (Finite t) = Finite r
            /\ a <= r /\ r <= b /\ binary64 r
            /\ Qabs (r - (a + t * (b - a)))
               <= pow2 (-51) * (Qabs a + Qabs b) + pow2 (-1073).
Proof.
  intros Ha Hb Hab Hmax Ht0 Ht1 Bt.
  assert (He : pow2 (-51) == 4 * rel_err)
    by (unfold rel_err; change 4 with (pow2 2); now rewrite <- pow2_add).
  assert (Hn : pow2 (-1073) == 4 * abs_err)
    by (unfold abs_err; change 4 with (pow2 2); now rewrite <- pow2_add).
  assert (He0 : 0 < rel_err) by apply pow2_pos.
  assert (He1 : rel_err <= 1 # 2).
  { unfold rel_err. change (1 # 2) with (pow2 (-1)). apply pow2_le. lia. }
  assert (Hn0 : 0 < abs_err) by apply pow2_pos.
  pose proof (Qle_Qabs a) as Aa. pose proof (Qle_Qabs b) as Ab.
  pose proof (Qle_Qabs (- a)) as Aa'. pose proof (Qle_Qabs (- b)) as Ab'.
  rewrite Qabs_opp in Aa', Ab'.
  set (S := Qabs a + Qabs b) in *.
  assert (HxS : b - a <= S) by (unfold S; lra).
  assert (HS0 : 0 <= S)
    by (unfold S; pose proof (Qabs_nonneg a); pose proof (Qabs_nonneg b); lra).
  unfold lerp. cbn [float_geb fsub fneg fadd].
  destruct (Qle_bool (1 # 2) t) eqn:Et.
  - apply Qle_bool_iff in Et.
    destruct (binary64_round _ Bt) as (w & Ew & Hw). rewrite Ew.
    destruct (round_scaled a b w Ha Hb Hab Hmax) as (d & p & Ed & Ep & P0 & P1);
      [lra | lra |].
    rewrite Ed. cbn [fmul]. rewrite Ep. cbn [fneg fadd].
    destruct (round64_between (b + - p) a b) as (r & Er & R0 & R1 & Br);
      auto; try lra.
    exists r. repeat split; auto.
    pose proof (round64_err _ _ Ed) as D1.
    pose proof (round64_err _ _ Ep) as D2.
    pose proof (round64_err _ _ Er) as D3.
    assert (Hd0 : 0 <= d).
    { destruct (round64_between (b + - a) 0 (pow2 1022))
        as (d' & Ed' & D0 & _); [apply binary64_0 | apply pow2_binary64; lia
                                 | lra | lra |].
      rewrite Ed in Ed'. inversion Ed'; subst. exact D0. }
    rewrite (Qabs_pos (b + - a)) in D1 by lra.
    rewrite (Qabs_pos (d * w)) in D2 by nra.
    assert (HS3 : Qabs (b + - p) <= S).
    { apply Qabs_Qle_condition. unfold S. split; lra. }
    apply Qabs_Qle_condition in D1, D2, D3.
    apply Qabs_Qle_condition.
    assert (G : pow2 (-51) * S + pow2 (-1073)
                == 4 * (rel_err * S) + 4 * abs_err) by (rewrite He, Hn; ring).
    rewrite G.
    assert (Hw0 : 0 <= w) by lra. assert (Hw1 : w <= 1 # 2) by lra.
    assert (Hdx : d <= (b - a) * (1 + rel_err) + abs_err) by lra.
    assert (Kdw : d * w <= S + abs_err) by nra.
    assert (K1 : rel_err * (d * w) <= rel_err * S + abs_err) by nra.
    assert (K2 : (rel_err * (b + - a) + abs_err) * w
                 <= rel_err * S * (1 # 2) + abs_err * (1 # 2)) by nra.
    assert (K3 : rel_err * Qabs (b + - p) <= rel_err * S) by nra.
    assert (Ew' : t == 1 - w) by lra.
    assert (Eid : a + t * (b - a) == b - w * (b - a)) by (rewrite Ew'; ring).
    rewrite Eid.
    assert (T1 : - ((rel_err * (b + - a) + abs_err) * w) <= (d - (b + - a)) * w
                 /\ (d - (b + - a)) * w <= (rel_err * (b + - a) + abs_err) * w)
      by (split; nra).
    assert (Edec : r - (b - w * (b - a))
                   == (r - (b + - p)) - (p - d * w) - (d - (b + - a)) * w)
      by ring.
    assert (HES : 0 <= rel_err * S) by nra.
    rewrite Edec. split; lra.
  - assert (Hlt : t < 1 # 2).
    { apply Qnot_le_lt. intro H. apply Qle_bool_iff in H. congruence. }
    destruct (round_scaled a b t Ha Hb Hab Hmax) as (d & p & Ed & Ep & P0 & P1);
      [lra | lra |].
    rewrite Ed. cbn [fmul]. rewrite Ep. cbn [fadd].
    destruct (round64_between (a + p) a b) as (r & Er & R0 & R1 & Br);
      auto; try lra.
    exists r. repeat split; auto.
    pose proof (round64_err _ _ Ed) as D1.
    pose proof (round64_err _ _ Ep) as D2.
    pose proof (round64_err _ _ Er) as D3.
    assert (Hd0 : 0 <= d).
    { destruct (round64_between (b + - a) 0 (pow2 1022))
        as (d' & Ed' & D0 & _); [apply binary64_0 | apply pow2_binary64; lia
                                 | lra | lra |].
      rewrite Ed in Ed'. inversion Ed'; subst. exact D0. }
    rewrite (Qabs_pos (b + - a)) in D1 by lra.
    rewrite (Qabs_pos (d * t)) in D2 by nra.
    assert (HS3 : Qabs (a + p) <= S).
    { apply Qabs_Qle_condition. unfold S. split; lra. }
    apply Qabs_Qle_condition in D1, D2, D3.
    apply Qabs_Qle_condition.
    assert (G : pow2 (-51) * S + pow2 (-1073)
                == 4 * (rel_err * S) + 4 * abs_err) by (rewrite He, Hn; ring).
    rewrite G.
    assert (Hdx : d <= (b - a) * (1 + rel_err) + abs_err) by lra.
    assert (Kdw : d * t <= S + abs_err) by nra.
    assert (K1 : rel_err * (d * t) <= rel_err * S + abs_err) by nra.
    assert (K2 : (rel_err * (b + - a) + abs_err) * t
                 <= rel_err * S * (1 # 2) + abs_err * (1 # 2)) by nra.
    assert (K3 : rel_err * Qabs (a + p) <= rel_err * S) by nra.
    assert (T1 : - ((rel_err * (b + - a) + abs_err) * t) <= (d - (b + - a)) * t
                 /\ (d - (b + - a)) * t <= (rel_err * (b + - a) + abs_err) * t)
      by (split; nra).
    assert (Edec : r - (a + t * (b - a))
                   == (r - (a + p)) + (p - d * t) + (d - (b + - a)) * t)
      by ring.
    assert (HES : 0 <= rel_err * S) by nra.
    rewrite Edec. split; lra.
Qed.

(** The fence around two quartiles contains every value between them. *)
Definition float_ok (f : float_val) : Prop :=
  match f with
  | Finite v => binary64 v
  | _ => True
  end.

Lemma fence_contains (q1 q3 : float_val) (v : Q) :
  float_ok q1 -> float_ok q3 ->
  float_leb q1 (Finite v) = true -> float_leb (Finite v) q3 = true ->
  let iqr := fsub q3 q1 in
  float_leb (fsub q1 (fmul (Finite (3 # 2)) iqr)) (Finite v) = true
  /\ float_leb (Finite v) (fadd q3 (fmul (Finite (3 # 2)) iqr)) = true.
Proof.
  intros O1 O3 H1 H3. cbv zeta.
  destruct q1 as [a| | |]; try discriminate H1;
    destruct q3 as [b| | |]; try discriminate H3;
    cbn [float_ok] in O1, O3.
  - unfold float_leb in H1, H3. cbn [float_geb] in H1, H3.
    apply Qle_bool_iff in H1, H3.
    assert (Hiqr : float_leb (Finite 0) (fsub (Finite b) (Finite a)) = true).
    { cbn [fsub fneg fadd]. apply round64_ge; [apply binary64_0 | lra]. }
    destruct (fsub (Finite b) (Finite a)) as [d| | |];
      try discriminate Hiqr.
    + unfold float_leb in Hiqr. cbn [float_geb] in Hiqr.
      apply Qle_bool_iff in Hiqr. cbn [fmul].
      assert (Hk : float_leb (Finite 0) (round64 ((3 # 2) * d)) = true)
        by (apply round64_ge; [apply binary64_0 | lra]).
      destruct (round64 ((3 # 2) * d)) as [k| | |] eqn:Ek;
        try discriminate Hk.
      * unfold float_leb in Hk. cbn [float_geb] in Hk.
        apply Qle_bool_iff in Hk. cbn [fsub fneg fadd]. split.
        -- apply (float_leb_trans _ (Finite a)).
           ++ apply round64_le; [exact O1 | lra].
           ++ unfold float_leb. cbn [float_geb]. now apply Qle_bool_iff.
        -- apply (float_leb_trans _ (Finite b)).
           ++ unfold float_leb. cbn [float_geb]. now apply Qle_bool_iff.
           ++ apply round64_ge; [exact O3 | lra].
      * split; reflexivity.
    + cbn [fmul scale_inf].
      replace (Qlt_bool 0 (3 # 2)) with true by reflexivity.
      split; reflexivity.
  - split; reflexivity.
  - split; reflexivity.
  - split; reflexivity.
Qed.

(** *** The quartiles *)

(** The index below the virtual index of a quartile. *)
Lemma quartile_index (k : nat) (c : positive) :
  Z.to_nat (Qfloor (Qof_nat k * (Zpos c # 4)))
  = (Pos.to_nat c * k / 4)%nat.
Proof.
  unfold Qof_nat, inject_Z, Qmult, Qfloor. cbn [Qnum Qden].
  change (Z.pos (1 * 4)) with (Z.of_nat 4).
  replace (Z.of_nat k * Z.pos c)%Z with (Z.of_nat (Pos.to_nat c * k))
    by (rewrite Nat2Z.inj_mul, positive_nat_Z; lia).
  rewrite <- Nat2Z.inj_div. apply Nat2Z.id.
Qed.

(** The weight of a quartile is a multiple of a quarter below one. *)
Lemma quartile_weight (k : nat) (c : positive) :
  let h := Qof_nat k * (Zpos c # 4) in
  let gamma := h - inject_Z (Qfloor h) in
  0 <= gamma /\ gamma < 1 /\ binary64 (1 + - gamma).
Proof.
  intros h gamma.
  pose proof (Qfloor_le h) as H1. pose proof (Qlt_floor h) as H2.
  rewrite inject_Z_plus in H2.
  assert (G0 : 0 <= gamma) by (unfold gamma; lra).
  assert (G1 : gamma < 1) by (unfold gamma; change (inject_Z 1) with 1 in H2; lra).
  split; [exact G0|]. split; [exact G1|].
  apply dyadic64_binary64.
  set (M := (Z.of_nat k * Zpos c)%Z).
  assert (Eh : h == inject_Z M * (1 # 4)).
  { unfold h, M, Qof_nat. rewrite inject_Z_mult.
    unfold Qeq. cbn. lia. }
  set (F := Qfloor h) in *.
  set (j := (4 + - M + 4 * F)%Z).
  assert (Ej : 1 + - gamma == inject_Z j * pow2 (-2)).
  { unfold j, gamma. rewrite !inject_Z_plus, inject_Z_opp, inject_Z_mult, Eh.
    change (pow2 (-2)) with (1 # 4). change (inject_Z 4) with 4.
    ring. }
  exists j, (-2)%Z. split; [exact Ej|]. split; [|lia].
  assert (Hj0 : 0 < inject_Z j * pow2 (-2)) by (rewrite <- Ej; lra).
  assert (Hj1 : inject_Z j * pow2 (-2) <= 1) by (rewrite <- Ej; lra).
  change (pow2 (-2)) with (1 # 4) in Hj0, Hj1.
  assert (J0 : 0 < inject_Z j) by lra.
  assert (J1 : inject_Z j <= 4) by lra.
  change 0 with (inject_Z 0) in J0. change 4 with (inject_Z 4) in J1.
  rewrite <- Zlt_Qlt in J0. rewrite <- Zle_Qle in J1.
  rewrite Z.abs_eq by lia.
  assert (2 ^ 3 < 2 ^ 53)%Z by (apply Z.pow_lt_mono_r; lia).
  change (2 ^ 3)%Z with 8%Z in H. lia.
Qed.

(** A float that is not too large for a difference to overflow. *)
Definition float_cell (v : Q) : Prop :=
  binary64 v /\ - pow2 1021 <= v /\ v <= pow2 1021.

Lemma percentile_nonempty (vals : list Q) (q : Q) :
  vals <> [] ->
  percentile vals q
  = let s := sort_values vals in
    let n := length vals in
    let h := Qof_nat (n - 1) * q in
    let previous := Z.to_nat (Qfloor h) in
    let next := Nat.min (S previous) (n - 1) in
    let gamma := h - inject_Z (Qfloor h) in
    lerp (Finite (nth previous s 0)) (Finite (nth next s 0)) (Finite gamma).
Proof. destruct vals; [congruence | reflexivity]. Qed.

(** The exact quantile interpolates between the same two sorted values
    with the same weight. *)
Lemma quantile_values_weight (vals : list Q) (c : positive) :
  vals <> [] -> (Zpos c <= 4)%Z ->
  let s := sort_values vals in
  let n := length vals in
  let h := Qof_nat (n - 1) * (Zpos c # 4) in
  let i := Z.to_nat (Qfloor h) in
  let gamma := h - inject_Z (Qfloor h) in
  quantile_values vals (Zpos c # 4)
  == nth i s 0 + gamma * (nth (Nat.min (S i) (n - 1)) s 0 - nth i s 0).
Proof.
  intros Hne Hc s n h i gamma.
  unfold quantile_values, interpolate. fold s. fold n. fold h. cbv zeta.
  fold i. fold gamma.
  pose proof (Qfloor_le h) as F1. pose proof (Qlt_floor h) as F2.
  rewrite inject_Z_plus in F2. change (inject_Z 1) with 1 in F2.
  assert (Hn : (0 < n)%nat)
    by (unfold n; destruct vals; [congruence | cbn; lia]).
  assert (Hk : 0 <= Qof_nat (n - 1)).
  { unfold Qof_nat. change 0 with (inject_Z 0). rewrite <- Zle_Qle. lia. }
  assert (Hc0 : 0 <= Zpos c # 4) by (unfold Qle; cbn; lia).
  assert (Hc1 : Zpos c # 4 <= 1) by (unfold Qle; cbn; lia).
  assert (Hh0 : 0 <= h) by (unfold h; nra).
  assert (Hh1 : h <= Qof_nat (n - 1)) by (unfold h; nra).
  assert (Hf0 : (0 <= Qfloor h)%Z).
  { change 0%Z with (Qfloor 0). now apply Qfloor_resp_le. }
  destruct (Qlt_le_dec 0 gamma) as [Hg|Hg].
  - (* between two indices *)
    assert (Ec : Qceiling h = (Qfloor h + 1)%Z).
    { pose proof (Qle_ceiling h) as C1. pose proof (Qceiling_lt h) as C2.
      unfold Zminus in C2. rewrite inject_Z_plus in C2.
      assert (E1 : inject_Z (- (1)) == - (1)) by reflexivity.
      assert (inject_Z (Qfloor h) < inject_Z (Qceiling h))
        by (unfold gamma in Hg; lra).
      assert (inject_Z (Qceiling h) < inject_Z (Qfloor h) + 2) by lra.
      rewrite <- Zlt_Qlt in H.
      change 2 with (inject_Z 2) in H0.
      rewrite <- inject_Z_plus, <- Zlt_Qlt in H0. lia. }
    assert (Hlast : (S i <= n - 1)%nat).
    { assert (inject_Z (Qfloor h) < Qof_nat (n - 1))
        by (unfold gamma in Hg; lra).
      unfold Qof_nat in H. rewrite <- Zlt_Qlt in H. unfold i. lia. }
    rewrite Ec.
    replace (Z.to_nat (Qfloor h + 1)) with (S i) by (unfold i; lia).
    rewrite (Nat.min_l (S i) (n - 1)) by exact Hlast. reflexivity.
  - assert (Eg : gamma == 0) by (unfold gamma in *; lra).
    rewrite Eg. ring.
Qed.

(** A quartile of float cells lies between the sorted values next to its
    virtual index, within rounding of the exact quantile. *)
Lemma percentile_between (vals : list Q) (c : positive) :
  vals <> [] -> (Zpos c <= 4)%Z -> Forall float_cell vals ->
  let s := sort_values vals in
  let n := length vals in
  let i := (Pos.to_nat c * (n - 1) / 4)%nat in
  let lo := nth i s 0 in
  let hi := nth (Nat.min (S i) (n - 1)) s 0 in
  exists r, percentile vals (Zpos c # 4) = Finite r
            /\ lo <= r /\ r <= hi /\ binary64 r
            /\ Qabs (r - quantile_values vals (Zpos c # 4))
               <= pow2 (-51) * (Qabs lo + Qabs hi) + pow2 (-1073).
Proof.
  intros Hne Hc Hcells s n i lo hi.
  pose proof (quantile_values_weight vals c Hne Hc) as Hexact.
  cbv zeta in Hexact. fold s n in Hexact.
  rewrite (quartile_index (n - 1) c) in Hexact. fold i in Hexact.
  unfold lo, hi.
  rewrite (percentile_nonempty vals _ Hne). cbv zeta. fold s. fold n.
  rewrite (quartile_index (n - 1) c). fold i.
  destruct (quartile_weight (n - 1) c) as (G0 & G1 & Gb). cbv zeta in G0, G1, Gb.
  set (gamma := Qof_nat (n - 1) * (Zpos c # 4)
                - inject_Z (Qfloor (Qof_nat (n - 1) * (Zpos c # 4)))) in *.
  assert (Hn : (0 < n)%nat)
    by (unfold n; destruct vals; [congruence | cbn; lia]).
  assert (Hlen : length s = n) by (unfold s, sort_values; apply sort_by_length).
  assert (Hi : (i <= n - 1)%nat).
  { unfold i. apply Nat.Div0.div_le_upper_bound.
    assert (Pos.to_nat c <= 4)%nat by lia. nia. }
  set (i' := Nat.min (S i) (n - 1)).
  assert (Hi' : (i <= i' < n)%nat) by (unfold i'; lia).
  assert (Hcell : forall j, (j < n)%nat -> float_cell (nth j s 0)).
  { intros j Hj. rewrite Forall_forall in Hcells. apply Hcells.
    apply (proj1 (sort_by_In Qle_bool (nth j s 0) vals)). apply nth_In.
    change (j < length s)%nat. now rewrite Hlen. }
  destruct (Hcell i) as (Ba & La & Ua); [lia|].
  destruct (Hcell i') as (Bb & Lb & Ub); [lia|].
  assert (Hab : nth i s 0 <= nth i' s 0).
  { apply sorted_nth_le; [apply sort_values_sorted|].
    change (i <= i' < length s)%nat. rewrite Hlen. lia. }
  destruct (lerp_accurate (nth i s 0) (nth i' s 0) gamma)
    as (r & Er & R0 & R1 & Br & Racc); auto.
  { rewrite (pow2_succ 1021 : pow2 1022 == 2 * pow2 1021). lra. }
  exists r. split; [exact Er|]. split; [exact R0|]. split; [exact R1|].
  split; [exact Br|].
  fold i' in Hexact. fold gamma in Hexact.
  rewrite Hexact. exact Racc.
Qed.

(** C4: on a price column holding at least one value, all of them floats
    (of magnitude at most 2^1021, so that no difference overflows), the
    outlier step computes the quartiles Q1 and Q3 of the column: each
    lies between the sorted prices next to its position [(n-1)/4], resp.
    [3(n-1)/4], and differs from the exact 25th, resp. 75th, percentile
    by linear interpolation by no more than the rounding of three float
    operations.  Then it computes IQR = Q3 - Q1 and the fence
    [Q1 - 1.5 IQR, Q3 + 1.5 IQR] in float arithmetic; it keeps, in
    order, exactly the rows whose price lies within the fence, and so
    never removes a row whose price lies in [Q1, Q3]. *)
Theorem iqr_fence_keeps_middle (df : DataFrame) :
  let vals := dropna_cells (map price df) in
  let s := sort_values vals in
  let n := length vals in
  let lo1 := nth ((n - 1) / 4) s 0 in
  let hi1 := nth (Nat.min (S ((n - 1) / 4)) (n - 1)) s 0 in
  let lo3 := nth (3 * (n - 1) / 4) s 0 in
  let hi3 := nth (Nat.min (S (3 * (n - 1) / 4)) (n - 1)) s 0 in
  vals <> [] ->
  Forall float_cell vals ->
  exists q1 q3,
    WineTrendsAnalyzer.Q1 df = Finite q1
    /\ WineTrendsAnalyzer.Q3 df = Finite q3
    /\ (lo1 <= q1 /\ q1 <= hi1
        /\ Qabs (q1 - quantile_values vals (1 # 4))
           <= pow2 (-51) * (Qabs lo1 + Qabs hi1) + pow2 (-1073))
    /\ (lo3 <= q3 /\ q3 <= hi3
        /\ Qabs (q3 - quantile_values vals (3 # 4))
           <= pow2 (-51) * (Qabs lo3 + Qabs hi3) + pow2 (-1073))
    /\ WineTrendsAnalyzer.IQR df = fsub (Finite q3) (Finite q1)
    /\ WineTrendsAnalyzer.lower_bound df
       = fsub (Finite q1)
              (fmul (Finite (3 # 2)) (fsub (Finite q3) (Finite q1)))
    /\ WineTrendsAnalyzer.upper_bound df
       = fadd (Finite q3)
              (fmul (Finite (3 # 2)) (fsub (Finite q3) (Finite q1)))
    /\ WineTrendsAnalyzer.remove_outliers df
       = filter (fun r =>
                   match price r with
                   | Some v =>
                       float_leb (WineTrendsAnalyzer.lower_bound df)
                                 (Finite v)
                       && float_leb (Finite v)
                                    (WineTrendsAnalyzer.upper_bound df)
                   | None => false
                   end)
                df
    /\ (forall r v, In r df -> price r = Some v ->
          (In r (WineTrendsAnalyzer.remove_outliers df)
           <-> float_leb (WineTrendsAnalyzer.lower_bound df) (Finite v)
               = true
               /\ float_leb (Finite v) (WineTrendsAnalyzer.upper_bound df)
                  = true))
    /\ (forall r v, In r df -> price r = Some v ->
          q1 <= v -> v <= q3 ->
          In r (WineTrendsAnalyzer.remove_outliers df)).
Proof.
  intros vals s n lo1 hi1 lo3 hi3 Hne Hcells.
  destruct (percentile_between vals 1 Hne ltac:(lia) Hcells)
    as (q1 & E1 & L1 & U1 & B1 & A1).
  destruct (percentile_between vals 3 Hne ltac:(lia) Hcells)
    as (q3 & E3 & L3 & U3 & B3 & A3).
  cbv zeta in L1, U1, A1, L3, U3, A3.
  fold vals in L1, U1, A1, L3, U3, A3. fold s n in L1, U1, A1, L3, U3, A3.
  change (Pos.to_nat 1 * (n - 1))%nat with (1 * (n - 1))%nat in L1, U1, A1.
  rewrite Nat.mul_1_l in L1, U1, A1.
  change (Pos.to_nat 3) with 3%nat in L3, U3, A3.
  fold lo1 hi1 in L1, U1, A1. fold lo3 hi3 in L3, U3, A3.
  exists q1, q3.
  assert (EQ1 : WineTrendsAnalyzer.Q1 df = Finite q1) by exact E1.
  assert (EQ3 : WineTrendsAnalyzer.Q3 df = Finite q3) by exact E3.
  assert (Hin : forall r v, In r df -> price r = Some v ->
            (In r (WineTrendsAnalyzer.remove_outliers df)
             <-> float_leb (WineTrendsAnalyzer.lower_bound df) (Finite v)
                 = true
                 /\ float_leb (Finite v) (WineTrendsAnalyzer.upper_bound df)
                    = true)).
  { intros r v Hr Hv. unfold WineTrendsAnalyzer.remove_outliers.
    rewrite filter_In. unfold WineTrendsAnalyzer.within_bounds.
    rewrite Hv, andb_true_iff. tauto. }
  split; [exact EQ1|]. split; [exact EQ3|].
  split; [repeat split; assumption|]. split; [repeat split; assumption|].
  split; [unfold WineTrendsAnalyzer.IQR; now rewrite EQ1, EQ3|].
  split.
  { unfold WineTrendsAnalyzer.lower_bound, WineTrendsAnalyzer.IQR.
    now rewrite EQ1, EQ3. }
  split.
  { unfold WineTrendsAnalyzer.upper_bound, WineTrendsAnalyzer.IQR.
    now rewrite EQ1, EQ3. }
  split; [reflexivity|].
  split; [exact Hin|].
  intros r v Hr Hv H1 H3. apply (Hin r v Hr Hv).
  unfold WineTrendsAnalyzer.lower_bound, WineTrendsAnalyzer.upper_bound,
    WineTrendsAnalyzer.IQR.
  rewrite EQ1, EQ3.
  apply (fence_contains (Finite q1) (Finite q3) v); cbn [float_ok]; auto;
    unfold float_leb; cbn [float_geb]; now apply Qle_bool_iff.
Qed.

Lemma iqr_fence_keeps_middle_witness :
  let df := [review "Brazil" 88 10 "Merlot" "A";
             review "Chile" 90 20 "Syrah" "B";
             review "Chile" 91 30 "Syrah" "C";
             review "Italy" 95 1000 "Nebbiolo" "D"] in
  exists q1 q3,
    WineTrendsAnalyzer.Q1 df = Finite q1
    /\ WineTrendsAnalyzer.Q3 df = Finite q3
    /\ (10 <= q1 /\ q1 <= 20)
    /\ (30 <= q3 /\ q3 <= 1000)
    /\ forall r v, In r df -> price r = Some v ->
         q1 <= v -> v <= q3 ->
         In r (WineTrendsAnalyzer.remove_outliers df).
Proof.
  intro df.
  destruct (iqr_fence_keeps_middle df) as (q1 & q3 & E1 & E3 & B1 & B3 & H).
  - discriminate.
  - repeat constructor; vm_compute; try reflexivity; discriminate.
  - exists q1, q3. split; [exact E1|]. split; [exact E3|].
    split; [exact (conj (proj1 B1) (proj1 (proj2 B1)))|].
    split; [exact (conj (proj1 B3) (proj1 (proj2 B3)))|]. apply H.
Defined.

Lemma fadd_ok (a b : float_val) : float_ok (fadd a b).
Proof.
  destruct a as [x| | |], b as [y| | |]; cbn [fadd float_ok]; trivial.
  destruct (round64 (x + y)) as [v| | |] eqn:E; cbn [float_ok]; trivial.
  now apply (round64_binary64 (x + y)).
Qed.

Lemma percentile_ok (vals : list Q) (q : Q) : float_ok (percentile vals q).
Proof.
  unfold percentile. destruct vals as [|v vs]; [exact I|].
  cbv zeta. unfold lerp. destruct (float_geb _ _); [unfold fsub|];
    apply fadd_ok.
Qed.

(** Whatever the column, overflowing quartiles included, a row whose
    price lies between the two quartiles is kept. *)
Lemma fence_keeps_between_quartiles (df : DataFrame) (r : wine_row) (v : Q) :
  In r df -> price r = Some v ->
  float_leb (WineTrendsAnalyzer.Q1 df) (Finite v) = true ->
  float_leb (Finite v) (WineTrendsAnalyzer.Q3 df) = true ->
  In r (WineTrendsAnalyzer.remove_outliers df).
Proof.
  intros Hr Hv H1 H3. unfold WineTrendsAnalyzer.remove_outliers.
  apply filter_In. split; [exact Hr|].
  unfold WineTrendsAnalyzer.within_bounds. rewrite Hv.
  apply andb_true_iff.
  unfold WineTrendsAnalyzer.lower_bound, WineTrendsAnalyzer.upper_bound,
    WineTrendsAnalyzer.IQR.
  apply fence_contains; auto;
    unfold WineTrendsAnalyzer.Q1, WineTrendsAnalyzer.Q3, float_quantile;
    apply percentile_ok.
Qed.

(** The bound itself is rounded: on the prices 0.1, 0.1, 0.2, 0.2 and
    0.35 (the floats nearest to these decimals) the quartiles are 0.1
    and 0.2, and the upper bound 0.2 + 1.5 * (0.2 - 0.1) comes out as
    the float above 0.35, so the last row is kept. *)
Example fence_bound_is_rounded :
  let tenth := 3602879701896397 # 36028797018963968 in
  let fifth := 3602879701896397 # 18014398509481984 in
  let top := 3152519739159347 # 9007199254740992 in
  let df := [review "Brazil" 85 tenth "Merlot" "A";
             review "Brazil" 86 tenth "Merlot" "B";
             review "Chile" 87 fifth "Syrah" "C";
             review "Chile" 88 fifth "Syrah" "D";
             review "Italy" 89 top "Nebbiolo" "E"] in
  binary64 tenth /\ binary64 fifth /\ binary64 top
  /\ float_eqb (round64 (35 # 100)) (Finite top) = true
  /\ float_eqb (WineTrendsAnalyzer.upper_bound df)
               (Finite (6305039478318695 # 18014398509481984)) = true
  /\ top < 6305039478318695 # 18014398509481984
  /\ (2 # 10) + (3 # 2) * ((2 # 10) - (1 # 10)) == (35 # 100)
  /\ WineTrendsAnalyzer.remove_outliers df = df.
Proof. vm_compute. repeat split; reflexivity. Qed.

(** On that frame: Q1 = 17.5, Q3 = 272.5, and only the row priced 1000
    falls outside the fence. *)
Example remove_outliers_example :
  map title
      (WineTrendsAnalyzer.remove_outliers
         [review "Brazil" 88 10 "Merlot" "A";
          review "Chile" 90 20 "Syrah" "B";
          review "Chile" 91 30 "Syrah" "C";
          review "Italy" 95 1000 "Nebbiolo" "D"])
  = [Some "A"; Some "B"; Some "C"]%string.
Proof. vm_compute. reflexivity. Qed.

(** ** Sums over rows *)

Section Sums.
Context {A : Type}.
Implicit Types (f g : A -> Q) (l : list A).

Lemma sum_over_nil f : sum_over f [] = 0.
Proof. reflexivity. Qed.

Lemma sum_over_cons f a l : sum_over f (a :: l) = f a + sum_over f l.
Proof. reflexivity. Qed.

End Sums.

(** ** Projections *)




(** * Further properties *)

(** ** Rating categories *)

(** X1: the rating bucketizer gives a label exactly to the points in
    (0, 100]: up to 82 the first label, then (82, 87], (87, 90], (90, 95]
    and (95, 100]; points of 0 or less, or above 100, get none. *)
Theorem rating_category_ranges (x : Q) :
  (rating_category_of x = None <-> x <= 0 \/ 100 < x)
  /\ (rating_category_of x = Some "Aceitável (80-82)"%string
      <-> 0 < x /\ x <= 82)
  /\ (rating_category_of x = Some "Bom (83-87)"%string
      <-> 82 < x /\ x <= 87)
  /\ (rating_category_of x = Some "Muito Bom (88-90)"%string
      <-> 87 < x /\ x <= 90)
  /\ (rating_category_of x = Some "Excelente (91-95)"%string
      <-> 90 < x /\ x <= 95)
  /\ (rating_category_of x = Some "Excepcional (96-100)"%string
      <-> 95 < x /\ x <= 100).
Proof.
  unfold rating_category_of, cut, rating_bins, rating_labels.
  cbn [searchsorted_left edge_ltb length].
  destruct (Qlt_bool 0 x) eqn:E0;
    [destruct (Qlt_bool 82 x) eqn:E1;
     [destruct (Qlt_bool 87 x) eqn:E2;
      [destruct (Qlt_bool 90 x) eqn:E3;
       [destruct (Qlt_bool 95 x) eqn:E4;
        [destruct (Qlt_bool 100 x) eqn:E5|]|]|]|]|];
    reflect_cmp; cbn;
    repeat split; intros; try discriminate; try reflexivity;
    repeat match goal with
      | H : _ /\ _ |- _ => destruct H
      | H : _ \/ _ |- _ => destruct H
      end;
    try lra; try (left; lra); try (right; lra).
Qed.

(** ** Rows without a price category *)

Lemma price_category_present (x : Q) :
  is_some (cut price_bins price_labels x) = Qlt_bool 0 x.
Proof.
  unfold cut, price_bins, price_labels.
  cbn [searchsorted_left edge_ltb length].
  destruct (Qlt_bool 0 x) eqn:E0; [|reflexivity].
  destruct (Qlt_bool 15 x); [|reflexivity].
  destruct (Qlt_bool 30 x); [|reflexivity].
  destruct (Qlt_bool 50 x); [|reflexivity].
  destruct (Qlt_bool 100 x); reflexivity.
Qed.

(** X2: whatever the raw frame, the group counts of the price analysis
    add up to the number of cleaned rows whose price is above 0; a row
    priced 0 or less is counted in no group. *)
Theorem group_counts_positive_prices (raw : DataFrame) :
  let df := WineTrendsAnalyzer.clean raw in
  list_sum (map WineTrendsAnalyzer.points_count
                (WineTrendsAnalyzer.price_analysis df))
  = length (filter (fun r => cell_test (Qlt_bool 0) (price r)) df).
Proof.
  intro df. unfold df. rewrite group_counts_sum. fold df.
  f_equal. apply filter_ext_in. intros r Hr.
  apply clean_row in Hr as (_ & _ & Hc & _). rewrite Hc.
  destruct (price r) as [p|]; cbn [cut_cell cell_test is_some];
    [apply price_category_present | reflexivity].
Qed.

(** ** Errors of the trends report *)

Lemma clean_nil_when_incomplete (raw : DataFrame) :
  (forall r, In r raw -> points r = None \/ price r = None) ->
  WineTrendsAnalyzer.clean raw = [].
Proof.
  intro Hinc. unfold WineTrendsAnalyzer.clean.
  assert (E : WineTrendsAnalyzer.dropna_points_price raw = []).
  { unfold WineTrendsAnalyzer.dropna_points_price.
    induction raw as [|r raw IH]; [reflexivity|]. cbn [filter].
    destruct (Hinc r (or_introl eq_refl)) as [E|E]; rewrite E;
      cbn [is_some andb]; try rewrite andb_false_r;
      apply IH; intros r' Hr'; apply Hinc; now right. }
  rewrite E. reflexivity.
Qed.

(** X3: when no row of the file has both points and price (an empty file
    included), cleaning leaves an empty frame and the trends report
    raises ZeroDivisionError on its first percentage. *)
Theorem trends_raise_on_empty_frame (raw : DataFrame) :
  (forall r, In r raw -> points r = None \/ price r = None) ->
  WineTrendsAnalyzer.clean raw = []
  /\ WineTrendsAnalyzer.identify_purchase_trends
       (WineTrendsAnalyzer.clean raw)
     = Raised ZeroDivisionError.
Proof.
  intro Hinc. rewrite (clean_nil_when_incomplete raw Hinc).
  split; reflexivity.
Qed.

Lemma trends_raise_on_empty_frame_witness :
  let raw := [mk_wine (Some "Brazil"%string) (Some 88) None
                      (Some "Merlot"%string) (Some "Reserva"%string)
                      None None] in
  WineTrendsAnalyzer.clean raw = []
  /\ WineTrendsAnalyzer.identify_purchase_trends
       (WineTrendsAnalyzer.clean raw)
     = Raised ZeroDivisionError.
Proof.
  apply (trends_raise_on_empty_frame
           [mk_wine (Some "Brazil"%string) (Some 88) None
                    (Some "Merlot"%string) (Some "Reserva"%string)
                    None None]).
  intros r [<-|[]]. right. reflexivity.
Defined.

(** A frame as [clean_data] leaves it: points and price present in every
    row, and the two category columns filled in from them. *)
Definition cleaned (df : DataFrame) : Prop :=
  Forall (fun r =>
            is_some (points r) = true /\ is_some (price r) = true
            /\ price_category r = cut_cell price_bins price_labels (price r)
            /\ rating_category r
               = cut_cell rating_bins rating_labels (points r))
         df.

Lemma clean_cleaned (raw : DataFrame) : cleaned (WineTrendsAnalyzer.clean raw).
Proof. apply Forall_forall. intros r Hr. exact (clean_row raw r Hr). Qed.

(** X4: on a cleaned frame that is not empty the trends report returns
    whenever every row rated 90 or more has a title (the slice of a
    missing title is the one [TypeError] of the report); the sweet spot
    it returns holds, in frame order, the rows with at least 88 points
    and a price of at most 30. *)
Theorem trends_return_when_titled (df : DataFrame) :
  cleaned df ->
  df <> [] ->
  (forall r, In r df -> cell_test (Qle_bool 90) (points r) = true ->
             title r <> None) ->
  exists t,
    WineTrendsAnalyzer.identify_purchase_trends df = Returned t
    /\ WineTrendsAnalyzer.trends_sweet_spot t
       = filter (fun r => cell_test (Qle_bool 88) (points r)
                          && cell_test (fun p => Qle_bool p 30) (price r))
                df.
Proof.
  intros _ Hne Htitle. unfold WineTrendsAnalyzer.identify_purchase_trends.
  destruct df as [|r0 df0]; [congruence|].
  set (df := r0 :: df0) in *.
  replace (forallb (fun r => is_some (title r))
                   (WineTrendsAnalyzer.best_premium df)) with true.
  - eexists. split; reflexivity.
  - symmetry. apply forallb_forall. intros r Hr.
    unfold WineTrendsAnalyzer.best_premium in Hr. apply nlargest_In in Hr.
    apply filter_In in Hr as [Hin Hp].
    specialize (Htitle r Hin Hp).
    destruct (title r); [reflexivity|congruence].
Qed.

Lemma trends_return_when_titled_witness :
  let df := WineTrendsAnalyzer.clean
              [review "Brazil" 91 20 "Merlot" "Reserva"] in
  exists t,
    WineTrendsAnalyzer.identify_purchase_trends df = Returned t
    /\ WineTrendsAnalyzer.trends_sweet_spot t
       = filter (fun r => cell_test (Qle_bool 88) (points r)
                          && cell_test (fun p => Qle_bool p 30) (price r))
                df.
Proof.
  apply (trends_return_when_titled
           (WineTrendsAnalyzer.clean
              [review "Brazil" 91 20 "Merlot" "Reserva"])).
  - apply clean_cleaned.
  - vm_compute. discriminate.
  - intros r Hr _.
    assert (E : title r = Some "Reserva"%string);
      [|rewrite E; discriminate].
    vm_compute in Hr. destruct Hr as [<-|[]]. reflexivity.
Defined.

(** ** Sorted output *)

Section SortedFacts.
Context {A : Type} (leb : A -> A -> bool) (P : A -> Prop).
Hypothesis leb_total :
  forall x y, P x -> P y -> leb x y = true \/ leb y x = true.
Hypothesis leb_trans :
  forall x y z, P x -> P y -> P z ->
                leb x y = true -> leb y z = true -> leb x z = true.

Let ordered (a b : A) : Prop := leb a b = true.

Lemma insert_by_sorted (x : A) (l : list A) :
  P x -> Forall P l ->
  StronglySorted ordered l -> StronglySorted ordered (insert_by leb x l).
Proof.
  intros Hx Hl Hs. induction Hs as [|y t Ht IH Hy]; cbn.
  - repeat constructor.
  - inversion Hl as [|? ? Py Pt]; subst.
    destruct (leb x y) eqn:E.
    + constructor; [now constructor|].
      constructor; [exact E|].
      rewrite Forall_forall in *. intros z Hz.
      apply (leb_trans x y z); auto. apply Hy. exact Hz.
    + constructor; [now apply IH|].
      eapply Permutation_Forall.
      * symmetry. apply insert_by_perm.
      * constructor; [|exact Hy].
        destruct (leb_total x y Hx Py) as [H|H]; [congruence | exact H].
Qed.

Lemma sort_by_sorted (l : list A) :
  Forall P l -> StronglySorted ordered (sort_by leb l).
Proof.
  induction 1 as [|x t Hx Ht IH]; cbn.
  - constructor.
  - apply insert_by_sorted; [exact Hx | | exact IH].
    eapply Permutation_Forall; [symmetry; apply sort_by_perm | exact Ht].
Qed.
End SortedFacts.

Lemma sorted_weaken {A : Type} (R R' : A -> A -> Prop) (l : list A) :
  (forall a b, R a b -> R' a b) ->
  StronglySorted R l -> StronglySorted R' l.
Proof.
  intros HR. induction 1 as [|a l Hs IH Ha]; constructor; [exact IH|].
  eapply Forall_impl; [|exact Ha]. intros b. apply HR.
Qed.

(** In a sorted list every element of a prefix is in order with every
    element of the rest. *)
Lemma sorted_app_order {A : Type} (R : A -> A -> Prop) (l1 l2 : list A) :
  StronglySorted R (l1 ++ l2) ->
  forall x y, In x l1 -> In y l2 -> R x y.
Proof.
  induction l1 as [|a l1 IH]; intros Hs x y Hx Hy; [destruct Hx|].
  cbn in Hs. inversion Hs as [|? ? Hs' Ha]; subst.
  destruct Hx as [<-|Hx].
  - rewrite Forall_forall in Ha. apply Ha. apply in_or_app. now right.
  - now apply IH.
Qed.

Lemma sorted_app_l {A : Type} (R : A -> A -> Prop) (l1 l2 : list A) :
  StronglySorted R (l1 ++ l2) -> StronglySorted R l1.
Proof.
  induction l1 as [|a l1 IH]; intro Hs; [constructor|].
  cbn in Hs. inversion Hs as [|? ? Hs' Ha]; subst.
  constructor; [now apply IH|].
  rewrite Forall_forall in *. intros z Hz. apply Ha.
  apply in_or_app. now left.
Qed.

Lemma head_skipn {A : Type} (n : nat) (l : list A) :
  head n l ++ skipn n l = l.
Proof. apply firstn_skipn. Qed.

Lemma head_sorted {A : Type} (R : A -> A -> Prop) (n : nat) (l : list A) :
  StronglySorted R l -> StronglySorted R (head n l).
Proof.
  intro Hs. apply (sorted_app_l R _ (skipn n l)). now rewrite head_skipn.
Qed.

(** ** Counting values *)

Lemma unique_In (x : string) (l : list string) : In x (unique l) <-> In x l.
Proof.
  induction l as [|y t IH]; cbn; [tauto|].
  rewrite filter_In, IH, negb_true_iff. split.
  - intros [->|[Hin _]]; auto.
  - intros [->|Hin]; [now left|].
    destruct (String.eqb y x) eqn:E.
    + apply String.eqb_eq in E. now left.
    + right. now split.
Qed.

Lemma unique_NoDup (l : list string) : NoDup (unique l).
Proof.
  induction l as [|y t IH]; cbn; constructor.
  - rewrite filter_In, negb_true_iff, String.eqb_refl. intros [_ H].
    discriminate.
  - now apply NoDup_filter.
Qed.

Lemma count_str_cons (k x : string) (l : list string) :
  count_str k (x :: l)
  = ((if str_cell_eqb (Some x) k then 1 else 0) + count_str k l)%nat.
Proof.
  unfold count_str. cbn [filter str_cell_eqb].
  rewrite (String.eqb_sym k x). destruct (String.eqb x k); reflexivity.
Qed.

(** Counts over pairwise distinct keys add up to the cells that hold one
    of the keys. *)
Lemma count_str_sum (keys l : list string) :
  NoDup keys ->
  list_sum (map (fun k => count_str k l) keys)
  = length (filter (fun x => existsb (String.eqb x) keys) l).
Proof.
  intro Hnd. induction l as [|x l IH].
  - cbn [filter length]. induction keys as [|k keys IHk]; [reflexivity|].
    cbn [map]. rewrite list_sum_cons, IHk; [reflexivity|].
    now inversion Hnd.
  - rewrite (map_ext _ _ (fun k => count_str_cons k x l)).
    rewrite list_sum_map_add, IH, (indicator_sum keys (Some x) Hnd).
    cbn [labelled filter].
    destruct (existsb (String.eqb x) keys); reflexivity.
Qed.

Lemma count_str_pos (k : string) (l : list string) :
  In k l <-> (0 < count_str k l)%nat.
Proof.
  unfold count_str. induction l as [|x l IH]; cbn [filter In length].
  - split; [tauto | lia].
  - destruct (String.eqb k x) eqn:E.
    + apply String.eqb_eq in E. subst. cbn. split; [lia | auto].
    + apply String.eqb_neq in E. rewrite <- IH. split.
      * intros [H|H]; [congruence | exact H].
      * auto.
Qed.

(** What [value_counts] returns: one entry per distinct value, with the
    number of cells holding it, by decreasing count; the counts add up
    to the number of non-missing cells. *)
Lemma value_counts_spec (col : list (option string)) :
  let vals := dropna_cells col in
  let vc := value_counts col in
  NoDup (map fst vc)
  /\ (forall k, In k (map fst vc) <-> In k vals)
  /\ (forall k n, In (k, n) vc -> n = count_str k vals /\ (0 < n)%nat)
  /\ StronglySorted (fun a b => (snd b <= snd a)%nat) vc
  /\ list_sum (map snd vc) = length vals.
Proof.
  intros vals vc. unfold vc, value_counts. fold vals.
  set (leb := fun a b : string * nat => (snd b <=? snd a)%nat).
  set (entries := map (fun k => (k, count_str k vals)) (unique vals)).
  pose proof (sort_by_perm leb entries) as Hperm.
  assert (Hkeys : map fst entries = unique vals).
  { unfold entries. rewrite map_map. cbn [fst]. apply map_id. }
  assert (Hentry : forall k n, In (k, n) entries ->
                     n = count_str k vals /\ In k vals).
  { intros k n Hin. unfold entries in Hin.
    apply in_map_iff in Hin as [k' [E Hk]]. inversion E; subst.
    split; [reflexivity | now apply unique_In]. }
  split; [|split; [|split; [|split]]].
  - eapply Permutation_NoDup.
    + symmetry. apply Permutation_map. exact Hperm.
    + rewrite Hkeys. apply unique_NoDup.
  - intro k. rewrite <- (unique_In k vals), <- Hkeys. split; apply Permutation_in;
      apply Permutation_map; [exact Hperm | symmetry; exact Hperm].
  - intros k n Hin. apply (Permutation_in _ Hperm) in Hin.
    destruct (Hentry k n Hin) as [-> Hk]. split; [reflexivity|].
    now apply count_str_pos.
  - apply (sorted_weaken (fun a b => leb a b = true)).
    { intros a b. unfold leb. apply Nat.leb_le. }
    apply (sort_by_sorted leb (fun _ => True)).
    + intros x y _ _. unfold leb.
      destruct (Nat.le_ge_cases (snd y) (snd x)) as [H|H];
        [left | right]; now apply Nat.leb_le.
    + intros x y z _ _ _. unfold leb. rewrite !Nat.leb_le. lia.
    + apply Forall_forall. trivial.
  - rewrite (Permutation_map snd Hperm) at 1.
    unfold entries. rewrite map_map. cbn [snd].
    rewrite (count_str_sum (unique vals) vals (unique_NoDup vals)).
    f_equal. apply filter_all. intros x Hx.
    apply existsb_eqb_In. now apply unique_In.
Qed.

Lemma count_str_rows (by_col : wine_row -> option string) (k : string)
  (df : DataFrame) :
  count_str k (dropna_cells (map by_col df))
  = length (WineTrendsAnalyzer.group_rows by_col k df).
Proof.
  unfold WineTrendsAnalyzer.group_rows.
  induction df as [|r df IH]; [reflexivity|]. cbn [map dropna_cells filter].
  destruct (by_col r) as [v|]; cbn [str_cell_eqb]; [|exact IH].
  rewrite count_str_cons. cbn [str_cell_eqb].
  destruct (String.eqb v k); cbn [length]; rewrite IH; reflexivity.
Qed.

Lemma list_sum_head_le (n : nat) (l : list nat) :
  (list_sum (head n l) <= list_sum l)%nat.
Proof.
  rewrite <- (head_skipn n l) at 2. rewrite list_sum_app. lia.
Qed.

(** The first [n] entries of [value_counts]: at most [n] distinct values
    with their counts, by decreasing count, no value left out having a
    larger count than a listed one. *)
Lemma value_counts_head (n : nat) (col : list (option string)) :
  let vals := dropna_cells col in
  let top := head n (value_counts col) in
  (length top <= n)%nat
  /\ NoDup (map fst top)
  /\ (forall k c, In (k, c) top -> c = count_str k vals /\ (0 < c)%nat)
  /\ StronglySorted (fun a b => (snd b <= snd a)%nat) top
  /\ (forall k, In k vals -> ~ In k (map fst top) ->
        forall e, In e top -> (count_str k vals <= snd e)%nat)
  /\ (list_sum (map snd top) <= length vals)%nat.
Proof.
  intros vals top.
  destruct (value_counts_spec col) as (Hnd & Hkeys & Hcount & Hsorted & Hsum).
  fold vals in Hkeys, Hcount, Hsum.
  set (vc := value_counts col) in *.
  assert (Hsplit : top ++ skipn n vc = vc) by apply head_skipn.
  split; [apply firstn_le_length|].
  split.
  { rewrite <- Hsplit, map_app in Hnd. now apply NoDup_app_remove_r in Hnd. }
  split.
  { intros k c Hin. apply Hcount. now apply head_In in Hin. }
  split; [now apply head_sorted|].
  split.
  { intros k Hk Hnot e He.
    apply Hkeys in Hk. apply in_map_iff in Hk as [[k' c] [Ek Hin]].
    cbn in Ek. subst k'.
    destruct (Hcount k c Hin) as [Hc _]. rewrite <- Hc.
    rewrite <- Hsplit in Hin, Hsorted.
    apply in_app_or in Hin as [Hin|Hin].
    - exfalso. apply Hnot. apply in_map_iff. now exists (k, c).
    - apply (sorted_app_order _ _ _ Hsorted e (k, c) He Hin). }
  rewrite <- Hsum. unfold top, head. rewrite <- firstn_map.
  apply list_sum_head_le.
Qed.

(** ** The Brazil summary *)

(** X5: [analyze_wine_reviews] reads the file only when the object holds
    no reviews yet.  With reviews in place the call prints nothing,
    leaves the object as it is and does the same under every file
    system; what it returns is the analysis of the reviews held.
    Without reviews it runs the loader first: after a failed read it
    returns [None] behind the loader's diagnostic, after a successful
    one it goes on exactly as a call on the object that holds the
    loaded frame, behind the loader's message. *)
Theorem analyze_loads_when_needed (FS : FileSystem) (self : DataProcessor.t) :
  match DataProcessor.wine_reviews self with
  | Some df =>
      (exists r,
         DataProcessor.analyze_wine_reviews self = (r, self, [])
         /\ forall v, r = Returned v -> v = Some (DataProcessor.analyze df))
      /\ forall FS' : FileSystem,
           @DataProcessor.analyze_wine_reviews FS' self
           = @DataProcessor.analyze_wine_reviews FS self
  | None =>
      match read_csv (DataProcessor.join (DataProcessor.data_path self)
                                         DataProcessor.reviews_file) with
      | Returned df =>
          DataProcessor.analyze_wine_reviews self
          = (let '(r, self', out) :=
               DataProcessor.analyze_wine_reviews
                 (DataProcessor.mk (DataProcessor.data_path self) (Some df)
                                   (DataProcessor.embrapa_data self)) in
             (r, self', ReviewsLoaded (length df) :: out))
      | Raised e =>
          DataProcessor.analyze_wine_reviews self
          = (Returned None, self, [ReviewsError e])
      end
  end.
Proof.
  destruct self as [path reviews sheet].
  unfold DataProcessor.analyze_wine_reviews, DataProcessor.load_wine_reviews,
    try_except, bind, call, get, put, print, ret.
  cbn [DataProcessor.wine_reviews DataProcessor.data_path
         DataProcessor.embrapa_data].
  destruct reviews as [df|].
  - split; [|reflexivity].
    eexists. split; [reflexivity|]. intros v E. now inversion E.
  - destruct (read_csv _); reflexivity.
Qed.

(** X6: on a frame without a review from Brazil the summary counts 0
    reviews, both means and both ends of the price range are NaN and no
    variety is listed; nothing is raised. *)
Theorem summary_without_brazil (df : DataFrame) :
  (forall r, In r df -> country r <> Some "Brazil"%string) ->
  DataProcessor.analyze df
  = DataProcessor.mk_analysis 0 None None (None, None) [].
Proof.
  intro Hno. unfold DataProcessor.analyze.
  assert (E : DataProcessor.brazilian_wines df = []).
  { unfold DataProcessor.brazilian_wines.
    induction df as [|r df IH]; [reflexivity|]. cbn [filter].
    pose proof (Hno r (or_introl eq_refl)) as Hr.
    destruct (country r) as [c|] eqn:Ec; cbn [str_cell_eqb].
    - destruct (String.eqb c "Brazil") eqn:Eb.
      + apply String.eqb_eq in Eb. congruence.
      + apply IH. intros r' Hr'. apply Hno. now right.
    - apply IH. intros r' Hr'. apply Hno. now right. }
  rewrite E. reflexivity.
Qed.

Lemma summary_without_brazil_witness :
  DataProcessor.analyze [review "Chile" 90 30 "Carmenere" "Gran Reserva"]
  = DataProcessor.mk_analysis 0 None None (None, None) [].
Proof.
  apply (summary_without_brazil
           [review "Chile" 90 30 "Carmenere" "Gran Reserva"]).
  intros r [<-|[]]. discriminate.
Defined.

Lemma dropna_cells_In {A B : Type} (f : A -> option B) (l : list A) (b : B) :
  In b (dropna_cells (map f l)) <-> exists a, In a l /\ f a = Some b.
Proof.
  induction l as [|x l IH]; cbn [map dropna_cells].
  - split; [intros [] | intros (a & [] & _)].
  - destruct (f x) as [y|] eqn:E; cbn [In]; rewrite IH; split.
    + intros [<-|(a & Ha & Hf)]; [exists x; auto | exists a; auto].
    + intros (a & [<-|Ha] & Hf); [left; congruence | right; exists a; auto].
    + intros (a & Ha & Hf). exists a. auto.
    + intros (a & [<-|Ha] & Hf); [congruence | exists a; auto].
Qed.

Lemma str_cell_eqb_eq (c : option string) (s : string) :
  str_cell_eqb c s = true <-> c = Some s.
Proof.
  destruct c as [v|]; cbn [str_cell_eqb].
  - rewrite String.eqb_eq. split; congruence.
  - split; discriminate.
Qed.

Lemma Qmin_list_le (l : list Q) (x : Q) :
  Qmin_list x l <= x /\ forall y, In y l -> Qmin_list x l <= y.
Proof.
  unfold Qmin_list. revert x. induction l as [|z l IH]; intro x; cbn.
  - split; [lra | tauto].
  - destruct (Qlt_bool z x) eqn:E; reflect_cmp.
    + destruct (IH z) as [H1 H2]. split; [lra|].
      intros y [<-|Hy]; [exact H1 | now apply H2].
    + destruct (IH x) as [H1 H2]. split; [exact H1|].
      intros y [<-|Hy]; [lra | now apply H2].
Qed.

Lemma Qmax_list_ge (l : list Q) (x : Q) :
  x <= Qmax_list x l /\ forall y, In y l -> y <= Qmax_list x l.
Proof.
  unfold Qmax_list. revert x. induction l as [|z l IH]; intro x; cbn.
  - split; [lra | tauto].
  - destruct (Qlt_bool x z) eqn:E; reflect_cmp.
    + destruct (IH z) as [H1 H2]. split; [lra|].
      intros y [<-|Hy]; [exact H1 | now apply H2].
    + destruct (IH x) as [H1 H2]. split; [exact H1|].
      intros y [<-|Hy]; [lra | now apply H2].
Qed.

Lemma Qmin_list_In (l : list Q) (x : Q) : In (Qmin_list x l) (x :: l).
Proof.
  unfold Qmin_list. revert x. induction l as [|z l IH]; intro x; cbn [fold_left].
  - now left.
  - destruct (Qlt_bool z x).
    + right. apply IH.
    + destruct (IH x) as [H|H]; [left; exact H | right; right; exact H].
Qed.

Lemma Qmax_list_In (l : list Q) (x : Q) : In (Qmax_list x l) (x :: l).
Proof.
  unfold Qmax_list. revert x. induction l as [|z l IH]; intro x; cbn [fold_left].
  - now left.
  - destruct (Qlt_bool x z).
    + right. apply IH.
    + destruct (IH x) as [H|H]; [left; exact H | right; right; exact H].
Qed.

(** X7: the price range of the Brazil summary spans the prices of the
    reviews from Brazil: when some of them has a price, the range is
    (lo, hi) where lo and hi are prices of reviews from Brazil and every
    priced review from Brazil lies between them; when none has, both
    ends are NaN. *)
Theorem price_range_spans_prices (df : DataFrame) :
  let brazil_price := fun p =>
    exists r, In r df /\ country r = Some "Brazil"%string
              /\ price r = Some p in
  match DataProcessor.price_range (DataProcessor.analyze df) with
  | (Some lo, Some hi) =>
      brazil_price lo /\ brazil_price hi
      /\ forall p, brazil_price p -> lo <= p /\ p <= hi
  | (None, None) =>
      forall r, In r df -> country r = Some "Brazil"%string ->
                price r = None
  | _ => False
  end.
Proof.
  intro brazil_price. unfold DataProcessor.analyze.
  cbn [DataProcessor.price_range].
  unfold series_min, series_max.
  set (brazilian := DataProcessor.brazilian_wines df).
  assert (Hcells : forall p, In p (dropna_cells (map price brazilian)) <->
                             brazil_price p).
  { intro p. rewrite dropna_cells_In. unfold brazil_price, brazilian,
      DataProcessor.brazilian_wines. split.
    - intros (r & Hr & Hp). apply filter_In in Hr as [Hr Hc].
      exists r. repeat split; auto. now apply str_cell_eqb_eq.
    - intros (r & Hr & Hc & Hp). exists r. split; [|exact Hp].
      apply filter_In. split; [exact Hr | now apply str_cell_eqb_eq]. }
  destruct (dropna_cells (map price brazilian)) as [|v vs] eqn:Evals.
  - intros r Hr Hc. destruct (price r) as [p|] eqn:Ep; [|reflexivity].
    exfalso. apply (proj2 (Hcells p)). now exists r.
  - destruct (Qmin_list_le vs v) as [Hmin1 Hmin2].
    destruct (Qmax_list_ge vs v) as [Hmax1 Hmax2].
    split; [apply Hcells, Qmin_list_In|].
    split; [apply Hcells, Qmax_list_In|].
    intros p Hp. apply Hcells in Hp. destruct Hp as [<-|Hp]; split; auto.
Qed.

Lemma dropna_cells_length_le {A : Type} (col : list (option A)) :
  (length (dropna_cells col) <= length col)%nat.
Proof.
  induction col as [|[a|] col IH]; cbn; lia.
Qed.

(** [head(n)] returns the whole list or exactly [n] entries. *)
Lemma head_all_or_full {A : Type} (n : nat) (l : list A) :
  head n l = l \/ length (head n l) = n.
Proof.
  unfold head. destruct (Nat.le_gt_cases (length l) n) as [H|H].
  - left. now apply firstn_all2.
  - right. apply firstn_length_le. lia.
Qed.

(** X8: the varieties listed by the Brazil summary are ten distinct
    varieties, or all the varieties that have a Brazilian review when
    these are fewer; each comes with the number of Brazilian reviews of
    that variety (at least one), by decreasing number; no variety left
    out has more reviews than a listed one, and the listed numbers add
    up to no more than the total number of reviews. *)
Theorem top_varieties_ranked (df : DataFrame) :
  let brazilian := DataProcessor.brazilian_wines df in
  let top := DataProcessor.top_varieties (DataProcessor.analyze df) in
  let reviews_of := fun v =>
    length (WineTrendsAnalyzer.group_rows variety v brazilian) in
  (length top <= 10)%nat
  /\ (length top = 10%nat
      \/ forall v, (0 < reviews_of v)%nat -> In v (map fst top))
  /\ NoDup (map fst top)
  /\ (forall v n, In (v, n) top -> n = reviews_of v /\ (1 <= n)%nat)
  /\ StronglySorted (fun a b => (snd b <= snd a)%nat) top
  /\ (forall v, (0 < reviews_of v)%nat -> ~ In v (map fst top) ->
        forall e, In e top -> (reviews_of v <= snd e)%nat)
  /\ (list_sum (map snd top)
      <= DataProcessor.total_reviews (DataProcessor.analyze df))%nat.
Proof.
  intros brazilian top reviews_of.
  destruct (value_counts_head 10 (map variety brazilian))
    as (Hlen & Hnd & Hcount & Hsorted & Hrest & Hsum).
  assert (Hrev : forall v, count_str v (dropna_cells (map variety brazilian))
                           = reviews_of v)
    by (intro v; apply count_str_rows).
  split; [exact Hlen|].
  split.
  { destruct (head_all_or_full 10 (value_counts (map variety brazilian)))
      as [Hall|Hfull]; [right | left; exact Hfull].
    intros v Hv. rewrite <- Hrev in Hv. apply count_str_pos in Hv.
    destruct (value_counts_spec (map variety brazilian)) as (_ & Hkeys & _).
    cbv zeta in Hkeys. apply Hkeys in Hv.
    unfold top. cbn [DataProcessor.analyze DataProcessor.top_varieties].
    fold brazilian. rewrite Hall. exact Hv. }
  split; [exact Hnd|].
  split.
  { intros v n Hin. destruct (Hcount v n Hin) as [-> Hpos].
    rewrite Hrev in *. split; [reflexivity | lia]. }
  split; [exact Hsorted|].
  split.
  { intros v Hv Hnot e He. rewrite <- Hrev in *.
    apply Hrest; auto. now apply count_str_pos. }
  cbn [DataProcessor.analyze DataProcessor.total_reviews].
  etransitivity; [exact Hsum|].
  etransitivity; [apply dropna_cells_length_le|]. now rewrite length_map.
Qed.

(** ** Loading for the trends report *)

(** X9: [load_data] never raises: it returns a flag.  When reading the
    file raises, it prints the diagnostic, leaves the object as it was
    and returns [False].  When it returns [True], the file was read, the
    object holds the cleaned frame and, as Brazilian wines, the rows from
    Brazil of the frame as read (before cleaning), and the three row
    counts were printed.  [clean_data] on an object that holds no frame
    raises AttributeError. *)
Theorem load_data_outcome (FS : FileSystem) (self : WineTrendsAnalyzer.t) :
  (exists flag self' out,
     WineTrendsAnalyzer.load_data self = (Returned flag, self', out))
  /\ (forall e, read_csv WineTrendsAnalyzer.reviews_file = Raised e ->
        WineTrendsAnalyzer.load_data self
        = (Returned false, self, [LoadError e]))
  /\ (forall self' out,
        WineTrendsAnalyzer.load_data self = (Returned true, self', out) ->
        exists df,
          read_csv WineTrendsAnalyzer.reviews_file = Returned df
          /\ let brazil :=
               filter (fun r => str_cell_eqb (country r) "Brazil") df in
             self' = WineTrendsAnalyzer.mk
                       (Some (WineTrendsAnalyzer.clean df)) (Some brazil)
             /\ out = [DatasetLoaded (length df);
                       BrazilianFound (length brazil);
                       DataCleaned (length (WineTrendsAnalyzer.clean df))])
  /\ WineTrendsAnalyzer.clean_data
       (WineTrendsAnalyzer.mk None (WineTrendsAnalyzer.brazilian_wines self))
     = (Raised AttributeError,
        WineTrendsAnalyzer.mk None (WineTrendsAnalyzer.brazilian_wines self),
        []).
Proof.
  unfold WineTrendsAnalyzer.load_data, WineTrendsAnalyzer.clean_data,
    try_except, bind, call, get, put, print, ret, raise.
  destruct (read_csv WineTrendsAnalyzer.reviews_file) as [df|e0] eqn:Eread.
  - split; [do 3 eexists; reflexivity|].
    split; [intros e E; discriminate E|].
    split; [|reflexivity].
    intros self' out E. exists df. split; [reflexivity|].
    cbv zeta. inversion E. split; reflexivity.
  - split; [do 3 eexists; reflexivity|].
    split; [intros e E; inversion E; reflexivity|].
    split; [|reflexivity].
    intros self' out E. discriminate E.
Qed.

(** ** The premium ranking is a top ten *)

Lemma float_geb_total (a b : float_val) :
  is_nan a = false -> is_nan b = false ->
  float_geb a b = true \/ float_geb b a = true.
Proof.
  destruct a as [x| | |], b as [y| | |]; cbn; intros; try discriminate;
    auto.
  destruct (Qle_bool y x) eqn:E; [now left|]. right.
  reflect_cmp. apply Qle_bool_iff. lra.
Qed.

Lemma float_geb_trans (a b c : float_val) :
  float_geb a b = true -> float_geb b c = true -> float_geb a c = true.
Proof.
  destruct a as [x| | |], b as [y| | |], c as [z| | |]; cbn; intros;
    try discriminate; auto.
  reflect_cmp. apply Qle_bool_iff. lra.
Qed.

Lemma premium_score_valid (raw : DataFrame) (r : wine_row) :
  In r (WineTrendsAnalyzer.premium_wines (WineTrendsAnalyzer.clean raw)) ->
  is_nan (WineTrendsAnalyzer.value_score r) = false.
Proof.
  unfold WineTrendsAnalyzer.premium_wines. intro Hin.
  apply filter_In in Hin as [Hin Hp].
  apply clean_row in Hin as (_ & Hprice & _).
  unfold WineTrendsAnalyzer.value_score, float_div.
  destruct (points r) as [x|]; [|discriminate].
  destruct (price r) as [y|]; [|discriminate].
  cbn [cell_test] in Hp. reflect_cmp.
  destruct (Qeq_bool y 0); [|reflexivity].
  destruct (Qlt_bool 0 x) eqn:E; [reflexivity|]. reflect_cmp. lra.
Qed.

(** X10: on a cleaned frame the ranked premium rows are at most ten rows
    rated 90 or more, in order of decreasing points per price, and they
    are a top ten: the premium rows split into the ranked ones and the
    rest, and no row of the rest has a higher score than a ranked row.
    With ten premium rows or fewer all of them are ranked. *)
Theorem best_premium_top_ten (raw : DataFrame) :
  let df := WineTrendsAnalyzer.clean raw in
  let best := WineTrendsAnalyzer.best_premium df in
  let score := WineTrendsAnalyzer.value_score in
  (length best <= 10)%nat
  /\ (forall r, In r best ->
        In r df /\ cell_test (Qle_bool 90) (points r) = true)
  /\ StronglySorted (fun a b => float_geb (score a) (score b) = true) best
  /\ (exists rest,
        Permutation (best ++ rest) (WineTrendsAnalyzer.premium_wines df)
        /\ forall b r, In b best -> In r rest ->
                       float_geb (score b) (score r) = true)
  /\ ((length (WineTrendsAnalyzer.premium_wines df) <= 10)%nat ->
      Permutation best (WineTrendsAnalyzer.premium_wines df)).
Proof.
  intros df best score.
  set (premium := WineTrendsAnalyzer.premium_wines df).
  set (geb := fun a b : wine_row => float_geb (score a) (score b)).
  assert (Hvalid : forall r, In r premium -> is_nan (score r) = false)
    by (intros r Hr; now apply (premium_score_valid raw)).
  assert (Hv : filter (fun r => negb (is_nan (score r))) premium = premium).
  { apply filter_all. intros r Hr. now rewrite (Hvalid r Hr). }
  assert (Hn : filter (fun r => is_nan (score r)) premium = []).
  { clear Hv. induction premium as [|r l IH]; [reflexivity|]. cbn [filter].
    rewrite (Hvalid r (or_introl eq_refl)). apply IH.
    intros r' Hr'. apply Hvalid. now right. }
  assert (Ebest : best = head 10 (sort_by geb premium)).
  { unfold best, WineTrendsAnalyzer.best_premium, nlargest.
    fold premium. fold score. rewrite Hv, Hn, app_nil_r. reflexivity. }
  assert (Hsorted : StronglySorted (fun a b => geb a b = true)
                                   (sort_by geb premium)).
  { apply (sort_by_sorted geb (fun r => is_nan (score r) = false)).
    - intros x y Hx Hy. now apply float_geb_total.
    - intros x y z _ _ _. apply float_geb_trans.
    - apply Forall_forall. exact Hvalid. }
  rewrite Ebest.
  split; [apply firstn_le_length|].
  split.
  { intros r Hr. apply head_In in Hr. apply sort_by_In in Hr.
    unfold premium, WineTrendsAnalyzer.premium_wines in Hr.
    now apply filter_In in Hr. }
  split; [now apply head_sorted|].
  split.
  { exists (skipn 10 (sort_by geb premium)). split.
    - rewrite head_skipn. apply sort_by_perm.
    - intros b r Hb Hr.
      rewrite <- (head_skipn 10 (sort_by geb premium)) in Hsorted.
      apply (sorted_app_order _ _ _ Hsorted b r Hb Hr). }
  intro Hlen. unfold head. rewrite firstn_all2.
  - apply sort_by_perm.
  - now rewrite sort_by_length.
Qed.

(** ** The price distribution *)

(** X11: the price distribution lists each of the five price categories
    once, with the number of rows in that category, by decreasing
    number; the numbers add up to the rows that have a category. *)
Theorem price_distribution_counts (df : DataFrame) :
  let dist := WineTrendsAnalyzer.price_distribution df in
  Permutation (map fst dist) price_labels
  /\ (forall l n, In (l, n) dist ->
        n = length (WineTrendsAnalyzer.group_rows price_category l df))
  /\ StronglySorted (fun a b => (snd b <= snd a)%nat) dist
  /\ list_sum (map snd dist)
     = length (filter (fun r => labelled price_labels (price_category r)) df).
Proof.
  intro dist. unfold dist, WineTrendsAnalyzer.price_distribution.
  set (leb := fun a b : string * nat => (snd b <=? snd a)%nat).
  set (entries :=
         map (fun key =>
                (key, length (WineTrendsAnalyzer.group_rows price_category
                                                            key df)))
             price_labels).
  pose proof (sort_by_perm leb entries) as Hperm.
  split; [|split; [|split]].
  - rewrite (Permutation_map fst Hperm). unfold entries.
    rewrite map_map. cbn [fst]. now rewrite map_id.
  - intros l n Hin. apply (Permutation_in _ Hperm) in Hin.
    unfold entries in Hin. apply in_map_iff in Hin as [k [E _]].
    now inversion E.
  - apply (sorted_weaken (fun a b => leb a b = true)).
    { intros a b. unfold leb. apply Nat.leb_le. }
    apply (sort_by_sorted leb (fun _ => True)).
    + intros x y _ _. unfold leb.
      destruct (Nat.le_ge_cases (snd y) (snd x)) as [H|H];
        [left | right]; now apply Nat.leb_le.
    + intros x y z _ _ _. unfold leb. rewrite !Nat.leb_le. lia.
    + apply Forall_forall. trivial.
  - rewrite (Permutation_map snd Hperm). unfold entries.
    rewrite map_map. cbn [snd].
    apply (group_sizes_sum price_category price_labels df price_labels_NoDup).
Qed.

(** ** Sorting a table by a column *)

Lemma filter_partition_perm {A : Type} (f : A -> bool) (l : list A) :
  Permutation (filter (fun x => negb (f x)) l ++ filter f l) l.
Proof.
  induction l as [|a l IH]; cbn [filter]; [reflexivity|].
  destruct (f a); cbn [negb app].
  - symmetry. apply Permutation_cons_app. now symmetry.
  - now constructor.
Qed.

Lemma filter_Forall {A : Type} (f : A -> bool) (l : list A) :
  Forall (fun x => f x = true) (filter f l).
Proof.
  apply Forall_forall. intros x Hx. now apply filter_In in Hx.
Qed.

Lemma float_valid_sorted {A : Type} (key : A -> float_val)
  (leb : A -> A -> bool) (l : list A) :
  (forall a b, is_nan (key a) = false -> is_nan (key b) = false ->
               leb a b = true \/ leb b a = true) ->
  (forall a b c, leb a b = true -> leb b c = true -> leb a c = true) ->
  StronglySorted (fun a b => leb a b = true)
                 (sort_by leb (filter (fun r => negb (is_nan (key r))) l)).
Proof.
  intros Htotal Htrans.
  apply (sort_by_sorted leb (fun r => is_nan (key r) = false)).
  - exact Htotal.
  - intros a b c _ _ _. apply Htrans.
  - apply Forall_forall. intros x Hx. apply filter_In in Hx as [_ Hx].
    now apply negb_true_iff in Hx.
Qed.

(** [sort_values] rearranges the rows: those with a value first, in
    order, those with NaN after them. *)
Lemma sort_values_desc_spec {A : Type} (key : A -> float_val) (l : list A) :
  Permutation (WineTrendsAnalyzer.sort_values_desc key l) l
  /\ exists ranked nans,
       WineTrendsAnalyzer.sort_values_desc key l = ranked ++ nans
       /\ StronglySorted (fun a b => float_geb (key a) (key b) = true) ranked
       /\ Forall (fun r => is_nan (key r) = false) ranked
       /\ Forall (fun r => is_nan (key r) = true) nans.
Proof.
  unfold WineTrendsAnalyzer.sort_values_desc.
  set (geb := fun a b : A => float_geb (key a) (key b)).
  set (valid := filter (fun r => negb (is_nan (key r))) l).
  set (nans := filter (fun r => is_nan (key r)) l).
  split.
  - rewrite (sort_by_perm geb valid). apply filter_partition_perm.
  - exists (sort_by geb valid), nans. split; [reflexivity|].
    split; [|split].
    + apply float_valid_sorted.
      * intros a b. apply float_geb_total.
      * intros a b c. apply float_geb_trans.
    + eapply Permutation_Forall; [symmetry; apply sort_by_perm|].
      apply Forall_forall. intros x Hx. apply filter_In in Hx as [_ Hx].
      now apply negb_true_iff in Hx.
    + apply filter_Forall.
Qed.

Lemma sort_values_asc_spec {A : Type} (key : A -> float_val) (l : list A) :
  Permutation (WineTrendsAnalyzer.sort_values_asc key l) l
  /\ exists ranked nans,
       WineTrendsAnalyzer.sort_values_asc key l = ranked ++ nans
       /\ StronglySorted (fun a b => float_geb (key b) (key a) = true) ranked
       /\ Forall (fun r => is_nan (key r) = false) ranked
       /\ Forall (fun r => is_nan (key r) = true) nans.
Proof.
  unfold WineTrendsAnalyzer.sort_values_asc.
  set (leb := fun a b : A => float_geb (key b) (key a)).
  set (valid := filter (fun r => negb (is_nan (key r))) l).
  set (nans := filter (fun r => is_nan (key r)) l).
  split.
  - rewrite (sort_by_perm leb valid). apply filter_partition_perm.
  - exists (sort_by leb valid), nans. split; [reflexivity|].
    split; [|split].
    + apply float_valid_sorted.
      * intros a b Ha Hb. unfold leb.
        destruct (float_geb_total (key a) (key b) Ha Hb); auto.
      * intros a b c H1 H2. unfold leb in *.
        now apply (float_geb_trans _ (key b)).
    + eapply Permutation_Forall; [symmetry; apply sort_by_perm|].
      apply Forall_forall. intros x Hx. apply filter_In in Hx as [_ Hx].
      now apply negb_true_iff in Hx.
    + apply filter_Forall.
Qed.

(** ** Grouped tables *)

Section GroupedTable.
Context (by_col : wine_row -> option string) (keys : list string)
        (df : DataFrame).

Let selected := filter (fun r => labelled keys (by_col r)) df.

Lemma group_rows_selected (k : string) :
  In k keys ->
  WineTrendsAnalyzer.group_rows by_col k selected
  = WineTrendsAnalyzer.group_rows by_col k df.
Proof.
  intro Hk. unfold WineTrendsAnalyzer.group_rows, selected.
  induction df as [|r l IH]; [reflexivity|]. cbn [filter].
  destruct (labelled keys (by_col r)) eqn:El; cbn [filter].
  - now rewrite IH.
  - destruct (str_cell_eqb (by_col r) k) eqn:Ek; [|exact IH].
    apply str_cell_eqb_eq in Ek. rewrite Ek in El. cbn [labelled] in El.
    assert (existsb (String.eqb k) keys = true) by now apply existsb_eqb_In.
    congruence.
Qed.

Lemma selected_values (k : string) :
  In k (dropna_cells (map by_col selected))
  <-> In k keys /\ In k (dropna_cells (map by_col df)).
Proof.
  rewrite !dropna_cells_In. unfold selected. split.
  - intros (r & Hr & Hk). apply filter_In in Hr as [Hr Hl].
    rewrite Hk in Hl. cbn [labelled] in Hl. apply existsb_eqb_In in Hl.
    split; [exact Hl | now exists r].
  - intros (Hin & r & Hr & Hk). exists r. split; [|exact Hk].
    apply filter_In. split; [exact Hr|]. rewrite Hk. cbn [labelled].
    now apply existsb_eqb_In.
Qed.

Lemma group_count_cells (k : string) (l : DataFrame) :
  length (dropna_cells (map by_col (WineTrendsAnalyzer.group_rows by_col k l)))
  = length (WineTrendsAnalyzer.group_rows by_col k l).
Proof.
  rewrite dropna_cells_all; [apply length_map|].
  apply Forall_forall. intros c Hc. apply in_map_iff in Hc as [r [<- Hr]].
  unfold WineTrendsAnalyzer.group_rows in Hr. apply filter_In in Hr as [_ Hr].
  apply str_cell_eqb_eq in Hr. now rewrite Hr.
Qed.

(** The table has one row per key that occurs in the column, and the
    count of a row is the number of rows of the frame with that key. *)
Lemma groupby_agg_spec :
  NoDup keys ->
  (forall k, In k keys -> In k (dropna_cells (map by_col df))) ->
  let table := WineTrendsAnalyzer.groupby_agg by_col keys df in
  Permutation (map WineTrendsAnalyzer.summary_key table) keys
  /\ forall s, In s table ->
       In (WineTrendsAnalyzer.summary_key s) keys
       /\ WineTrendsAnalyzer.Quantidade s
          = length (WineTrendsAnalyzer.group_rows
                      by_col (WineTrendsAnalyzer.summary_key s) df)
       /\ WineTrendsAnalyzer.Pontuação_Média s
          = cell_map round2
              (mean (map points
                         (WineTrendsAnalyzer.group_rows
                            by_col (WineTrendsAnalyzer.summary_key s) df)))
       /\ WineTrendsAnalyzer.Preço_Médio s
          = cell_map round2
              (mean (map price
                         (WineTrendsAnalyzer.group_rows
                            by_col (WineTrendsAnalyzer.summary_key s) df))).
Proof.
  intros Hnd Hocc table. unfold table, WineTrendsAnalyzer.groupby_agg.
  fold selected.
  set (present := sort_by String.leb
                          (unique (dropna_cells (map by_col selected)))).
  assert (Hpresent : forall k, In k present <-> In k keys).
  { intro k. unfold present. rewrite sort_by_In, unique_In, selected_values.
    split; [tauto | auto]. }
  split.
  - rewrite map_map. cbn [WineTrendsAnalyzer.summary_key]. rewrite map_id.
    apply NoDup_Permutation; [|exact Hnd|exact Hpresent].
    unfold present. eapply Permutation_NoDup.
    + symmetry. apply sort_by_perm.
    + apply unique_NoDup.
  - intros s Hs. apply in_map_iff in Hs as [k [<- Hk]].
    apply Hpresent in Hk.
    cbn [WineTrendsAnalyzer.summary_key WineTrendsAnalyzer.Quantidade
           WineTrendsAnalyzer.Pontuação_Média WineTrendsAnalyzer.Preço_Médio].
    rewrite group_count_cells, (group_rows_selected k Hk). auto.
Qed.
End GroupedTable.

Lemma top_keys (n : nat) (col : list (option string)) :
  let top := head n (value_counts col) in
  NoDup (map fst top)
  /\ (length top <= n)%nat
  /\ (forall k, In k (map fst top) -> In k (dropna_cells col))
  /\ (forall k, In k (map fst top) ->
        In (k, count_str k (dropna_cells col)) top).
Proof.
  intro top.
  destruct (value_counts_head n col) as (Hlen & Hnd & Hcount & _).
  split; [exact Hnd|]. split; [exact Hlen|]. split.
  - intros k Hk. apply in_map_iff in Hk as [[k' c] [E Hin]]. cbn in E.
    subst k'. destruct (Hcount k c Hin) as [_ Hpos].
    apply count_str_pos. now destruct (Hcount k c Hin) as [<- _].
  - intros k Hk. apply in_map_iff in Hk as [[k' c] [E Hin]]. cbn in E.
    subst k'. now destruct (Hcount k c Hin) as [<- _].
Qed.

(** X12: the variety table has one row for each of the (at most 15)
    most reviewed varieties; the quantity of a row is the number of
    reviews of that variety, as [value_counts] gave it; the rows with a
    cost-benefit value come first, by increasing cost-benefit, and the
    rows whose cost-benefit is NaN come last. *)
Theorem variety_table_by_cost_benefit (df : DataFrame) :
  let table := WineTrendsAnalyzer.analyze_variety_trends df in
  let top := WineTrendsAnalyzer.top_varieties df in
  let cb := WineTrendsAnalyzer.Custo_Benefício in
  Permutation (map WineTrendsAnalyzer.summary_key table) (map fst top)
  /\ (length table <= 15)%nat
  /\ (forall s, In s table ->
        In (WineTrendsAnalyzer.summary_key s, WineTrendsAnalyzer.Quantidade s)
           top
        /\ WineTrendsAnalyzer.Quantidade s
           = length (WineTrendsAnalyzer.group_rows
                       variety (WineTrendsAnalyzer.summary_key s) df))
  /\ exists ranked nans,
       table = ranked ++ nans
       /\ StronglySorted (fun a b => float_geb (cb b) (cb a) = true) ranked
       /\ Forall (fun s => is_nan (cb s) = false) ranked
       /\ Forall (fun s => is_nan (cb s) = true) nans.
Proof.
  intros table top cb.
  unfold table, WineTrendsAnalyzer.analyze_variety_trends.
  fold top. fold cb.
  destruct (top_keys 15 (map variety df)) as (Hnd & Hlen & Hocc & Hcnt).
  fold (WineTrendsAnalyzer.top_varieties df) in Hnd, Hlen, Hocc, Hcnt.
  fold top in Hnd, Hlen, Hocc, Hcnt.
  destruct (groupby_agg_spec variety (map fst top) df Hnd Hocc)
    as [Hkeys Hrows].
  set (tbl := WineTrendsAnalyzer.groupby_agg variety (map fst top) df) in *.
  destruct (sort_values_asc_spec cb tbl) as [Hperm Hord].
  split; [|split; [|split]].
  - rewrite (Permutation_map WineTrendsAnalyzer.summary_key Hperm).
    exact Hkeys.
  - rewrite (Permutation_length Hperm).
    rewrite <- (length_map WineTrendsAnalyzer.summary_key).
    rewrite (Permutation_length Hkeys), length_map. exact Hlen.
  - intros s Hs. apply (Permutation_in _ Hperm) in Hs.
    destruct (Hrows s Hs) as (Hk & Hq & _). split; [|exact Hq].
    rewrite Hq, <- count_str_rows. now apply Hcnt.
  - exact Hord.
Qed.

Lemma sorted_nth_error {A : Type} (R : A -> A -> Prop) (l : list A) :
  StronglySorted R l ->
  forall j i a b, (j < i)%nat ->
    nth_error l j = Some a -> nth_error l i = Some b -> R a b.
Proof.
  induction 1 as [|x l Hs IH Hx]; intros j i a b Hji Ha Hb.
  - destruct j; discriminate.
  - destruct i as [|i]; [lia|]. cbn in Hb. destruct j as [|j]; cbn in Ha.
    + inversion Ha; subst. rewrite Forall_forall in Hx. apply Hx.
      eapply nth_error_In. exact Hb.
    + apply (IH j i); auto. lia.
Qed.

Lemma index_of_Some (x : string) (l : list string) (i : nat) :
  WineTrendsAnalyzer.index_of x l = Some i ->
  nth_error l i = Some x
  /\ forall j, (j < i)%nat -> nth_error l j <> Some x.
Proof.
  revert i. induction l as [|y t IH]; intros i Hi; [discriminate|].
  cbn [WineTrendsAnalyzer.index_of] in Hi.
  destruct (String.eqb y x) eqn:E.
  - inversion Hi; subst. apply String.eqb_eq in E. subst.
    split; [reflexivity | intros j Hj; lia].
  - apply String.eqb_neq in E.
    destruct (WineTrendsAnalyzer.index_of x t) as [k|]; [|discriminate].
    inversion Hi; subst. destruct (IH k eq_refl) as [Hn Hb].
    split; [exact Hn|]. intros [|j] Hj; cbn.
    + congruence.
    + apply Hb. lia.
Qed.

Lemma index_of_None (x : string) (l : list string) :
  WineTrendsAnalyzer.index_of x l = None <-> ~ In x l.
Proof.
  induction l as [|y t IH]; cbn [WineTrendsAnalyzer.index_of In].
  - tauto.
  - destruct (String.eqb y x) eqn:E.
    + apply String.eqb_eq in E. split; [discriminate | tauto].
    + apply String.eqb_neq in E.
      destruct (WineTrendsAnalyzer.index_of x t); cbn.
      * split; [discriminate|]. intro H. exfalso. apply H. right.
        destruct (In_dec string_dec x t) as [Hin|Hin]; [exact Hin|].
        apply IH in Hin. discriminate.
      * split; [|reflexivity]. intros _ [H|H]; [congruence|].
        now apply (proj1 IH).
Qed.

(** On a cleaned frame every group has a mean of points. *)
Lemma clean_group_mean (raw : DataFrame) (by_col : wine_row -> option string)
  (k : string) :
  In k (dropna_cells (map by_col (WineTrendsAnalyzer.clean raw))) ->
  exists m,
    mean (map points (WineTrendsAnalyzer.group_rows
                        by_col k (WineTrendsAnalyzer.clean raw)))
    = Some m.
Proof.
  intro Hk. apply dropna_cells_In in Hk as (r & Hr & Hb).
  assert (Hg : In r (WineTrendsAnalyzer.group_rows
                       by_col k (WineTrendsAnalyzer.clean raw))).
  { apply filter_In. split; [exact Hr | now apply str_cell_eqb_eq]. }
  apply clean_row in Hr as (Hp & _).
  destruct (points r) as [x|] eqn:Ex; [|discriminate].
  assert (Hx : In x (dropna_cells
                       (map points
                            (WineTrendsAnalyzer.group_rows
                               by_col k (WineTrendsAnalyzer.clean raw)))))
    by (apply dropna_cells_In; now exists r).
  unfold mean. destruct (dropna_cells _) as [|v vs]; [destruct Hx|].
  now eexists.
Qed.

(** Order of two rows of the country table by mean points. *)
Definition mean_points_ge (a b : WineTrendsAnalyzer.summary_row) : Prop :=
  match WineTrendsAnalyzer.Pontuação_Média a,
        WineTrendsAnalyzer.Pontuação_Média b with
  | Some x, Some y => y <= x
  | _, _ => False
  end.

(** X13: on a cleaned frame the country table has one row for each of
    the (at most 15) most reviewed countries, each with a mean of points
    and with its number of reviews, in order of decreasing mean points.
    Brazil's rank is its position in that order: the countries before it
    are other countries whose mean is at least Brazil's; there is no
    rank exactly when Brazil is not among those countries. *)
Theorem regional_table_and_brazil_rank (raw : DataFrame) :
  let df := WineTrendsAnalyzer.clean raw in
  let table := WineTrendsAnalyzer.analyze_regional_preferences df in
  let top := WineTrendsAnalyzer.top_countries_15 df in
  Permutation (map WineTrendsAnalyzer.summary_key table) (map fst top)
  /\ (length table <= 15)%nat
  /\ (forall s, In s table ->
        In (WineTrendsAnalyzer.summary_key s, WineTrendsAnalyzer.Quantidade s)
           top)
  /\ StronglySorted mean_points_ge table
  /\ match WineTrendsAnalyzer.brazil_rank df with
     | Some rank =>
         (1 <= rank <= length table)%nat
         /\ exists brazil,
              nth_error table (rank - 1) = Some brazil
              /\ WineTrendsAnalyzer.summary_key brazil = "Brazil"%string
              /\ forall j s, (j < rank - 1)%nat ->
                   nth_error table j = Some s ->
                   WineTrendsAnalyzer.summary_key s <> "Brazil"%string
                   /\ mean_points_ge s brazil
     | None => ~ In "Brazil"%string (map fst top)
     end.
Proof.
  intros df table top.
  set (key := fun s => WineTrendsAnalyzer.cell_float (WineTrendsAnalyzer.Pontuação_Média s)).
  destruct (top_keys 15 (map country df)) as (Hnd & Hlen & Hocc & Hcnt).
  fold (WineTrendsAnalyzer.top_countries_15 df) in Hnd, Hlen, Hocc, Hcnt.
  fold top in Hnd, Hlen, Hocc, Hcnt.
  destruct (groupby_agg_spec country (map fst top) df Hnd Hocc)
    as [Hkeys Hrows].
  set (tbl := WineTrendsAnalyzer.groupby_agg country (map fst top) df) in *.
  assert (Etable : table = WineTrendsAnalyzer.sort_values_desc key tbl)
    by reflexivity.
  destruct (sort_values_desc_spec key tbl)
    as [Hperm (ranked & nans & Esplit & Hsorted & Hvalid & Hnans)].
  rewrite <- Etable in Hperm, Esplit.
  assert (Hmean : forall s, In s table ->
            exists m, WineTrendsAnalyzer.Pontuação_Média s = Some m).
  { intros s Hs. apply (Permutation_in _ Hperm) in Hs.
    destruct (Hrows s Hs) as (Hk & _ & Hm & _).
    destruct (clean_group_mean raw country (WineTrendsAnalyzer.summary_key s)
                (Hocc _ Hk)) as [m Em].
    fold df in Em. rewrite Hm, Em. cbn. now eexists. }
  assert (Enans : nans = []).
  { destruct nans as [|s nans']; [reflexivity|]. exfalso.
    inversion Hnans as [|? ? Hs _]; subst.
    destruct (Hmean s) as [m Em].
    - rewrite Esplit. apply in_or_app. right. now left.
    - unfold key in Hs. rewrite Em in Hs. discriminate. }
  rewrite Enans, app_nil_r in Esplit. subst ranked.
  assert (Hord : StronglySorted mean_points_ge table).
  { eapply sorted_weaken; [|exact Hsorted].
    intros a b Hab. unfold mean_points_ge, key in *.
    destruct (WineTrendsAnalyzer.Pontuação_Média a),
             (WineTrendsAnalyzer.Pontuação_Média b);
      cbn in Hab; try discriminate.
    now apply Qle_bool_iff. }
  split; [|split; [|split; [|split]]].
  - rewrite (Permutation_map WineTrendsAnalyzer.summary_key Hperm).
    exact Hkeys.
  - rewrite (Permutation_length Hperm).
    rewrite <- (length_map WineTrendsAnalyzer.summary_key).
    rewrite (Permutation_length Hkeys), length_map. exact Hlen.
  - intros s Hs. apply (Permutation_in _ Hperm) in Hs.
    destruct (Hrows s Hs) as (Hk & Hq & _).
    rewrite Hq, <- count_str_rows. now apply Hcnt.
  - exact Hord.
  - unfold WineTrendsAnalyzer.brazil_rank. fold df. fold table.
    destruct (WineTrendsAnalyzer.index_of
                "Brazil" (map WineTrendsAnalyzer.summary_key table))
      as [i|] eqn:Ei; cbn [option_map].
    + destruct (index_of_Some _ _ _ Ei) as [Hi Hbefore].
      rewrite nth_error_map in Hi.
      destruct (nth_error table i) as [brazil|] eqn:Eb; [|discriminate].
      cbn in Hi. injection Hi as Hkey.
      assert (Hlt : (i < length table)%nat).
      { apply nth_error_Some. congruence. }
      split; [lia|]. replace (S i - 1)%nat with i by lia.
      exists brazil. split; [exact Eb|]. split; [exact Hkey|].
      intros j s Hj Hs. split.
      * intro Hk. apply (Hbefore j Hj). rewrite nth_error_map, Hs. cbn.
        now rewrite Hk.
      * apply (sorted_nth_error _ _ Hord j i); auto.
    + apply index_of_None in Ei. intro Hin. apply Ei.
      apply (Permutation_in _ (Permutation_sym Hkeys)) in Hin.
      apply (Permutation_in _
               (Permutation_map WineTrendsAnalyzer.summary_key
                                (Permutation_sym Hperm))).
      exact Hin.
Qed.

(** ** The yearly mock frames *)

Section MockYearly.
Context `{RandomState}.
Import WineExportAnalyzer.

Lemma for_each_keys {A B : Type} (key : B -> A) (body : A -> Rand B) :
  (forall x s, key (fst (body x s)) = x) ->
  forall xs s, map key (fst (for_each xs body s)) = xs.
Proof.
  intros Hkey xs s.
  pose proof (for_each_Forall2 (fun x b => key b = x) body Hkey xs s) as HF.
  induction HF; cbn; congruence.
Qed.

Lemma for_each_Forall {A B : Type} (P : B -> Prop) (body : A -> Rand B) :
  (forall x s, P (fst (body x s))) ->
  forall xs s, Forall P (fst (for_each xs body s)).
Proof.
  intros HP xs s.
  pose proof (for_each_Forall2 (fun _ b => P b) body HP xs s) as HF.
  induction HF; constructor; auto.
Qed.

Lemma climate_entry_year (year : Z) (s : rng) :
  climate_ano (fst (climate_entry year s)) = year.
Proof.
  unfold climate_entry, rbind, rret.
  destruct (normal 25 2 s) as [a s1]. destruct (normal 1200 200 s1) as [b s2].
  destruct (normal 250 30 s2) as [c s3]. reflexivity.
Qed.

Lemma demographic_entry_spec (year : Z) (s : rng) :
  let r := fst (demographic_entry year s) in
  demographic_ano r = year
  /\ populacao_brasil r = (200000000 + (year - 2009) * 2000000)%Z.
Proof.
  unfold demographic_entry, rbind, rret.
  destruct (normal 0 500 s) as [a s1]. split; reflexivity.
Qed.

Lemma economic_entry_spec (year : Z) (s : rng) :
  let r := fst (economic_entry year s) in
  economic_ano r = year
  /\ pib_brasil r = (2000000000000 + (year - 2009) * 50000000000)%Z.
Proof.
  unfold economic_entry, rbind, rret.
  destruct (uniform (18 # 10) (55 # 10) s) as [a s1].
  destruct (uniform 2 12 s1) as [b s2]. split; reflexivity.
Qed.

Lemma rating_entry_year (year : Z) (s : rng) :
  rating_ano (fst (rating_entry year s)) = year.
Proof.
  unfold rating_entry, rbind, rret.
  destruct (uniform 82 92 s) as [a s1]. destruct (randint 500 2000 s1) as [b s2].
  destruct (uniform 15 45 s2) as [c s3]. reflexivity.
Qed.

(** The frames of a generated object, each as the loop over the years
    from the generator state it started in. *)
Lemma generate_mock_data_frames (s : rng) :
  exists s1 s2 s3 s4,
    let obj := fst (generate_mock_data s) in
    export_data obj = Some (fst (generate_export_data s))
    /\ climate_data obj = Some (fst (for_each years climate_entry s1))
    /\ demographic_data obj = Some (fst (for_each years demographic_entry s2))
    /\ economic_data obj = Some (fst (for_each years economic_entry s3))
    /\ wine_ratings obj = Some (fst (for_each years rating_entry s4)).
Proof.
  unfold generate_mock_data, rbind, rret.
  destruct (generate_export_data s) as [rows s1] eqn:E0.
  destruct (for_each years climate_entry s1) as [c s2] eqn:E1.
  destruct (for_each years demographic_entry s2) as [d s3] eqn:E2.
  destruct (for_each years economic_entry s3) as [e s4] eqn:E3.
  destruct (for_each years rating_entry s4) as [r s5] eqn:E4.
  exists s1, s2, s3, s4. cbv zeta.
  rewrite E1, E2, E3, E4. repeat split.
Qed.
End MockYearly.

(** X14: whatever the random source draws, the climate, demographic,
    economic and rating frames of the generated mock data have exactly
    one row per year 2009..2023, in order, and the two columns that
    involve no draw are fixed: the population is 200,000,000 plus
    2,000,000 per year since 2009 and the GDP 2,000,000,000,000 plus
    50,000,000,000 per year since 2009. *)
Theorem mock_yearly_frames (RS : RandomState) (s : rng) :
  let obj := fst (WineExportAnalyzer.generate_mock_data s) in
  exists climate demographic economic ratings,
    WineExportAnalyzer.climate_data obj = Some climate
    /\ WineExportAnalyzer.demographic_data obj = Some demographic
    /\ WineExportAnalyzer.economic_data obj = Some economic
    /\ WineExportAnalyzer.wine_ratings obj = Some ratings
    /\ map WineExportAnalyzer.climate_ano climate = WineExportAnalyzer.years
    /\ map WineExportAnalyzer.demographic_ano demographic
       = WineExportAnalyzer.years
    /\ map WineExportAnalyzer.economic_ano economic = WineExportAnalyzer.years
    /\ map WineExportAnalyzer.rating_ano ratings = WineExportAnalyzer.years
    /\ Forall (fun r =>
                 WineExportAnalyzer.populacao_brasil r
                 = (200000000
                    + (WineExportAnalyzer.demographic_ano r - 2009) * 2000000)%Z)
              demographic
    /\ Forall (fun r =>
                 WineExportAnalyzer.pib_brasil r
                 = (2000000000000
                    + (WineExportAnalyzer.economic_ano r - 2009)
                      * 50000000000)%Z)
              economic.
Proof.
  intro obj.
  destruct (generate_mock_data_frames s) as (s1 & s2 & s3 & s4 & H).
  cbv zeta in H. fold obj in H. destruct H as (_ & Hc & Hd & He & Hr).
  do 4 eexists.
  split; [exact Hc|]. split; [exact Hd|]. split; [exact He|].
  split; [exact Hr|].
  split; [apply for_each_keys, climate_entry_year|].
  split; [apply for_each_keys; intros; apply demographic_entry_spec|].
  split; [apply for_each_keys; intros; apply economic_entry_spec|].
  split; [apply for_each_keys, rating_entry_year|].
  split.
  - apply for_each_Forall. intros year s'.
    destruct (demographic_entry_spec year s') as [-> ->]. reflexivity.
  - apply for_each_Forall. intros year s'.
    destruct (economic_entry_spec year s') as [-> ->]. reflexivity.
Qed.

(** ** The yearly export frame *)

Lemma unique_years_In (x : Z) (l : list Z) :
  In x (WineExportAnalyzer.unique_years l) <-> In x l.
Proof.
  induction l as [|y t IH]; cbn; [tauto|].
  rewrite filter_In, IH, negb_true_iff. split.
  - intros [->|[Hin _]]; auto.
  - intros [->|Hin]; [now left|].
    destruct (Z.eqb y x) eqn:E.
    + apply Z.eqb_eq in E. now left.
    + right. now split.
Qed.

Lemma unique_years_NoDup (l : list Z) :
  NoDup (WineExportAnalyzer.unique_years l).
Proof.
  induction l as [|y t IH]; cbn; constructor.
  - rewrite filter_In, negb_true_iff, Z.eqb_refl. intros [_ H].
    discriminate.
  - now apply NoDup_filter.
Qed.

Lemma sorted_le_NoDup_lt (l : list Z) :
  StronglySorted Z.le l -> NoDup l -> StronglySorted Z.lt l.
Proof.
  induction 1 as [|x l Hs IH Hx]; intro Hnd; constructor.
  - apply IH. now inversion Hnd.
  - inversion Hnd as [|? ? Hnot _]; subst.
    rewrite Forall_forall in *. intros y Hy.
    specialize (Hx y Hy). assert (x <> y) by (intros ->; contradiction).
    lia.
Qed.

Lemma year_keys_spec (rows : list WineExportAnalyzer.export_row) :
  let keys := sort_by Z.leb (WineExportAnalyzer.unique_years
                                (map WineExportAnalyzer.ano rows)) in
  NoDup keys /\ StronglySorted Z.lt keys
  /\ forall y, In y keys <-> In y (map WineExportAnalyzer.ano rows).
Proof.
  intro keys.
  assert (Hnd : NoDup keys).
  { eapply Permutation_NoDup; [symmetry; apply sort_by_perm|].
    apply unique_years_NoDup. }
  split; [exact Hnd|]. split.
  - apply sorted_le_NoDup_lt; [|exact Hnd].
    apply (sorted_weaken (fun a b => Z.leb a b = true));
      [intros a b; apply Z.leb_le|].
    apply (sort_by_sorted Z.leb (fun _ => True)).
    + intros x y _ _. rewrite !Z.leb_le. lia.
    + intros x y z _ _ _. rewrite !Z.leb_le. lia.
    + apply Forall_forall. trivial.
  - intro y. unfold keys. now rewrite sort_by_In, unique_years_In.
Qed.

(** X15: grouping the export rows by year gives one row per year
    present, years strictly increasing; a yearly row holds the sums of
    the volumes and of the values over the export rows of its year, and
    every export row is among the rows summed into the yearly row of its
    year (and, the years being distinct, into no other). *)
Theorem yearly_export_one_row_per_year
  (rows : list WineExportAnalyzer.export_row) :
  let yearly := WineExportAnalyzer.yearly_export rows in
  StronglySorted Z.lt (map WineExportAnalyzer.analysis_ano yearly)
  /\ (forall y, In y (map WineExportAnalyzer.analysis_ano yearly)
                <-> In y (map WineExportAnalyzer.ano rows))
  /\ (forall a, In a yearly ->
        WineExportAnalyzer.analysis_volume_litros a
        = sum_over WineExportAnalyzer.volume_litros
                   (WineExportAnalyzer.year_rows
                      (WineExportAnalyzer.analysis_ano a) rows)
        /\ WineExportAnalyzer.analysis_valor_usd a
           = sum_over WineExportAnalyzer.valor_usd
                      (WineExportAnalyzer.year_rows
                         (WineExportAnalyzer.analysis_ano a) rows))
  /\ (forall r, In r rows ->
        exists a, In a yearly
                  /\ WineExportAnalyzer.analysis_ano a
                     = WineExportAnalyzer.ano r
                  /\ In r (WineExportAnalyzer.year_rows
                             (WineExportAnalyzer.analysis_ano a) rows))
  /\ (forall r y, In r (WineExportAnalyzer.year_rows y rows) ->
        In r rows /\ WineExportAnalyzer.ano r = y).
Proof.
  intro yearly.
  destruct (year_keys_spec rows) as (Hnd & Hsorted & Hkeys).
  assert (Ey : map WineExportAnalyzer.analysis_ano yearly
               = sort_by Z.leb (WineExportAnalyzer.unique_years
                                  (map WineExportAnalyzer.ano rows))).
  { unfold yearly, WineExportAnalyzer.yearly_export.
    rewrite map_map. cbn [WineExportAnalyzer.analysis_ano]. apply map_id. }
  split; [rewrite Ey; exact Hsorted|].
  split; [rewrite Ey; exact Hkeys|].
  split.
  { intros a Ha. unfold yearly, WineExportAnalyzer.yearly_export in Ha.
    apply in_map_iff in Ha as [y [<- _]]. split; reflexivity. }
  split.
  { intros r Hr.
    assert (Hy : In (WineExportAnalyzer.ano r)
                    (map WineExportAnalyzer.analysis_ano yearly))
      by (rewrite Ey; apply Hkeys; now apply in_map).
    apply in_map_iff in Hy as [a [Ea Ha]].
    exists a. split; [exact Ha|]. split; [exact Ea|].
    unfold WineExportAnalyzer.year_rows. apply filter_In.
    split; [exact Hr|]. rewrite Ea. apply Z.eqb_refl. }
  intros r y Hr. unfold WineExportAnalyzer.year_rows in Hr.
  apply filter_In in Hr as [Hr E]. apply Z.eqb_eq in E. now split.
Qed.

(** ** Merging on the year *)

Lemma filter_key_unique {B : Type} (key : B -> Z) (right : list B) (k : Z) :
  NoDup (map key right) -> In k (map key right) ->
  exists b, filter (fun x => Z.eqb (key x) k) right = [b] /\ key b = k.
Proof.
  induction right as [|x right IH]; intros Hnd Hin; [destruct Hin|].
  cbn [map] in Hnd. inversion Hnd as [|? ? Hnot Hnd']; subst.
  cbn [filter]. destruct (Z.eqb (key x) k) eqn:E.
  - apply Z.eqb_eq in E. exists x. split; [|exact E]. f_equal.
    assert (Hnone : forall y, In y right -> Z.eqb (key y) k = false).
    { intros y Hy. apply Z.eqb_neq. intro Ey. apply Hnot.
      rewrite E, <- Ey. now apply in_map. }
    clear -Hnone. induction right as [|y right IH]; [reflexivity|].
    cbn [filter]. rewrite (Hnone y (or_introl eq_refl)). apply IH.
    intros z Hz. apply Hnone. now right.
  - apply Z.eqb_neq in E. destruct Hin as [Hin|Hin]; [contradiction|].
    now apply IH.
Qed.

(** Merging with a frame that has each key of the left frame exactly
    once keeps the left rows, each paired with the row of its key. *)
Lemma merge_left_rows {A B : Type} (left_key : A -> Z) (right_key : B -> Z)
  (left : list A) (right : list B) :
  NoDup (map right_key right) ->
  (forall a, In a left -> In (left_key a) (map right_key right)) ->
  let merged := WineExportAnalyzer.merge left_key right_key left right in
  map fst merged = left
  /\ Forall (fun p => right_key (snd p) = left_key (fst p)) merged.
Proof.
  intros Hnd Hin. unfold WineExportAnalyzer.merge.
  induction left as [|a left IH]; cbn [flat_map].
  - split; [reflexivity | constructor].
  - destruct (filter_key_unique right_key right (left_key a) Hnd
                (Hin a (or_introl eq_refl))) as [b [Eb Hb]].
    rewrite Eb. cbn [map app].
    destruct IH as [IH1 IH2]; [intros a' Ha'; apply Hin; now right|].
    split.
    + cbn [map fst]. now rewrite IH1.
    + constructor; [exact Hb | exact IH2].
Qed.

Lemma yearly_export_generated_years (RS : RandomState) (s : rng) :
  map WineExportAnalyzer.analysis_ano
      (WineExportAnalyzer.yearly_export
         (fst (WineExportAnalyzer.generate_export_data s)))
  = WineExportAnalyzer.years.
Proof.
  destruct (generate_export_data_spec s) as [Hk _].
  unfold WineExportAnalyzer.yearly_export.
  rewrite map_map. cbn [WineExportAnalyzer.analysis_ano]. rewrite map_id.
  assert (E : map WineExportAnalyzer.ano
                  (fst (WineExportAnalyzer.generate_export_data s))
              = map fst (list_prod WineExportAnalyzer.years
                                   WineExportAnalyzer.countries)).
  { rewrite <- Hk, map_map. reflexivity. }
  rewrite E. vm_compute. reflexivity.
Qed.

Lemma sum_over_nonneg {A : Type} (f : A -> Q) (l : list A) :
  (forall a, In a l -> 0 <= f a) -> 0 <= sum_over f l.
Proof.
  induction l as [|a l IH]; intro Hf.
  - rewrite sum_over_nil. lra.
  - rewrite sum_over_cons.
    pose proof (Hf a (or_introl eq_refl)).
    assert (0 <= sum_over f l) by (apply IH; intros b Hb; apply Hf; now right).
    lra.
Qed.

(** X16: on generated mock data the correlation analysis returns a frame
    with exactly one row per year 2009..2023: the merges with the climate,
    economic and rating frames keep every yearly export row once, paired
    with the rows of the same year; yearly volumes are not negative; and
    the projector, run on that frame as the script does, returns five
    predictions per series instead of raising. *)
Theorem correlation_analysis_of_mock_data (RS : RandomState)
  (LR : WineExportAnalyzer.LinearRegression) (s : rng) :
  let obj := fst (WineExportAnalyzer.generate_mock_data s) in
  exists exports analysis_data,
    WineExportAnalyzer.export_data obj = Some exports
    /\ WineExportAnalyzer.create_correlation_analysis obj
       = Returned analysis_data
    /\ map WineExportAnalyzer.yearly_part analysis_data
       = WineExportAnalyzer.yearly_export exports
    /\ map (fun m => WineExportAnalyzer.analysis_ano
                       (WineExportAnalyzer.yearly_part m)) analysis_data
       = WineExportAnalyzer.years
    /\ Forall (fun m : WineExportAnalyzer.merged_row =>
                 let year := WineExportAnalyzer.analysis_ano
                               (WineExportAnalyzer.yearly_part m) in
                 WineExportAnalyzer.climate_ano (snd (fst (fst m))) = year
                 /\ WineExportAnalyzer.economic_ano (snd (fst m)) = year
                 /\ WineExportAnalyzer.rating_ano (snd m) = year
                 /\ 0 <= WineExportAnalyzer.analysis_volume_litros
                           (WineExportAnalyzer.yearly_part m))
              analysis_data
    /\ exists pv pw,
         WineExportAnalyzer.create_future_projections
           (map WineExportAnalyzer.yearly_part analysis_data)
         = Returned (pv, pw)
         /\ length pv = 5%nat /\ length pw = 5%nat.
Proof.
  intro obj.
  destruct (generate_mock_data_frames s) as (s1 & s2 & s3 & s4 & H).
  cbv zeta in H. fold obj in H. destruct H as (Hx & Hc & _ & He & Hr).
  set (exports := fst (WineExportAnalyzer.generate_export_data s)) in *.
  set (climate := fst (WineExportAnalyzer.for_each _ _ s1)) in *.
  set (economic := fst (WineExportAnalyzer.for_each _ _ s3)) in *.
  set (ratings := fst (WineExportAnalyzer.for_each _ _ s4)) in *.
  assert (Kc : map WineExportAnalyzer.climate_ano climate
               = WineExportAnalyzer.years)
    by (apply for_each_keys, climate_entry_year).
  assert (Ke : map WineExportAnalyzer.economic_ano economic
               = WineExportAnalyzer.years)
    by (apply for_each_keys; intros; apply economic_entry_spec).
  assert (Kr : map WineExportAnalyzer.rating_ano ratings
               = WineExportAnalyzer.years)
    by (apply for_each_keys, rating_entry_year).
  pose proof (yearly_export_generated_years RS s) as Ky. fold exports in Ky.
  set (yearly := WineExportAnalyzer.yearly_export exports) in *.
  set (m1 := WineExportAnalyzer.merge WineExportAnalyzer.analysis_ano
               WineExportAnalyzer.climate_ano yearly climate).
  set (m2 := WineExportAnalyzer.merge
               (fun m => WineExportAnalyzer.analysis_ano (fst m))
               WineExportAnalyzer.economic_ano m1 economic).
  set (m3 := WineExportAnalyzer.merge
               (fun m => WineExportAnalyzer.analysis_ano (fst (fst m)))
               WineExportAnalyzer.rating_ano m2 ratings).
  destruct (merge_left_rows WineExportAnalyzer.analysis_ano
              WineExportAnalyzer.climate_ano yearly climate) as [F1 G1].
  { rewrite Kc. apply years_NoDup. }
  { intros a Ha. rewrite Kc, <- Ky. now apply in_map. }
  fold m1 in F1, G1.
  destruct (merge_left_rows
              (fun m => WineExportAnalyzer.analysis_ano (fst m))
              WineExportAnalyzer.economic_ano m1 economic) as [F2 G2].
  { rewrite Ke. apply years_NoDup. }
  { intros a Ha. rewrite Ke, <- Ky, <- F1, map_map.
    now apply (in_map (fun m => WineExportAnalyzer.analysis_ano (fst m))). }
  fold m2 in F2, G2.
  destruct (merge_left_rows
              (fun m => WineExportAnalyzer.analysis_ano (fst (fst m)))
              WineExportAnalyzer.rating_ano m2 ratings) as [F3 G3].
  { rewrite Kr. apply years_NoDup. }
  { intros a Ha. rewrite Kr, <- Ky, <- F1, <- F2, !map_map.
    now apply (in_map (fun m => WineExportAnalyzer.analysis_ano
                                  (fst (fst m)))). }
  fold m3 in F3, G3.
  assert (Eyp : map WineExportAnalyzer.yearly_part m3 = yearly).
  { rewrite <- F1, <- F2 at 1. rewrite <- F3 at 1. rewrite !map_map.
    reflexivity. }
  exists exports, m3.
  split; [exact Hx|]. split.
  { unfold WineExportAnalyzer.create_correlation_analysis.
    rewrite Hx, Hc, He, Hr. reflexivity. }
  split; [exact Eyp|]. split.
  { rewrite <- Ky, <- Eyp, map_map. reflexivity. }
  split.
  { apply Forall_forall. intros m Hm. cbv zeta.
    assert (Hm2 : In (fst m) m2) by (rewrite <- F3; now apply in_map).
    assert (Hm1 : In (fst (fst m)) m1) by (rewrite <- F2; now apply in_map).
    rewrite Forall_forall in G1, G2, G3.
    specialize (G3 m Hm). specialize (G2 _ Hm2). specialize (G1 _ Hm1).
    cbn beta in G2, G3. unfold WineExportAnalyzer.yearly_part.
    repeat split; try congruence.
    assert (Hy : In (fst (fst (fst m))) yearly)
      by (rewrite <- F1; now apply in_map).
    unfold yearly, WineExportAnalyzer.yearly_export in Hy.
    apply in_map_iff in Hy as [y [<- _]].
    cbn [WineExportAnalyzer.analysis_volume_litros].
    apply sum_over_nonneg. intros r Hr'.
    unfold WineExportAnalyzer.year_rows in Hr'.
    apply filter_In in Hr' as [Hr' _].
    destruct (generate_export_data_spec s) as [_ Hd].
    fold exports in Hd. rewrite Forall_forall in Hd.
    destruct (Hd r Hr') as [s0 (_ & _ & Hv & _)]. exact Hv. }
  rewrite Eyp.
  destruct yearly as [|a yearly'] eqn:Eyl; [discriminate Ky|].
  unfold WineExportAnalyzer.create_future_projections.
  do 2 eexists. split; [reflexivity|].
  split; now rewrite WineExportAnalyzer.predict_length.
Qed.

(** ** The executive summary *)

Lemma Qle_bool_total (x y : Q) : Qle_bool x y = true \/ Qle_bool y x = true.
Proof.
  destruct (Qlt_le_dec y x) as [H|H].
  - right. apply Qle_bool_iff. now apply Qlt_le_weak.
  - left. now apply Qle_bool_iff.
Qed.

Lemma market_totals_spec (rows : list WineExportAnalyzer.export_row) :
  let keys := sort_by String.leb
                (unique (map WineExportAnalyzer.pais_destino rows)) in
  let entries :=
    map (fun c => (c, sum_over WineExportAnalyzer.valor_usd
                        (WineExportAnalyzer.country_rows c rows))) keys in
  let sorted := sort_by (fun a b => Qle_bool (snd b) (snd a)) entries in
  NoDup (map fst sorted)
  /\ (forall c, In c (map fst sorted)
                <-> In c (map WineExportAnalyzer.pais_destino rows))
  /\ (forall e, In e sorted ->
                snd e == sum_over WineExportAnalyzer.valor_usd
                           (WineExportAnalyzer.country_rows (fst e) rows))
  /\ StronglySorted (fun a b : string * Q => snd b <= snd a) sorted.
Proof.
  intros keys entries sorted.
  assert (Hp : Permutation sorted entries) by apply sort_by_perm.
  assert (Hk : map fst entries = keys).
  { unfold entries. rewrite map_map. cbn [fst]. apply map_id. }
  assert (Hpk : Permutation keys
                  (unique (map WineExportAnalyzer.pais_destino rows)))
    by apply sort_by_perm.
  split.
  { apply (Permutation_NoDup (l := keys)).
    - rewrite <- Hk. symmetry. now apply Permutation_map.
    - apply (Permutation_NoDup (l := unique
                (map WineExportAnalyzer.pais_destino rows)));
        [now symmetry | apply unique_NoDup]. }
  split.
  { intro c.
    rewrite <- (unique_In c (map WineExportAnalyzer.pais_destino rows)).
    split; intro H.
    - apply (Permutation_in c Hpk). rewrite <- Hk.
      apply (Permutation_in c (Permutation_map fst Hp)). exact H.
    - apply (Permutation_in c (Permutation_map fst (Permutation_sym Hp))).
      rewrite Hk. apply (Permutation_in c (Permutation_sym Hpk)). exact H. }
  split.
  { intros e He. apply (Permutation_in e Hp) in He. unfold entries in He.
    apply in_map_iff in He as [c [<- _]]. reflexivity. }
  apply (sorted_weaken
           (fun a b : string * Q => Qle_bool (snd b) (snd a) = true)).
  { intros a b H. now apply Qle_bool_iff. }
  apply (sort_by_sorted (fun a b : string * Q => Qle_bool (snd b) (snd a))
                        (fun _ => True)).
  - intros x y _ _. apply Qle_bool_total.
  - intros x y z _ _ _ H1 H2. apply Qle_bool_iff in H1, H2.
    apply Qle_bool_iff. now apply (Qle_trans _ (snd y)).
  - apply Forall_forall. intros; exact I.
Qed.

(** X19: the market ranking of the executive summary is a top five of any
    export frame: five destination countries, or every country of the
    frame when these are fewer, each listed once with the sum of the
    values of its rows, in order of decreasing total; and every country
    of the frame that is not listed has a total no larger than each
    listed one. *)
Theorem top_markets_ranked (rows : list WineExportAnalyzer.export_row) :
  let total c := sum_over WineExportAnalyzer.valor_usd
                   (WineExportAnalyzer.country_rows c rows) in
  let top := WineExportAnalyzer.top_markets rows in
  (length top <= 5)%nat
  /\ (length top = 5%nat
      \/ forall c, In c (map WineExportAnalyzer.pais_destino rows) ->
                   In c (map fst top))
  /\ NoDup (map fst top)
  /\ (forall e, In e top ->
                In (fst e) (map WineExportAnalyzer.pais_destino rows)
                /\ snd e == total (fst e))
  /\ StronglySorted (fun a b : string * Q => snd b <= snd a) top
  /\ (forall c, In c (map WineExportAnalyzer.pais_destino rows) ->
                ~ In c (map fst top) ->
                forall e, In e top -> total c <= snd e).
Proof.
  intros total top.
  destruct (market_totals_spec rows) as (Hnd & Hin & Htot & Hs).
  cbv zeta in Hnd, Hin, Htot, Hs.
  unfold top, WineExportAnalyzer.top_markets.
  set (sorted := sort_by _ _) in *.
  pose proof (head_skipn 5 sorted) as Hsplit.
  split; [unfold head; apply firstn_le_length|].
  split.
  { destruct (head_all_or_full 5 sorted) as [Hall|Hfull];
      [right | left; exact Hfull].
    intros c Hc. rewrite Hall. now apply Hin. }
  split.
  { rewrite <- Hsplit, map_app in Hnd. now apply NoDup_app_remove_r in Hnd. }
  split.
  { intros e He. apply head_In in He. split.
    - apply Hin. now apply in_map.
    - now apply Htot. }
  split; [now apply head_sorted|].
  intros c Hc Hout e He.
  apply Hin in Hc. apply in_map_iff in Hc as [e' [Ec He']].
  rewrite <- Hsplit in He'. apply in_app_or in He' as [He'|He'].
  - exfalso. apply Hout. rewrite <- Ec. now apply in_map.
  - rewrite <- Hsplit in Hs.
    pose proof (sorted_app_order _ _ _ Hs e e' He He') as Hle.
    cbn beta in Hle.
    assert (Et : snd e' == total c).
    { subst c. apply Htot. rewrite <- Hsplit. apply in_or_app. now right. }
    rewrite <- Et. exact Hle.
Qed.

(** X20: on generated export data the ranking lists exactly five markets,
    all of them among the ten destination countries of the generator,
    whatever the random draws. *)
Theorem top_markets_of_mock_data (RS : RandomState) (s : rng) :
  let top := WineExportAnalyzer.top_markets
               (fst (WineExportAnalyzer.generate_export_data s)) in
  length top = 5%nat
  /\ incl (map fst top) WineExportAnalyzer.countries.
Proof.
  intro top.
  set (rows := fst (WineExportAnalyzer.generate_export_data s)) in *.
  destruct (generate_export_data_spec s) as [Hk _]. fold rows in Hk.
  assert (Hc : forall c, In c (map WineExportAnalyzer.pais_destino rows)
                         <-> In c WineExportAnalyzer.countries).
  { intro c.
    assert (E : map WineExportAnalyzer.pais_destino rows
                = map snd (list_prod WineExportAnalyzer.years
                                     WineExportAnalyzer.countries)).
    { rewrite <- Hk, map_map. reflexivity. }
    rewrite E, in_map_iff. split.
    - intros [[y c'] [<- H]]. apply in_prod_iff in H. exact (proj2 H).
    - intro H. exists (2009%Z, c). split; [reflexivity|].
      apply in_prod_iff. split; [|exact H].
      unfold WineExportAnalyzer.years. cbn. now left. }
  destruct (market_totals_spec rows) as (Hnd & Hin & _ & _).
  cbv zeta in Hnd, Hin.
  unfold top, WineExportAnalyzer.top_markets.
  set (sorted := sort_by _ _) in *.
  assert (Hlen : length sorted = 10%nat).
  { rewrite <- (length_map fst sorted).
    rewrite (Permutation_length
               (NoDup_Permutation Hnd countries_NoDup
                  (fun c => iff_trans (Hin c) (Hc c)))).
    reflexivity. }
  split.
  - unfold head. rewrite firstn_length_le; [reflexivity | lia].
  - intros c H. apply Hc, Hin.
    apply in_map_iff in H as [e [<- He]]. apply in_map.
    now apply head_In in He.
Qed.
